(** * Time-travel trading: the greedy strategies and the move validator

    A shallow embedding of [src/strategies.py], [src/validator.py],
    [src/trading_engine.py] and the parts of [src/config.py],
    [src/data_preprocessor.py] and [main.py] they rely on.

    Modelling conventions.
    - Money and prices are Python floats in the source.  They are embedded
      as exact rationals ([Q]); every statement below is about the
      real-number reading of the arithmetic, compared with [==].  The
      module [Binary64] embeds the simple strategy and the validator on
      binary64 floats as well, to evaluate them where rounding decides the
      outcome.
    - A DataFrame is the list of its rows in positional order; after
      [reset_index(drop=True)] the label of a row is its position.
    - [min_profit] is a float that may be infinite, and [max_past_pairs] is
      [np.inf] or a whole number ([_dynamic_max_pairs] returns [np.inf] or
      an [int], and the strategy only subtracts whole numbers from it):
      both are extended numbers ([ext]).
    - A move is a tuple of four strings; dates and quantities are printed
      and parsed as text.
    - [stock_dict] is a finite map from stock symbols to DataFrames.
    - The recursive strategies take a fuel argument; the entry points supply
      more fuel than the frame has rows, which is always enough. *)

From Stdlib Require Import QArith Qround Qminmax Qabs Lqa ZArith Lia List.
From Stdlib Require Import String Ascii DecimalString DecimalZ DecimalPos Sorted.
From Stdlib Require Import Floats.
From stdpp Require Import gmap strings.
Import ListNotations.

(** ** Numbers *)

Module Num.

Local Open Scope Q_scope.

(** [a < b] on floats. *)
Definition Qltb (a b : Q) : bool :=
  match a ?= b with Lt => true | _ => false end.

(** Python's [int(x)] on a float: truncation towards zero. *)
Definition Qtruncate (x : Q) : Z := Z.quot (Qnum x) (Zpos (Qden x)).

(** A float that may be infinite. *)
Inductive ext (A : Type) : Type :=
| NegInf : ext A
| Fin : A -> ext A
| PosInf : ext A.

Arguments NegInf {A}.
Arguments Fin {A} _.
Arguments PosInf {A}.

(** [e - k] for a finite [k]: infinities absorb. *)
Definition ext_sub (e : ext Z) (k : Z) : ext Z :=
  match e with
  | NegInf => NegInf
  | Fin a => Fin (a - k)%Z
  | PosInf => PosInf
  end.

(** [n >= e] for an integer [n]. *)
Definition Z_ge_ext (n : Z) (e : ext Z) : bool :=
  match e with
  | NegInf => true
  | Fin a => (a <=? n)%Z
  | PosInf => false
  end.

(** [x >= e] for a float [x]. *)
Definition Q_ge_ext (x : Q) (e : ext Q) : bool :=
  match e with
  | NegInf => true
  | Fin a => Qle_bool a x
  | PosInf => false
  end.

(** [x < e] for a float [x]. *)
Definition Q_lt_ext (x : Q) (e : ext Q) : Prop :=
  match e with
  | NegInf => False
  | Fin a => x < a
  | PosInf => True
  end.

End Num.
Export Num.

(** ** Calendar dates and their text form *)

Module Calendar.

Record date : Type := mkDate { year : nat; month : nat; day : nat }.

Definition date_compare (a b : date) : comparison :=
  match Nat.compare (year a) (year b) with
  | Eq => match Nat.compare (month a) (month b) with
          | Eq => Nat.compare (day a) (day b)
          | c => c
          end
  | c => c
  end.

Definition date_ltb (a b : date) : bool :=
  match date_compare a b with Lt => true | _ => false end.
Definition date_leb (a b : date) : bool :=
  match date_compare a b with Gt => false | _ => true end.
Definition date_eqb (a b : date) : bool :=
  match date_compare a b with Eq => true | _ => false end.

Definition date_lt (a b : date) : Prop := date_ltb a b = true.
Definition date_le (a b : date) : Prop := date_leb a b = true.

Definition is_leap (y : nat) : bool :=
  ((y mod 4 =? 0) && negb (y mod 100 =? 0)) || (y mod 400 =? 0).

Definition days_in_month (y m : nat) : nat :=
  match m with
  | 2 => if is_leap y then 29 else 28
  | 4 | 6 | 9 | 11 => 30
  | _ => 31
  end.

(** The dates [datetime.date] can hold. *)
Definition valid_dateb (d : date) : bool :=
  (1 <=? year d) && (year d <? 100 * 100) &&
  (1 <=? month d) && (month d <=? 12) &&
  (1 <=? day d) && (day d <=? days_in_month (year d) (month d)).

Definition valid_date (d : date) : Prop := valid_dateb d = true.

Definition digit_char (n : nat) : ascii := ascii_of_nat (48 + n).

Definition digit_val (c : ascii) : option nat :=
  let n := nat_of_ascii c in
  if (48 <=? n) && (n <=? 57) then Some (n - 48) else None.

Definition pad2 (n : nat) (rest : string) : string :=
  String (digit_char (n / 10 mod 10)) (String (digit_char (n mod 10)) rest).

Definition pad4 (n : nat) (rest : string) : string :=
  String (digit_char (n / 1000 mod 10))
    (String (digit_char (n / 100 mod 10)) (pad2 n rest)).

(** [str(row['Date'])[:10]]: the ISO form [YYYY-MM-DD]. *)
Definition format_date (d : date) : string :=
  pad4 (year d) (String "-" (pad2 (month d) (String "-" (pad2 (day d) EmptyString)))).

Definition num2 (a b : ascii) : option nat :=
  match digit_val a, digit_val b with
  | Some x, Some y => Some (10 * x + y)
  | _, _ => None
  end.

Definition num4 (a b c d : ascii) : option nat :=
  match num2 a b, num2 c d with
  | Some x, Some y => Some (100 * x + y)
  | _, _ => None
  end.

Definition num1 (a : ascii) : option nat := digit_val a.

(** The day field of ['%d']: two digits, one digit, or a space and a digit. *)
Definition parse_day (s : string) : option nat :=
  match s with
  | String d1 EmptyString => num1 d1
  | String d1 (String d2 EmptyString) =>
      if Ascii.eqb d1 " " then num1 d2 else num2 d1 d2
  | _ => None
  end.

(** The month field of ['%m'], one or two digits, up to the dash, and the
    day field after it. *)
Definition parse_month_day (s : string) : option (nat * nat) :=
  match s with
  | String m1 (String c rest) =>
      if Ascii.eqb c "-" then
        match num1 m1, parse_day rest with
        | Some m, Some d => Some (m, d)
        | _, _ => None
        end
      else
        match rest with
        | String s2 rest' =>
            if Ascii.eqb s2 "-" then
              match num2 m1 c, parse_day rest' with
              | Some m, Some d => Some (m, d)
              | _, _ => None
              end
            else None
        | EmptyString => None
        end
  | _ => None
  end.

(** [datetime.datetime.strptime(s, '%Y-%m-%d').date()]: a four-digit year,
    a month and a day that form a calendar date; [None] stands for
    [ValueError]. *)
Definition parse_date (s : string) : option date :=
  match s with
  | String y1 (String y2 (String y3 (String y4 (String s1 rest)))) =>
      if Ascii.eqb s1 "-" then
        match num4 y1 y2 y3 y4, parse_month_day rest with
        | Some y, Some (m, d) =>
            let r := mkDate y m d in
            if valid_dateb r then Some r else None
        | _, _ => None
        end
      else None
  | _ => None
  end.

End Calendar.
Export Calendar.

(** ** Integers and their text form *)

Module IntText.

(** [str(n)] for a Python [int]. *)
Definition show_int (n : Z) : string := NilZero.string_of_int (Z.to_int n).

(** [int(s)] on a string: an optional sign and decimal digits; [None] stands
    for [ValueError]. *)
Definition parse_int (s : string) : option Z :=
  match s with
  | String "+" s' => option_map Z.of_uint (NilZero.uint_of_string s')
  | _ => option_map Z.of_int (NilZero.int_of_string s)
  end.

End IntText.
Export IntText.

(** ** Configuration ([src/config.py]) *)

Module Config.

Local Open Scope Q_scope.

Definition INITIAL_CASH : Q := 1.
Definition COMMISSION_RATE : Q := 1 # 100.
Definition BUY_COST_FACTOR : Q := 1 + COMMISSION_RATE.
Definition SELL_REVENUE_FACTOR : Q := 1 - COMMISSION_RATE.
Definition VOLUME_CONSTRAINT_FACTOR : Q := 1 # 10.

(** [dynamic_minimum_profit]. *)
Definition dynamic_minimum_profit (cash : Q) : ext Q :=
  if Qltb cash 1000 then NegInf
  else if Qle_bool cash 10000000 then Fin (cash / 100)
  else Fin 100000.

End Config.
Export Config.

(** ** Data model *)

Module Data.

Local Open Scope Q_scope.

(** One row of a cleaned DataFrame. *)
Record Bar : Type := mkBar {
  Date : date;
  Stock : string;
  Open : Q;
  High : Q;
  Low : Q;
  Close : Q;
  Volume : Q;
  Max_Quantity : Z
}.

(** A move is the tuple [(date, action, stock, quantity)] of strings. *)
Record Move : Type := mkMove {
  date_str : string;
  action : string;
  stock : string;
  quantity_str : string
}.

(** [(VOLUME_CONSTRAINT_FACTOR * df['Volume']).astype(int)]
    ([load_and_preprocess_data]). *)
Definition max_quantity_of (volume : Q) : Z :=
  Qtruncate (VOLUME_CONSTRAINT_FACTOR * volume).

(** A raw CSV row as [load_and_preprocess_data] completes it. *)
Definition make_bar (d : date) (sym : string) (o h l c v : Q) : Bar :=
  mkBar d sym o h l c v (max_quantity_of v).

(** The row filters of [load_and_preprocess_data]: positive prices and
    volume, low and high bracketing the other prices.  (The outlier filter
    on the daily range looks at a whole frame and plays no part below.) *)
Definition cleaned_rowb (r : Bar) : bool :=
  Qltb 0 (Low r) && Qltb 0 (High r) && Qltb 0 (Open r) && Qltb 0 (Close r) &&
  Qltb 0 (Volume r) &&
  Qle_bool (Low r) (Open r) && Qle_bool (Low r) (Close r) && Qle_bool (Low r) (High r) &&
  Qle_bool (Open r) (High r) && Qle_bool (Close r) (High r).

End Data.
Export Data.

(** ** The move validator ([src/validator.py]) *)

Module Validator.

Local Open Scope Q_scope.

(** The three locals of [validate_moves]. *)
Record vstate : Type := mkVState {
  current_date : option date;
  daily_cash : Q;
  daily_revenue : Q
}.

Definition initial_vstate : vstate := mkVState None 0 0.

(** The date transition at the head of the loop body; [None] is the
    chronology failure. *)
Definition advance_date (initial_cash : Q) (st : vstate) (move_date : date)
  : option vstate :=
  match current_date st with
  | None => Some (mkVState (Some move_date) initial_cash 0)
  | Some cur =>
      if date_ltb cur move_date then
        Some (mkVState (Some move_date) (daily_cash st + daily_revenue st) 0)
      else if date_ltb move_date cur then None
      else Some st
  end.

(** [stock_dict[stock]], then the first row of that frame dated [move_date];
    [None] covers [KeyError] and the empty selection. *)
Definition find_row (stock_dict : gmap string (list Bar)) (sym : string)
    (move_date : date) : option Bar :=
  match stock_dict !! sym with
  | None => None
  | Some df_stock =>
      List.find (fun r => date_eqb (Date r) move_date) df_stock
  end.

(** The dispatch on [action]; [None] is the insufficient-cash failure. *)
Definition apply_action (st : vstate) (row : Bar) (act : string) (quantity : Z)
  : option vstate :=
  if String.eqb act "buy-low" then
    let cost := Low row * BUY_COST_FACTOR * inject_Z quantity in
    if Qltb (daily_cash st) cost then None
    else Some (mkVState (current_date st) (daily_cash st - cost) (daily_revenue st))
  else if String.eqb act "buy-open" then
    let cost := Open row * BUY_COST_FACTOR * inject_Z quantity in
    if Qltb (daily_cash st) cost then None
    else Some (mkVState (current_date st) (daily_cash st - cost) (daily_revenue st))
  else if String.eqb act "sell-close" then
    let revenue := Close row * SELL_REVENUE_FACTOR * inject_Z quantity in
    Some (mkVState (current_date st) (daily_cash st) (daily_revenue st + revenue))
  else if String.eqb act "sell-high" then
    let revenue := High row * SELL_REVENUE_FACTOR * inject_Z quantity in
    Some (mkVState (current_date st) (daily_cash st) (daily_revenue st + revenue))
  else Some st.

(** One iteration of the loop; [None] is [return -1.0]. *)
Definition validate_move (initial_cash : Q) (stock_dict : gmap string (list Bar))
    (st : vstate) (move : Move) : option vstate :=
  match parse_date (date_str move), parse_int (quantity_str move) with
  | Some move_date, Some quantity =>
      match advance_date initial_cash st move_date with
      | None => None
      | Some st1 =>
          match find_row stock_dict (stock move) move_date with
          | None => None
          | Some row =>
              if (Max_Quantity row <? quantity)%Z then None
              else apply_action st1 row (action move) quantity
          end
      end
  | _, _ => None
  end.

(** The loop: the first failing move ends it. *)
Fixpoint validate_loop (initial_cash : Q) (stock_dict : gmap string (list Bar))
    (st : vstate) (moves : list Move) : option vstate :=
  match moves with
  | [] => Some st
  | move :: rest =>
      match validate_move initial_cash stock_dict st move with
      | None => None
      | Some st' => validate_loop initial_cash stock_dict st' rest
      end
  end.

(** [validate_moves]: the final balance, or the sentinel [-1.0]. *)
Definition validate_moves (initial_cash : Q) (moves : list Move)
    (stock_dict : gmap string (list Bar)) : Q :=
  match validate_loop initial_cash stock_dict initial_vstate moves with
  | None => - (1)
  | Some st => daily_cash st + daily_revenue st
  end.

End Validator.
Export Validator.

(** [main]'s verdict on a run: the validator did not fail and the two
    balances agree to a cent. *)
Definition validation_success (final_cash validated_cash : Q) : bool :=
  negb (Qeq_bool validated_cash (- (1))) &&
  Qltb (Qabs (final_cash - validated_cash)) (1 # 100).

(** ** The strategies ([src/strategies.py]) *)

Module Strategies.

Local Open Scope Q_scope.

(** [df[(df['Open'] * BUY_COST_FACTOR <= cash) | (df['Low'] * BUY_COST_FACTOR <= cash)]]. *)
Definition affordable (cash : Q) (df : list Bar) : list Bar :=
  List.filter (fun r => Qle_bool (Open r * BUY_COST_FACTOR) cash
                        || Qle_bool (Low r * BUY_COST_FACTOR) cash) df.

(** [np.minimum(df['Max_Quantity'], cash // (price * BUY_COST_FACTOR))], one
    entry of the column. *)
Definition column_quantity (cash : Q) (max_quantity : Z) (price : Q) : Q :=
  Qmin (inject_Z max_quantity) (inject_Z (Qfloor (cash / (price * BUY_COST_FACTOR)))).

Definition profit_open_of (cash : Q) (r : Bar) : Q :=
  column_quantity cash (Max_Quantity r) (Open r)
  * (High r * SELL_REVENUE_FACTOR - Open r * BUY_COST_FACTOR).

Definition profit_low_of (cash : Q) (r : Bar) : Q :=
  column_quantity cash (Max_Quantity r) (Low r)
  * (Close r * SELL_REVENUE_FACTOR - Low r * BUY_COST_FACTOR).

(** [np.maximum(profit_open, profit_low)], one entry of the column. *)
Definition max_profit_of (cash : Q) (r : Bar) : Q :=
  Qmax (profit_open_of cash r) (profit_low_of cash r).

(** [np.argmax]: the position of the first maximum. *)
Fixpoint argmax_from (best_idx : nat) (best : Q) (i : nat) (l : list Q) : nat :=
  match l with
  | [] => best_idx
  | x :: l' =>
      if Qltb best x then argmax_from i x (S i) l'
      else argmax_from best_idx best (S i) l'
  end.

Definition argmax (l : list Q) : nat :=
  match l with
  | [] => 0%nat
  | x :: l' => argmax_from 0 x 1 l'
  end.

(** [int(min(row['Max_Quantity'], cash / (price * BUY_COST_FACTOR)))]. *)
Definition trade_quantity (cash : Q) (max_quantity : Z) (price : Q) : Z :=
  Qtruncate (Qmin (inject_Z max_quantity) (cash / (price * BUY_COST_FACTOR))).

(** [quantity * price * BUY_COST_FACTOR]. *)
Definition trade_cost (quantity : Z) (price : Q) : Q :=
  inject_Z quantity * price * BUY_COST_FACTOR.

(** [quantity * price * SELL_REVENUE_FACTOR]. *)
Definition trade_revenue (quantity : Z) (price : Q) : Q :=
  inject_Z quantity * price * SELL_REVENUE_FACTOR.

(** [df[df['Date'] > row['Date']]]. *)
Definition later_rows (row : Bar) (df : list Bar) : list Bar :=
  List.filter (fun r => date_ltb (Date row) (Date r)) df.

(** The rows of a frame with their labels after [reset_index(drop=True)]. *)
Definition labelled (df : list Bar) : list (nat * Bar) :=
  combine (seq 0 (length df)) df.

(** [.drop(index=idx)] on a labelled frame. *)
Definition drop_label (idx : nat) (ldf : list (nat * Bar)) : list (nat * Bar) :=
  List.filter (fun ir => negb (fst ir =? idx)%nat) ldf.

(** [df[df['Date'] <= row['Date']].drop(index=best_profit_idx)]. *)
Definition earlier_rows (row : Bar) (best_profit_idx : nat) (df : list Bar)
  : list Bar :=
  map snd
    (drop_label best_profit_idx
       (List.filter (fun ir => date_leb (Date (snd ir)) (Date row)) (labelled df))).

(** [len(moves) // 2]. *)
Definition pairs (moves : list Move) : Z := Z.of_nat (length moves / 2).

(** [greedy_trading_recursive], with fuel for the recursion. *)
Fixpoint greedy_fuel (fuel : nat) (df : list Bar) (cash : Q) (moves : list Move)
  : option (Q * list Move) :=
  match fuel with
  | O => None
  | S fuel =>
      let df := affordable cash df in
      match df with
      | [] => Some (cash, moves)
      | row0 :: _ =>
          let profit_open := map (profit_open_of cash) df in
          let profit_low := map (profit_low_of cash) df in
          let max_profit_per_trade := map (max_profit_of cash) df in
          let best_profit_idx := argmax max_profit_per_trade in
          let best_profit := nth best_profit_idx max_profit_per_trade 0 in
          if Qle_bool best_profit 0 then Some (cash, moves)
          else
            let row := nth best_profit_idx df row0 in
            let trade_date_str := format_date (Date row) in
            let stock_symbol := Stock row in
            let '(cash, moves) :=
              if Qltb (nth best_profit_idx profit_low 0)
                      (nth best_profit_idx profit_open 0)
              then
                let quantity := trade_quantity cash (Max_Quantity row) (Open row) in
                let cost := trade_cost quantity (Open row) in
                let revenue := trade_revenue quantity (High row) in
                (cash - cost + revenue,
                 moves ++ [mkMove trade_date_str "buy-open" stock_symbol (show_int quantity);
                           mkMove trade_date_str "sell-high" stock_symbol (show_int quantity)])
              else
                let quantity := trade_quantity cash (Max_Quantity row) (Low row) in
                let cost := trade_cost quantity (Low row) in
                let revenue := trade_revenue quantity (Close row) in
                (cash - cost + revenue,
                 moves ++ [mkMove trade_date_str "buy-low" stock_symbol (show_int quantity);
                           mkMove trade_date_str "sell-close" stock_symbol (show_int quantity)])
            in
            let df := later_rows row df in
            greedy_fuel fuel df cash moves
      end
  end.

(** [greedy_trading_recursive]; [moves=None] is the empty list. *)
Definition greedy_trading_recursive (df : list Bar) (cash : Q)
    (moves : option (list Move)) : Q * list Move :=
  let moves := match moves with None => [] | Some l => l end in
  match greedy_fuel (S (length df)) df cash moves with
  | Some r => r
  | None => (cash, moves)
  end.

(** [extra_greedy_trading_recursive], with fuel for the recursion. *)
Fixpoint extra_greedy_fuel (fuel : nat) (df : list Bar) (cash : Q)
    (moves : list Move) (past : bool) (max_past_pairs : ext Z)
    (min_profit : ext Q) : option (Q * list Move) :=
  match fuel with
  | O => None
  | S fuel =>
      if past && Z_ge_ext (pairs moves) max_past_pairs then Some (cash, moves)
      else
        let df := affordable cash df in
        match df with
        | [] => Some (cash, moves)
        | row0 :: _ =>
            let profit_open := map (profit_open_of cash) df in
            let profit_low := map (profit_low_of cash) df in
            let max_profit_per_trade := map (max_profit_of cash) df in
            let best_profit_idx := argmax max_profit_per_trade in
            let best_profit := nth best_profit_idx max_profit_per_trade 0 in
            if Qle_bool best_profit 0 then Some (cash, moves)
            else
              let row := nth best_profit_idx df row0 in
              if negb past || Q_ge_ext best_profit min_profit then
                let trade_date_str := format_date (Date row) in
                let stock_symbol := Stock row in
                let executed :=
                  if Qltb (nth best_profit_idx profit_low 0)
                          (nth best_profit_idx profit_open 0)
                  then
                    let quantity := trade_quantity cash (Max_Quantity row) (Open row) in
                    let cost := trade_cost quantity (Open row) in
                    let revenue := trade_revenue quantity (High row) in
                    match extra_greedy_fuel fuel
                            (earlier_rows row best_profit_idx df)
                            (cash - cost) [] true
                            (ext_sub max_past_pairs 1) min_profit with
                    | None => None
                    | Some (cash, in_between_moves) =>
                        Some (cash + revenue,
                              (moves ++ in_between_moves)
                              ++ [mkMove trade_date_str "buy-open" stock_symbol (show_int quantity);
                                  mkMove trade_date_str "sell-high" stock_symbol (show_int quantity)])
                    end
                  else
                    let quantity := trade_quantity cash (Max_Quantity row) (Low row) in
                    let cost := trade_cost quantity (Low row) in
                    let revenue := trade_revenue quantity (Close row) in
                    match extra_greedy_fuel fuel
                            (earlier_rows row best_profit_idx df)
                            (cash - cost) [] true
                            (ext_sub max_past_pairs 1) min_profit with
                    | None => None
                    | Some (cash, in_between_moves) =>
                        Some (cash + revenue,
                              (moves ++ in_between_moves)
                              ++ [mkMove trade_date_str "buy-low" stock_symbol (show_int quantity);
                                  mkMove trade_date_str "sell-close" stock_symbol (show_int quantity)])
                    end
                in
                match executed with
                | None => None
                | Some (cash, moves) =>
                    let df := later_rows row df in
                    if negb past then
                      extra_greedy_fuel fuel df cash moves false
                        max_past_pairs min_profit
                    else
                      extra_greedy_fuel fuel df cash moves true
                        (ext_sub max_past_pairs (pairs moves)) min_profit
                end
              else Some (cash, moves)
        end
  end.

(** [extra_greedy_trading_recursive]; [moves=None] is the empty list. *)
Definition extra_greedy_trading_recursive (df : list Bar) (cash : Q)
    (moves : option (list Move)) (past : bool) (max_past_pairs : ext Z)
    (min_profit : ext Q) : Q * list Move :=
  let moves := match moves with None => [] | Some l => l end in
  match extra_greedy_fuel (S (length df)) df cash moves past max_past_pairs min_profit with
  | Some r => r
  | None => (cash, moves)
  end.

End Strategies.
Export Strategies.

(** ** The scenarios ([src/trading_engine.py]) and the verdict of [main.py] *)

Module Engine.

Local Open Scope Q_scope.

(** [sorted(column.unique())] on a column of years or months. *)
Fixpoint insert_unique (x : nat) (l : list nat) : list nat :=
  match l with
  | [] => [x]
  | y :: l' =>
      if (x <? y)%nat then x :: l
      else if (x =? y)%nat then l
      else y :: insert_unique x l'
  end.

Definition sorted_unique (l : list nat) : list nat :=
  fold_right insert_unique [] l.

Definition year_of (r : Bar) : nat := year (Date r).
Definition month_of (r : Bar) : nat := month (Date r).

(** The three results a scenario accumulates: the cash, the cash at the end
    of each year, and all the moves. *)
Record ledger : Type := mkLedger {
  ledger_cash : Q;
  cash_per_year : gmap nat Q;
  all_moves : list Move
}.

(** The body of the loop over years in [run_small_scenario]. *)
Definition small_year (df : list Bar) (acc : ledger) (yr : nat) : ledger :=
  let yearly_data := List.filter (fun r => (year_of r =? yr)%nat) df in
  let '(cash, moves) := greedy_trading_recursive yearly_data (ledger_cash acc) (Some []) in
  mkLedger cash (<[yr := cash]> (cash_per_year acc)) (all_moves acc ++ moves).

(** [run_small_scenario]. *)
Definition run_small_scenario (df : list Bar) (initial_cash : Q) : ledger :=
  let years := sorted_unique (map year_of df) in
  fold_left (small_year df) years (mkLedger initial_cash ∅ []).

(** [_dynamic_max_pairs]; the base is [None] for [np.inf]. *)
Definition dynamic_max_pairs (initial_max_pairs : option Q)
    (current_year last_year : nat) : ext Z :=
  match initial_max_pairs with
  | None => PosInf
  | Some base =>
      let remaining_years := (Z.of_nat last_year - Z.of_nat current_year)%Z in
      if (40 <=? remaining_years)%Z then
        Fin (Qtruncate (base * (1 + 20000 / inject_Z ((remaining_years + 1) ^ 2))))
      else
        Fin (Qtruncate (base * (1 + 15000 / inject_Z (remaining_years + 1))))
  end.

(** The body of the loop over months in [run_large_scenario]; a month
    without data is skipped. *)
Definition large_month (df : list Bar) (initial_max_past_pairs : option Q)
    (yr max_year : nat) (acc : Q * list Move) (mo : nat) : Q * list Move :=
  let monthly_data :=
    List.filter (fun r => (year_of r =? yr)%nat && (month_of r =? mo)%nat) df in
  match monthly_data with
  | [] => acc
  | _ :: _ =>
      let max_past_pairs := dynamic_max_pairs initial_max_past_pairs yr max_year in
      let min_profit := dynamic_minimum_profit (fst acc) in
      let '(cash, moves) :=
        extra_greedy_trading_recursive monthly_data (fst acc) (Some []) false
          max_past_pairs min_profit in
      (cash, snd acc ++ moves)
  end.

(** The body of the loop over years in [run_large_scenario]. *)
Definition large_year (df : list Bar) (initial_max_past_pairs : option Q)
    (months : list nat) (max_year : nat) (acc : ledger) (yr : nat) : ledger :=
  let '(cash, moves) :=
    fold_left (large_month df initial_max_past_pairs yr max_year) months
      (ledger_cash acc, all_moves acc) in
  mkLedger cash (<[yr := cash]> (cash_per_year acc)) moves.

(** [run_large_scenario]; [max(years)] is the last of the sorted years. *)
Definition run_large_scenario (df : list Bar) (initial_cash : Q)
    (initial_max_past_pairs : option Q) : ledger :=
  let years := sorted_unique (map year_of df) in
  let max_year := List.last years 0%nat in
  let months := sorted_unique (map month_of df) in
  fold_left (large_year df initial_max_past_pairs months max_year) years
    (mkLedger initial_cash ∅ []).

Inductive scenario : Type := Small | Large.

(** [main] from the scenario run to the validation status, for the initial
    cash of the configuration: [Some true] is SUCCESS, [Some false] is
    FAILURE, and [None] is the exit on empty data. *)
Definition main_status (initial_cash : Q) (sc : scenario) (combined_data : list Bar)
    (stock_dict : gmap string (list Bar)) : option bool :=
  match combined_data with
  | [] => None
  | _ :: _ =>
      let result :=
        match sc with
        | Small => run_small_scenario combined_data initial_cash
        | Large => run_large_scenario combined_data initial_cash None
        end in
      let final_cash := ledger_cash result in
      let moves := all_moves result in
      let validated_cash := validate_moves initial_cash moves stock_dict in
      Some (validation_success final_cash validated_cash)
  end.

End Engine.
Export Engine.

(** ** Well-formed inputs *)

Module Inputs.

Local Open Scope Q_scope.

(** A DayBar as the data cleaning delivers it: the row passed the filters,
    its [Max_Quantity] was derived from its volume, and its date is a
    calendar date. *)
Definition cleaned_bar (r : Bar) : Prop :=
  cleaned_rowb r = true /\
  Max_Quantity r = max_quantity_of (Volume r) /\
  valid_date (Date r).

Definition cleaned (df : list Bar) : Prop := Forall cleaned_bar df.

(** Every row of [df] is the row [stock_dict] holds for its stock and date. *)
Definition listed (stock_dict : gmap string (list Bar)) (df : list Bar) : Prop :=
  Forall (fun r => find_row stock_dict (Stock r) (Date r) = Some r) df.

End Inputs.
Export Inputs.

(** ** The strategies, step by step *)

Module Runs.

Local Open Scope Q_scope.

(** What one call selects on its affordable rows: the position and row of
    the best profit, that profit, and whether buying at the open beats buying
    at the low. *)
Record choice : Type := mkChoice {
  best_profit_idx : nat;
  chosen_row : Bar;
  best_profit : Q;
  open_variant : bool
}.

Definition choose (cash : Q) (df : list Bar) : option choice :=
  match df with
  | [] => None
  | row0 :: _ =>
      let idx := argmax (map (max_profit_of cash) df) in
      Some (mkChoice idx (nth idx df row0)
              (nth idx (map (max_profit_of cash) df) 0)
              (Qltb (nth idx (map (profit_low_of cash) df) 0)
                    (nth idx (map (profit_open_of cash) df) 0)))
  end.

Definition buy_price (c : choice) : Q :=
  if open_variant c then Open (chosen_row c) else Low (chosen_row c).
Definition sell_price (c : choice) : Q :=
  if open_variant c then High (chosen_row c) else Close (chosen_row c).
Definition buy_action (c : choice) : string :=
  if open_variant c then "buy-open" else "buy-low".
Definition sell_action (c : choice) : string :=
  if open_variant c then "sell-high" else "sell-close".

Definition chosen_quantity (cash : Q) (c : choice) : Z :=
  trade_quantity cash (Max_Quantity (chosen_row c)) (buy_price c).
Definition chosen_cost (cash : Q) (c : choice) : Q :=
  trade_cost (chosen_quantity cash c) (buy_price c).
Definition chosen_revenue (cash : Q) (c : choice) : Q :=
  trade_revenue (chosen_quantity cash c) (sell_price c).

(** The buy and sell legs appended for a selection. *)
Definition chosen_moves (cash : Q) (c : choice) : list Move :=
  [mkMove (format_date (Date (chosen_row c))) (buy_action c)
     (Stock (chosen_row c)) (show_int (chosen_quantity cash c));
   mkMove (format_date (Date (chosen_row c))) (sell_action c)
     (Stock (chosen_row c)) (show_int (chosen_quantity cash c))].

(** The calls of [extra_greedy_trading_recursive] as a derivation: one rule
    per return statement, and one for an executed trade with its corrective
    sub-search and its continuation. *)
Inductive eg_run :
  list Bar -> Q -> list Move -> bool -> ext Z -> ext Q -> Q -> list Move -> Prop :=
| eg_budget df cash moves mx mn :
    Z_ge_ext (pairs moves) mx = true ->
    eg_run df cash moves true mx mn cash moves
| eg_no_candidate df cash moves past mx mn :
    past && Z_ge_ext (pairs moves) mx = false ->
    choose cash (affordable cash df) = None ->
    eg_run df cash moves past mx mn cash moves
| eg_no_profit df cash moves past mx mn c :
    past && Z_ge_ext (pairs moves) mx = false ->
    choose cash (affordable cash df) = Some c ->
    best_profit c <= 0 ->
    eg_run df cash moves past mx mn cash moves
| eg_rejected df cash moves mx mn c :
    Z_ge_ext (pairs moves) mx = false ->
    choose cash (affordable cash df) = Some c ->
    0 < best_profit c ->
    Q_ge_ext (best_profit c) mn = false ->
    eg_run df cash moves true mx mn cash moves
| eg_trade df cash moves past mx mn c cash1 in_between cash' moves' :
    past && Z_ge_ext (pairs moves) mx = false ->
    choose cash (affordable cash df) = Some c ->
    0 < best_profit c ->
    negb past || Q_ge_ext (best_profit c) mn = true ->
    eg_run (earlier_rows (chosen_row c) (best_profit_idx c) (affordable cash df))
      (cash - chosen_cost cash c) [] true (ext_sub mx 1) mn cash1 in_between ->
    eg_run (later_rows (chosen_row c) (affordable cash df))
      (cash1 + chosen_revenue cash c)
      ((moves ++ in_between) ++ chosen_moves cash c) past
      (if past
       then ext_sub mx (pairs ((moves ++ in_between) ++ chosen_moves cash c))
       else mx)
      mn cash' moves' ->
    eg_run df cash moves past mx mn cash' moves'.

(** One executed trade of the simple strategy, with the balance around it. *)
Record trade : Type := mkTrade {
  trade_choice : choice;
  cash_before : Q;
  cash_after : Q
}.

(** The trades [greedy_trading_recursive] executes, in order. *)
Fixpoint greedy_trades (fuel : nat) (df : list Bar) (cash : Q) : list trade :=
  match fuel with
  | O => []
  | S fuel =>
      match choose cash (affordable cash df) with
      | None => []
      | Some c =>
          if Qle_bool (best_profit c) 0 then []
          else
            let cash' := cash - chosen_cost cash c + chosen_revenue cash c in
            mkTrade c cash cash'
            :: greedy_trades fuel (later_rows (chosen_row c) (affordable cash df)) cash'
      end
  end.

Definition trade_moves (t : trade) : list Move :=
  chosen_moves (cash_before t) (trade_choice t).

Definition trade_date (t : trade) : date := Date (chosen_row (trade_choice t)).

(** The forward search with the corrective branch never entered: where
    [extra_greedy_trading_recursive] would launch a corrective sub-search, the
    reserved cash and no in-between moves are taken instead. *)
Fixpoint forward_only_fuel (fuel : nat) (df : list Bar) (cash : Q)
    (moves : list Move) : option (Q * list Move) :=
  match fuel with
  | O => None
  | S fuel =>
      match choose cash (affordable cash df) with
      | None => Some (cash, moves)
      | Some c =>
          if Qle_bool (best_profit c) 0 then Some (cash, moves)
          else
            let cash1 := cash - chosen_cost cash c in
            let in_between : list Move := [] in
            forward_only_fuel fuel (later_rows (chosen_row c) (affordable cash df))
              (cash1 + chosen_revenue cash c)
              ((moves ++ in_between) ++ chosen_moves cash c)
      end
  end.

Definition forward_only (df : list Bar) (cash : Q) (moves : list Move)
  : Q * list Move :=
  match forward_only_fuel (S (length df)) df cash moves with
  | Some r => r
  | None => (cash, moves)
  end.

End Runs.
Export Runs.

(** ** The validator's view of its cash *)

Module Settlement.

Local Open Scope Q_scope.

(** Cash plus unsettled revenue; before the first move, the initial cash. *)
Definition settled_total (initial_cash : Q) (st : vstate) : Q :=
  match current_date st with
  | None => initial_cash
  | Some _ => daily_cash st + daily_revenue st
  end.

(** The cash a buy dated [d] can draw on: revenue of the current day counts
    only once [d] is a later day. *)
Definition available (initial_cash : Q) (st : vstate) (d : date) : Q :=
  match current_date st with
  | None => initial_cash
  | Some cur =>
      if date_ltb cur d then daily_cash st + daily_revenue st
      else daily_cash st
  end.

(** The current settlement date is not after [d]. *)
Definition not_after (st : vstate) (d : date) : Prop :=
  match current_date st with
  | None => True
  | Some cur => date_leb cur d = true
  end.

Definition revenue_nonneg (st : vstate) : Prop :=
  match current_date st with
  | None => True
  | Some _ => 0 <= daily_revenue st
  end.

End Settlement.
Export Settlement.

(** ** The end-to-end scenario of the specification *)

Module Scenario.

Local Open Scope Q_scope.

(** The single bar [(2020-01-01, O=10, H=12, L=9, C=11, V=1000)] of stock X. *)
Definition bar_x : Bar := make_bar (mkDate 2020 1 1) "X" 10 12 9 11 1000.

Definition frame_x : list Bar := [bar_x].

Definition dict_x : gmap string (list Bar) := {[ "X"%string := [bar_x] ]}.

Definition moves_x : list Move :=
  [mkMove "2020-01-01" "buy-low" "X" "100";
   mkMove "2020-01-01" "sell-close" "X" "100"].

End Scenario.
Export Scenario.

(** ** What the output of a strategy is made of *)

Module Output.

Local Open Scope Q_scope.

(** The bar a move names: same stock, same day. *)
Definition references (m : Move) (r : Bar) : Prop :=
  date_str m = format_date (Date r) /\ stock m = Stock r.

(** A move of [df]: it references a row of [df] and its quantity is a
    positive integer within that row's [Max_Quantity], itself derived from
    the row's volume. *)
Definition emitted_within (df : list Bar) (m : Move) : Prop :=
  exists (r : Bar) (q : Z),
    In r df /\ references m r /\
    quantity_str m = show_int q /\ parse_int (quantity_str m) = Some q /\
    (0 < q <= Max_Quantity r)%Z /\
    Max_Quantity r = max_quantity_of (Volume r).

(** Balances that follow one another: each trade starts from the balance
    the previous one left. *)
Fixpoint linked (start : Q) (trades : list trade) : Prop :=
  match trades with
  | [] => True
  | t :: rest => cash_before t = start /\ linked (cash_after t) rest
  end.

End Output.
Export Output.

(** ** The validator's rules, as the specification words them *)

Module Rules.

Local Open Scope Q_scope.

(** The price a buy action pays, if the action is a buy. *)
Definition buy_price_of (act : string) (row : Bar) : option Q :=
  if String.eqb act "buy-low" then Some (Low row)
  else if String.eqb act "buy-open" then Some (Open row)
  else None.

(** The price a sell action receives, if the action is a sell. *)
Definition sell_price_of (act : string) (row : Bar) : option Q :=
  if String.eqb act "sell-close" then Some (Close row)
  else if String.eqb act "sell-high" then Some (High row)
  else None.

(** The validation-error conditions of a move met in state [st]. *)
Inductive validation_error (initial_cash : Q)
    (stock_dict : gmap string (list Bar)) (st : vstate) (m : Move) : Prop :=
| err_date :
    parse_date (date_str m) = None ->
    validation_error initial_cash stock_dict st m
| err_quantity :
    parse_int (quantity_str m) = None ->
    validation_error initial_cash stock_dict st m
| err_chronology d q cur :
    parse_date (date_str m) = Some d ->
    parse_int (quantity_str m) = Some q ->
    current_date st = Some cur ->
    date_lt d cur ->
    validation_error initial_cash stock_dict st m
| err_no_bar d q :
    parse_date (date_str m) = Some d ->
    parse_int (quantity_str m) = Some q ->
    find_row stock_dict (stock m) d = None ->
    validation_error initial_cash stock_dict st m
| err_volume d q row :
    parse_date (date_str m) = Some d ->
    parse_int (quantity_str m) = Some q ->
    find_row stock_dict (stock m) d = Some row ->
    (Max_Quantity row < q)%Z ->
    validation_error initial_cash stock_dict st m
| err_cash d q row price :
    parse_date (date_str m) = Some d ->
    parse_int (quantity_str m) = Some q ->
    not_after st d ->
    find_row stock_dict (stock m) d = Some row ->
    buy_price_of (action m) row = Some price ->
    available initial_cash st d < price * BUY_COST_FACTOR * inject_Z q ->
    validation_error initial_cash stock_dict st m.

(** Settlement in front of a move dated [d]: the first move starts from the
    initial cash; a strictly later day folds the revenue into the cash; the
    same day changes nothing. *)
Definition settles (initial_cash : Q) (st : vstate) (d : date) (st1 : vstate)
  : Prop :=
  match current_date st with
  | None => st1 = mkVState (Some d) initial_cash 0
  | Some cur =>
      (date_lt cur d /\
       st1 = mkVState (Some d) (daily_cash st + daily_revenue st) 0) \/
      (cur = d /\ st1 = st)
  end.

(** The effect of an action on the settled state: a buy is paid at once out
    of the cash, a sell is credited to the revenue, anything else is
    ignored. *)
Definition acts (st1 : vstate) (row : Bar) (act : string) (q : Z) (st' : vstate)
  : Prop :=
  match buy_price_of act row, sell_price_of act row with
  | Some price, _ =>
      price * BUY_COST_FACTOR * inject_Z q <= daily_cash st1 /\
      st' = mkVState (current_date st1)
              (daily_cash st1 - price * BUY_COST_FACTOR * inject_Z q)
              (daily_revenue st1)
  | None, Some price =>
      st' = mkVState (current_date st1) (daily_cash st1)
              (daily_revenue st1 + price * SELL_REVENUE_FACTOR * inject_Z q)
  | None, None => st' = st1
  end.

(** One accepted move. *)
Inductive move_effect (initial_cash : Q) (stock_dict : gmap string (list Bar))
    (st : vstate) (m : Move) (st' : vstate) : Prop :=
| MoveEffect d q row st1 :
    parse_date (date_str m) = Some d ->
    parse_int (quantity_str m) = Some q ->
    find_row stock_dict (stock m) d = Some row ->
    (q <= Max_Quantity row)%Z ->
    settles initial_cash st d st1 ->
    acts st1 row (action m) q st' ->
    move_effect initial_cash stock_dict st m st'.

(** What a move costs and what it brings in, read off the market data. *)
Definition move_cost (stock_dict : gmap string (list Bar)) (m : Move) : Q :=
  match parse_date (date_str m), parse_int (quantity_str m) with
  | Some d, Some q =>
      match find_row stock_dict (stock m) d with
      | Some row =>
          match buy_price_of (action m) row with
          | Some price => price * BUY_COST_FACTOR * inject_Z q
          | None => 0
          end
      | None => 0
      end
  | _, _ => 0
  end.

Definition move_revenue (stock_dict : gmap string (list Bar)) (m : Move) : Q :=
  match parse_date (date_str m), parse_int (quantity_str m) with
  | Some d, Some q =>
      match find_row stock_dict (stock m) d with
      | Some row =>
          match buy_price_of (action m) row, sell_price_of (action m) row with
          | None, Some price => price * SELL_REVENUE_FACTOR * inject_Z q
          | _, _ => 0
          end
      | None => 0
      end
  | _, _ => 0
  end.

Definition total_cost (stock_dict : gmap string (list Bar)) (moves : list Move) : Q :=
  fold_right (fun m acc => move_cost stock_dict m + acc) 0 moves.

Definition total_revenue (stock_dict : gmap string (list Bar)) (moves : list Move) : Q :=
  fold_right (fun m acc => move_revenue stock_dict m + acc) 0 moves.

End Rules.
Export Rules.

(** ** The shape of a strategy's output *)

Module Shape.

Local Open Scope Q_scope.

(** A move list made of adjacent pairs: a buy leg and, right after it, the
    sell leg of the same variant for the same day, stock and quantity. *)
Inductive paired : list Move -> Prop :=
| paired_nil : paired []
| paired_cons (b s : Move) (rest : list Move) :
    date_str s = date_str b ->
    stock s = stock b ->
    quantity_str s = quantity_str b ->
    (action b = "buy-open"%string /\ action s = "sell-high"%string) \/
    (action b = "buy-low"%string /\ action s = "sell-close"%string) ->
    paired rest ->
    paired (b :: s :: rest).

(** The dates of a move list are those of [ds], in order. *)
Definition dated (moves : list Move) (ds : list date) : Prop :=
  map (fun m => parse_date (date_str m)) moves = map Some ds.

(** Order on extended numbers. *)
Definition ext_Qle (a b : ext Q) : Prop :=
  match a, b with
  | NegInf, _ => True
  | _, PosInf => True
  | Fin x, Fin y => x <= y
  | _, _ => False
  end.

Definition ext_Zle (a b : ext Z) : Prop :=
  match a, b with
  | NegInf, _ => True
  | _, PosInf => True
  | Fin x, Fin y => (x <= y)%Z
  | _, _ => False
  end.

End Shape.
Export Shape.

(** ** Actions the validator does not know *)

Module Actions.

(** An action that is none of the four the validator dispatches on. *)
Definition unsupported (act : string) : Prop :=
  ~ In act ["buy-low"; "buy-open"; "sell-close"; "sell-high"]%string.

End Actions.
Export Actions.

(** ** A second bar for examples *)

Module Examples.

Local Open Scope Q_scope.

(** A bar of stock Y on the next day, less profitable than [bar_x]. *)
Definition bar_y : Bar := make_bar (mkDate 2020 1 2) "Y" 20 21 19 20 500.

Definition frame_yx : list Bar := [bar_y; bar_x].

Definition dict_xy : gmap string (list Bar) :=
  <[ "Y"%string := [bar_y] ]> dict_x.

End Examples.
Export Examples.

(** ** The replay of a scenario, period by period *)

Module Periods.

Local Open Scope Q_scope.

(** The validator accepts [moves] from its initial state, ends in [st], and
    the balance it holds there is [cash]. *)
Definition replayed (initial_cash : Q) (stock_dict : gmap string (list Bar))
    (moves : list Move) (cash : Q) (st : vstate) : Prop :=
  validate_loop initial_cash stock_dict initial_vstate moves = Some st /\
  revenue_nonneg st /\
  settled_total initial_cash st == cash.

(** The settlement date of [st], if any, lies before year [y]. *)
Definition year_before (st : vstate) (y : nat) : Prop :=
  match current_date st with
  | None => True
  | Some d => (year d < y)%nat
  end.

(** The settlement date of [st], if any, lies in year [y] or before. *)
Definition year_upto (st : vstate) (y : nat) : Prop :=
  match current_date st with
  | None => True
  | Some d => (year d <= y)%nat
  end.

(** The settlement date of [st], if any, lies before month [m] of year [y]. *)
Definition month_before (st : vstate) (y m : nat) : Prop :=
  match current_date st with
  | None => True
  | Some d => (year d < y)%nat \/ (year d = y /\ (month d < m)%nat)
  end.

(** The settlement date of [st], if any, lies before every row of [df]. *)
Definition precedes (st : vstate) (df : list Bar) : Prop :=
  match current_date st with
  | None => True
  | Some d => forall r, In r df -> date_ltb d (Date r) = true
  end.

End Periods.
Export Periods.

(** ** The run [main] validates *)

Module Verdict.

(** The branch of [main] on the scenario argument; the large scenario runs
    with the default [initial_max_past_pairs]. *)
Definition scenario_result (initial_cash : Q) (sc : scenario)
    (combined_data : list Bar) : ledger :=
  match sc with
  | Small => run_small_scenario combined_data initial_cash
  | Large => run_large_scenario combined_data initial_cash None
  end.

End Verdict.
Export Verdict.

(** ** Loading and cleaning the data ([src/data_preprocessor.py])

    The data directory is the list of its entries in the order of
    [os.listdir]; a missing directory behaves as the empty list.  The
    standard deviation is a square root: comparisons with it are decided on
    the squares, in the real-number reading of the arithmetic.  The final
    [sort_values] is a relation, since the order it gives to rows of one
    date is not fixed. *)

Module Preprocessor.

Local Open Scope Q_scope.

Definition ZERO_VALUE_THRESHOLD : Q := 1 # 10.
Definition OUTLIER_STD_DEV_FACTOR : Q := 3.

(** A row of a stock file as [pd.read_csv] and [pd.to_datetime] deliver it. *)
Record RawRow : Type := mkRawRow {
  raw_date : date;
  raw_open : Q;
  raw_high : Q;
  raw_low : Q;
  raw_close : Q;
  raw_volume : Q
}.

(** An entry of the data directory.  [file_rows] is [None] for a file of
    size zero and for one on which the body of the [try] raises, at whatever
    statement: the two appends are its last statements, so such a file
    leaves no trace. *)
Record DataFile : Type := mkDataFile {
  file_name : string;
  file_rows : option (list RawRow)
}.

(** [file.endswith(".txt")]. *)
Definition ends_with (s suffix : string) : bool :=
  let n := String.length s in
  let k := String.length suffix in
  (k <=? n)%nat && String.eqb (substring (n - k) k s) suffix.

(** [file.split('.')[0]]. *)
Fixpoint before_dot (s : string) : string :=
  match s with
  | EmptyString => EmptyString
  | String c s' => if Ascii.eqb c "." then EmptyString else String c (before_dot s')
  end.

(** [str.upper], for file names written in ASCII ([ascii_name]). *)
Definition upper_char (c : ascii) : ascii :=
  let n := nat_of_ascii c in
  if ((97 <=? n) && (n <=? 122))%nat then ascii_of_nat (n - 32) else c.

Fixpoint upper (s : string) : string :=
  match s with
  | EmptyString => EmptyString
  | String c s' => String (upper_char c) (upper s')
  end.

Definition stock_symbol_of (file : string) : string := upper (before_dot file).

(** [(df[['Low', 'High', 'Open', 'Close', 'Volume']] == 0).any(axis=1)]. *)
Definition has_zero (r : RawRow) : bool :=
  Qeq_bool (raw_low r) 0 || Qeq_bool (raw_high r) 0 || Qeq_bool (raw_open r) 0 ||
  Qeq_bool (raw_close r) 0 || Qeq_bool (raw_volume r) 0.

(** The mean of that mask; [None] is the NaN of a frame without rows. *)
Definition zero_values_ratio (rows : list RawRow) : option Q :=
  match rows with
  | [] => None
  | _ :: _ =>
      Some (inject_Z (Z.of_nat (length (List.filter has_zero rows)))
            / inject_Z (Z.of_nat (length rows)))
  end.

(** [zero_values_ratio > ZERO_VALUE_THRESHOLD]; a NaN is not greater. *)
Definition too_many_zeros (rows : list RawRow) : bool :=
  match zero_values_ratio rows with
  | None => false
  | Some ratio => Qltb ZERO_VALUE_THRESHOLD ratio
  end.

Definition positive_row (r : RawRow) : bool :=
  Qltb 0 (raw_low r) && Qltb 0 (raw_high r) && Qltb 0 (raw_open r) &&
  Qltb 0 (raw_close r) && Qltb 0 (raw_volume r).

Definition Qmin_bool (a b : Q) : Q := if Qle_bool a b then a else b.
Definition Qmax_bool (a b : Q) : Q := if Qle_bool a b then b else a.

(** [logical_prices_mask]. *)
Definition logical_prices (r : RawRow) : bool :=
  Qle_bool (raw_low r) (Qmin_bool (Qmin_bool (raw_open r) (raw_close r)) (raw_high r)) &&
  Qle_bool (Qmax_bool (Qmax_bool (raw_open r) (raw_close r)) (raw_low r)) (raw_high r).

(** The columns the loop adds to a row: [Max_Quantity] and [Stock]
    ([Range] is [High - Low], computed where it is used). *)
Definition complete (stock_symbol : string) (r : RawRow) : Bar :=
  make_bar (raw_date r) stock_symbol
    (raw_open r) (raw_high r) (raw_low r) (raw_close r) (raw_volume r).

(** The checks and filters of the loop body on the rows of one file;
    [None] is [continue]. *)
Definition clean_rows (stock_symbol : string) (rows : list RawRow)
  : option (list Bar) :=
  if too_many_zeros rows then None
  else
    let df := List.filter positive_row rows in
    match df with
    | [] => None
    | _ :: _ =>
        let num_illogical :=
          (length df - length (List.filter logical_prices df))%nat in
        let df := if (0 <? num_illogical)%nat
                  then List.filter logical_prices df else df in
        match df with
        | [] => None
        | _ :: _ => Some (map (complete stock_symbol) df)
        end
    end.

(** The loop body up to its two appends: the symbol and frame it is about
    to store, [None] where it skips the entry. *)
Definition file_frame (f : DataFile) : option (string * list Bar) :=
  if ends_with (file_name f) ".txt" then
    let stock_symbol := stock_symbol_of (file_name f) in
    match file_rows f with
    | None => None
    | Some rows =>
        match clean_rows stock_symbol rows with
        | None => None
        | Some df => Some (stock_symbol, df)
        end
    end
  else None.

(** [all_data.append(df)] and [stock_dict[stock_symbol] = df]. *)
Definition load_file (acc : list (list Bar) * gmap string (list Bar))
    (f : DataFile) : list (list Bar) * gmap string (list Bar) :=
  match file_frame f with
  | None => acc
  | Some (stock_symbol, df) => (fst acc ++ [df], <[stock_symbol := df]> (snd acc))
  end.

Definition Range (r : Bar) : Q := High r - Low r.

Definition Qsum (xs : list Q) : Q := fold_right Qplus 0 xs.

(** [df['Range'].mean()]. *)
Definition mean (xs : list Q) : Q := Qsum xs / inject_Z (Z.of_nat (length xs)).

(** The sample variance, of which [df['Range'].std()] is the root; [None]
    is the NaN of a frame with fewer than two rows. *)
Definition variance (xs : list Q) : option Q :=
  match xs with
  | [] | [_] => None
  | _ :: _ :: _ =>
      Some (Qsum (map (fun x => (x - mean xs) * (x - mean xs)) xs)
            / inject_Z (Z.of_nat (length xs - 1)))
  end.

(** [a <= k * sqrt v] for [0 <= k] and [0 <= v], decided without the root. *)
Definition le_root (a k v : Q) : bool :=
  Qle_bool a 0 || Qle_bool (a * a) (k * k * v).

(** [(Range >= lower_threshold) & (Range <= upper_threshold)] with
    [lower_threshold = max(0, mean - k * std)] and
    [upper_threshold = mean + k * std]; with a NaN deviation the upper
    comparison is false. *)
Definition within_thresholds (mean_range : Q) (var_range : option Q) (x : Q) : bool :=
  match var_range with
  | None => false
  | Some v =>
      Qle_bool 0 x &&
      le_root (mean_range - x) OUTLIER_STD_DEV_FACTOR v &&
      le_root (x - mean_range) OUTLIER_STD_DEV_FACTOR v
  end.

(** The body of the loop over [all_data]. *)
Definition drop_outliers (df : list Bar) : list Bar :=
  let mean_range := mean (map Range df) in
  let var_range := variance (map Range df) in
  List.filter (fun r => within_thresholds mean_range var_range (Range r)) df.

(** [load_and_preprocess_data] on the entries of the data directory, up to
    the final sort: the concatenated frames and the dictionary. *)
Definition load_and_preprocess_data (files : list DataFile)
  : list Bar * gmap string (list Bar) :=
  let '(all_data, stock_dict) := fold_left load_file files ([], ∅) in
  let processed_data := map drop_outliers all_data in
  match processed_data with
  | [] => ([], ∅)
  | _ :: _ => (concat processed_data, stock_dict)
  end.

(** [combined_data.sort_values(by=["Date"])]: the rows reordered by date;
    the order among rows of one date is left open. *)
Definition sort_values (combined_data sorted : list Bar) : Prop :=
  Permutation combined_data sorted /\
  StronglySorted date_le (map Date sorted).

(** A file name written in ASCII, on which [upper] is [str.upper]. *)
Definition ascii_name (file : string) : Prop :=
  Forall (fun c => (nat_of_ascii c < 128)%nat) (list_ascii_of_string file).

(** A volume as the stock files have it: a whole number below [2 ^ 52].
    On such a volume the float product [VOLUME_CONSTRAINT_FACTOR * Volume]
    truncates to the whole part of the exact tenth, and the cast to [int64]
    of [astype(int)] is in range. *)
Definition whole_volume (r : RawRow) : Prop :=
  exists n : Z, (Z.abs n < 2 ^ 52)%Z /\ raw_volume r = inject_Z n.

(** The readable files of a directory hold rows with whole volumes. *)
Definition whole_volumes (files : list DataFile) : Prop :=
  forall f rows, In f files -> file_rows f = Some rows -> Forall whole_volume rows.

(** The symbols and frames the loop over the files stores, in order. *)
Fixpoint stored (files : list DataFile) : list (string * list Bar) :=
  match files with
  | [] => []
  | f :: files' =>
      match file_frame f with
      | Some p => p :: stored files'
      | None => stored files'
      end
  end.

(** Raw rows for the examples: stock X on 2020-01-01 and 2020-01-02. *)
Definition raw_x1 : RawRow := mkRawRow (mkDate 2020 1 1) 10 12 9 10 1000.
Definition raw_x2 : RawRow := mkRawRow (mkDate 2020 1 2) 10 13 9 11 1000.
Definition raw_x3 : RawRow := mkRawRow (mkDate 2020 1 3) 10 12 9 10 1000.
Definition files_x : list DataFile :=
  [mkDataFile "x.us.txt" (Some [raw_x1; raw_x2; raw_x3]);
   mkDataFile "notes.md" None].

(** Two entries that share the symbol X. *)
Definition files_xx : list DataFile :=
  [mkDataFile "x.txt" (Some [raw_x1; raw_x2]);
   mkDataFile "X.us.txt" (Some [raw_x1; raw_x2; raw_x3])].

End Preprocessor.
Export Preprocessor.

(** ** The strategies and the validator on binary64 floats

    The same code read with the arithmetic Python and NumPy perform: every
    operation rounds to the nearest binary64 value.  A bar holds floats, and
    [Max_Quantity] is an integer.  The simple strategy and the validator are
    embedded this way, to evaluate them where rounding matters; [None] is a
    raised exception or exhausted fuel. *)

Module Binary64.

Local Open Scope float_scope.

(** [COMMISSION_RATE = 0.01]: the binary64 value nearest to one hundredth. *)
Definition COMMISSION_RATE : float := 0x1.47ae147ae147bp-7.
Definition BUY_COST_FACTOR : float := 1 + COMMISSION_RATE.
Definition SELL_REVENUE_FACTOR : float := 1 - COMMISSION_RATE.

(** The conversion of an integer to a float, rounded to nearest. *)
Definition of_int (n : Z) : float :=
  SF2Prim (binary_normalize prec emax n 0 false).

(** Python's [int(x)]: truncation towards zero; it raises on NaN and on the
    infinities. *)
Definition int_of (x : float) : option Z :=
  match Prim2SF x with
  | S754_zero _ => Some 0%Z
  | S754_finite s m e =>
      let n := if (0 <=? e)%Z then (Zpos m * 2 ^ e)%Z
               else (Zpos m / 2 ^ (- e))%Z in
      Some (if s then (- n)%Z else n)
  | S754_infinity _ | S754_nan => None
  end.

(** C's [floor]. *)
Definition floor (x : float) : float :=
  match Prim2SF x with
  | S754_finite s m e =>
      if (0 <=? e)%Z then x
      else
        let n := ((if s then Zneg m else Zpos m) / 2 ^ (- e))%Z in
        if (n =? 0)%Z then zero else of_int n
  | _ => x
  end.

(** C's [fmod]: the exact remainder of the division truncated towards
    zero, with the sign of the dividend. *)
Definition fmod (a b : float) : float :=
  match Prim2SF a, Prim2SF b with
  | S754_nan, _ | _, S754_nan => nan
  | S754_infinity _, _ => nan
  | _, S754_zero _ => nan
  | S754_zero _, _ => a
  | _, S754_infinity _ => a
  | S754_finite sa ma ea, S754_finite sb mb eb =>
      let e := Z.min ea eb in
      let r := ((Zpos ma * 2 ^ (ea - e)) mod (Zpos mb * 2 ^ (eb - e)))%Z in
      SF2Prim (binary_normalize prec emax (if sa then (- r)%Z else r) e sa)
  end.

(** NumPy's [floor_divide] on doubles ([npy_divmod]): the quotient is
    rebuilt from [fmod] and snapped to the nearest whole number. *)
Definition floor_divide (a b : float) : float :=
  if b =? 0 then a / b
  else
    let remainder := fmod a b in
    let div := (a - remainder) / b in
    let div :=
      if negb (remainder =? 0) && xorb (b <? 0) (remainder <? 0)
      then div - 1 else div in
    if negb (div =? 0) then
      let floordiv := floor div in
      if 0.5 <? div - floordiv then floordiv + 1 else floordiv
    else if get_sign (a / b) then neg_zero else zero.

(** [np.minimum] and [np.maximum] on doubles: a NaN in the first argument
    wins. *)
Definition minimum (a b : float) : float :=
  if (a <=? b) || is_nan a then a else b.
Definition maximum (a b : float) : float :=
  if (b <=? a) || is_nan a then a else b.

(** One row of a cleaned DataFrame. *)
Record Bar : Type := mkBar {
  Date : date;
  Stock : string;
  Open : float;
  High : float;
  Low : float;
  Close : float;
  Volume : float;
  Max_Quantity : Z
}.

(** [(VOLUME_CONSTRAINT_FACTOR * df['Volume']).astype(int)], for a product
    within the range of [int64]. *)
Definition VOLUME_CONSTRAINT_FACTOR : float := 0x1.999999999999ap-4.
Definition max_quantity_of (volume : float) : option Z :=
  int_of (VOLUME_CONSTRAINT_FACTOR * volume).

(** The row filters of [load_and_preprocess_data]: positive prices and
    volume, low and high bracketing the other prices. *)
Definition cleaned_rowb (r : Bar) : bool :=
  (0 <? Low r) && (0 <? High r) && (0 <? Open r) && (0 <? Close r) &&
  (0 <? Volume r) &&
  (Low r <=? minimum (minimum (Open r) (Close r)) (High r)) &&
  (maximum (maximum (Open r) (Close r)) (Low r) <=? High r).

(** [df[(df['Open'] * BUY_COST_FACTOR <= cash) | (df['Low'] * BUY_COST_FACTOR <= cash)]]. *)
Definition affordable (cash : float) (df : list Bar) : list Bar :=
  List.filter (fun r => (Open r * BUY_COST_FACTOR <=? cash)
                        || (Low r * BUY_COST_FACTOR <=? cash)) df.

(** [np.minimum(df['Max_Quantity'], cash // (price * BUY_COST_FACTOR))], one
    entry of the column. *)
Definition column_quantity (cash : float) (max_quantity : Z) (price : float)
  : float :=
  minimum (of_int max_quantity) (floor_divide cash (price * BUY_COST_FACTOR)).

Definition profit_open_of (cash : float) (r : Bar) : float :=
  column_quantity cash (Max_Quantity r) (Open r)
  * (High r * SELL_REVENUE_FACTOR - Open r * BUY_COST_FACTOR).

Definition profit_low_of (cash : float) (r : Bar) : float :=
  column_quantity cash (Max_Quantity r) (Low r)
  * (Close r * SELL_REVENUE_FACTOR - Low r * BUY_COST_FACTOR).

(** [np.maximum(profit_open, profit_low)], one entry of the column. *)
Definition max_profit_of (cash : float) (r : Bar) : float :=
  maximum (profit_open_of cash r) (profit_low_of cash r).

(** [np.argmax] on a Series: the position of the first maximum among the
    entries that are not NaN; [None] when every entry is NaN. *)
Fixpoint argmax_from (best : option (nat * float)) (i : nat) (l : list float)
  : option (nat * float) :=
  match l with
  | [] => best
  | x :: l' =>
      if is_nan x then argmax_from best (S i) l'
      else
        match best with
        | None => argmax_from (Some (i, x)) (S i) l'
        | Some (_, b) =>
            if b <? x then argmax_from (Some (i, x)) (S i) l'
            else argmax_from best (S i) l'
        end
  end.

Definition argmax (l : list float) : option nat :=
  option_map fst (argmax_from None 0 l).

(** [int(min(row['Max_Quantity'], cash / (price * BUY_COST_FACTOR)))]:
    [min] returns its second argument only when it is smaller. *)
Definition trade_quantity (cash : float) (max_quantity : Z) (price : float)
  : option Z :=
  let afforded := cash / (price * BUY_COST_FACTOR) in
  if afforded <? of_int max_quantity then int_of afforded else Some max_quantity.

(** [quantity * price * BUY_COST_FACTOR]. *)
Definition trade_cost (quantity : Z) (price : float) : float :=
  of_int quantity * price * BUY_COST_FACTOR.

(** [quantity * price * SELL_REVENUE_FACTOR]. *)
Definition trade_revenue (quantity : Z) (price : float) : float :=
  of_int quantity * price * SELL_REVENUE_FACTOR.

(** [df[df['Date'] > row['Date']]]. *)
Definition later_rows (row : Bar) (df : list Bar) : list Bar :=
  List.filter (fun r => date_ltb (Date row) (Date r)) df.

(** [greedy_trading_recursive], with fuel for the recursion. *)
Fixpoint greedy_fuel (fuel : nat) (df : list Bar) (cash : float)
    (moves : list Move) : option (float * list Move) :=
  match fuel with
  | O => None
  | S fuel =>
      let df := affordable cash df in
      match df with
      | [] => Some (cash, moves)
      | row0 :: _ =>
          let profit_open := map (profit_open_of cash) df in
          let profit_low := map (profit_low_of cash) df in
          let max_profit_per_trade := map (max_profit_of cash) df in
          match argmax max_profit_per_trade with
          | None => None
          | Some best_profit_idx =>
              let best_profit := nth best_profit_idx max_profit_per_trade nan in
              if best_profit <=? 0 then Some (cash, moves)
              else
                let row := nth best_profit_idx df row0 in
                let trade_date_str := format_date (Date row) in
                let stock_symbol := Stock row in
                let executed :=
                  if nth best_profit_idx profit_low nan
                     <? nth best_profit_idx profit_open nan
                  then
                    match trade_quantity cash (Max_Quantity row) (Open row) with
                    | None => None
                    | Some quantity =>
                        let cost := trade_cost quantity (Open row) in
                        let revenue := trade_revenue quantity (High row) in
                        Some (cash - cost + revenue,
                              moves ++ [mkMove trade_date_str "buy-open" stock_symbol
                                          (show_int quantity);
                                        mkMove trade_date_str "sell-high" stock_symbol
                                          (show_int quantity)])
                    end
                  else
                    match trade_quantity cash (Max_Quantity row) (Low row) with
                    | None => None
                    | Some quantity =>
                        let cost := trade_cost quantity (Low row) in
                        let revenue := trade_revenue quantity (Close row) in
                        Some (cash - cost + revenue,
                              moves ++ [mkMove trade_date_str "buy-low" stock_symbol
                                          (show_int quantity);
                                        mkMove trade_date_str "sell-close" stock_symbol
                                          (show_int quantity)])
                    end
                in
                match executed with
                | None => None
                | Some (cash, moves) =>
                    greedy_fuel fuel (later_rows row df) cash moves
                end
          end
      end
  end.

(** [greedy_trading_recursive]; [moves=None] is the empty list. *)
Definition greedy_trading_recursive (df : list Bar) (cash : float)
    (moves : option (list Move)) : option (float * list Move) :=
  greedy_fuel (S (length df)) df cash
    (match moves with None => [] | Some l => l end).

(** The three locals of [validate_moves]. *)
Record vstate : Type := mkVState {
  current_date : option date;
  daily_cash : float;
  daily_revenue : float
}.

Definition initial_vstate : vstate := mkVState None 0 0.

(** The date transition at the head of the loop body; [None] is the
    chronology failure. *)
Definition advance_date (initial_cash : float) (st : vstate) (move_date : date)
  : option vstate :=
  match current_date st with
  | None => Some (mkVState (Some move_date) initial_cash 0)
  | Some cur =>
      if date_ltb cur move_date then
        Some (mkVState (Some move_date) (daily_cash st + daily_revenue st) 0)
      else if date_ltb move_date cur then None
      else Some st
  end.

(** [stock_dict[stock]], then the first row of that frame dated [move_date]. *)
Definition find_row (stock_dict : gmap string (list Bar)) (sym : string)
    (move_date : date) : option Bar :=
  match stock_dict !! sym with
  | None => None
  | Some df_stock =>
      List.find (fun r => date_eqb (Date r) move_date) df_stock
  end.

(** The dispatch on [action]; [None] is the insufficient-cash failure. *)
Definition apply_action (st : vstate) (row : Bar) (act : string) (quantity : Z)
  : option vstate :=
  if String.eqb act "buy-low" then
    let cost := Low row * BUY_COST_FACTOR * of_int quantity in
    if daily_cash st <? cost then None
    else Some (mkVState (current_date st) (daily_cash st - cost) (daily_revenue st))
  else if String.eqb act "buy-open" then
    let cost := Open row * BUY_COST_FACTOR * of_int quantity in
    if daily_cash st <? cost then None
    else Some (mkVState (current_date st) (daily_cash st - cost) (daily_revenue st))
  else if String.eqb act "sell-close" then
    let revenue := Close row * SELL_REVENUE_FACTOR * of_int quantity in
    Some (mkVState (current_date st) (daily_cash st) (daily_revenue st + revenue))
  else if String.eqb act "sell-high" then
    let revenue := High row * SELL_REVENUE_FACTOR * of_int quantity in
    Some (mkVState (current_date st) (daily_cash st) (daily_revenue st + revenue))
  else Some st.

(** One iteration of the loop; [None] is [return -1.0]. *)
Definition validate_move (initial_cash : float) (stock_dict : gmap string (list Bar))
    (st : vstate) (move : Move) : option vstate :=
  match parse_date (date_str move), parse_int (quantity_str move) with
  | Some move_date, Some quantity =>
      match advance_date initial_cash st move_date with
      | None => None
      | Some st1 =>
          match find_row stock_dict (stock move) move_date with
          | None => None
          | Some row =>
              if (Max_Quantity row <? quantity)%Z then None
              else apply_action st1 row (action move) quantity
          end
      end
  | _, _ => None
  end.

(** The loop: the first failing move ends it. *)
Fixpoint validate_loop (initial_cash : float) (stock_dict : gmap string (list Bar))
    (st : vstate) (moves : list Move) : option vstate :=
  match moves with
  | [] => Some st
  | move :: rest =>
      match validate_move initial_cash stock_dict st move with
      | None => None
      | Some st' => validate_loop initial_cash stock_dict st' rest
      end
  end.

(** [validate_moves]: the final balance, or the sentinel [-1.0]. *)
Definition validate_moves (initial_cash : float) (moves : list Move)
    (stock_dict : gmap string (list Bar)) : float :=
  match validate_loop initial_cash stock_dict initial_vstate moves with
  | None => - 1
  | Some st => daily_cash st + daily_revenue st
  end.

(** A bar of stock X whose open and low are 12 and whose high and close are
    24, with a volume of 100000. *)
Definition bar_twelve : Bar :=
  mkBar (mkDate 2020 1 1) "X" 12 24 12 24 100000 10000.

Definition dict_twelve : gmap string (list Bar) :=
  {[ "X"%string := [bar_twelve] ]}.

(** A bar of stock X whose open and low are the float 22.77 and whose high
    and close are the float 23.23, with a volume of 1000: buying at 1 per
    cent above the low and selling at 1 per cent below the close gains
    nothing. *)
Definition bar_flat : Bar :=
  mkBar (mkDate 2020 1 1) "X"
    0x1.6c51eb851eb85p+4 0x1.73ae147ae147bp+4
    0x1.6c51eb851eb85p+4 0x1.73ae147ae147bp+4 1000 100.

End Binary64.

(** * Properties *)

(** ** Arithmetic on floats read as rationals *)

Section NumFacts.

Local Open Scope Q_scope.

Lemma Qltb_lt (a b : Q) : Qltb a b = true <-> a < b.
Proof.
  unfold Qltb. rewrite Qlt_alt. destruct (a ?= b); split; congruence.
Qed.

Lemma Qltb_ge (a b : Q) : Qltb a b = false <-> b <= a.
Proof.
  unfold Qltb. rewrite Qle_alt, <- (Qcompare_antisym a b).
  destruct (a ?= b); simpl; split; congruence.
Qed.

Lemma Qle_bool_gt (a b : Q) : Qle_bool a b = false <-> b < a.
Proof.
  split; intros H.
  - apply Qnot_le_lt. intros Hle. apply Qle_bool_iff in Hle. congruence.
  - destruct (Qle_bool a b) eqn:E; [|reflexivity].
    apply Qle_bool_iff in E. lra.
Qed.

Lemma Qtruncate_nonneg (x : Q) : 0 <= x -> Qtruncate x = Qfloor x.
Proof.
  destruct x as [n d]. unfold Qtruncate, Qfloor, Qle. simpl. intros H.
  apply Z.quot_div_nonneg; lia.
Qed.

Lemma Qfloor_nonneg (x : Q) : 0 <= x -> (0 <= Qfloor x)%Z.
Proof.
  intros H. rewrite <- (Qfloor_Z 0). now apply Qfloor_resp_le.
Qed.

Lemma inject_Z_le (a b : Z) : (a <= b)%Z <-> inject_Z a <= inject_Z b.
Proof. rewrite Zle_Qle. reflexivity. Qed.

Lemma inject_Z_lt (a b : Z) : (a < b)%Z <-> inject_Z a < inject_Z b.
Proof. rewrite Zlt_Qlt. reflexivity. Qed.

(** The largest integer below a rational dominates every integer below it. *)
Lemma Qfloor_max (n : Z) (x : Q) : inject_Z n <= x -> (n <= Qfloor x)%Z.
Proof.
  intros H. rewrite <- (Qfloor_Z n). now apply Qfloor_resp_le.
Qed.

Lemma Qmin_inject_Z (a b : Z) :
  Qmin (inject_Z a) (inject_Z b) == inject_Z (Z.min a b).
Proof.
  destruct (Z.le_ge_cases a b) as [H|H].
  - rewrite Z.min_l by assumption. apply Q.min_l. exact (proj1 (inject_Z_le a b) H).
  - rewrite Z.min_r by assumption. apply Q.min_r. exact (proj1 (inject_Z_le b a) H).
Qed.

(** On a non-negative quotient, truncating the capped quotient and capping
    the floored quotient agree. *)
Lemma truncate_min_floor (m : Z) (x : Q) :
  0 <= x -> Qtruncate (Qmin (inject_Z m) x) = Z.min m (Qfloor x).
Proof.
  intros Hx.
  destruct (Qlt_le_dec x (inject_Z m)) as [Hlt|Hle].
  - assert (E : Qmin (inject_Z m) x == x) by (apply Q.min_r; lra).
    assert (Ht : Qtruncate (Qmin (inject_Z m) x) = Qfloor (Qmin (inject_Z m) x)).
    { apply Qtruncate_nonneg. rewrite E. exact Hx. }
    rewrite Ht, (Qfloor_comp _ _ E).
    rewrite Z.min_r; [reflexivity|].
    pose proof (Qfloor_le x). apply (proj2 (inject_Z_le _ _)). lra.
  - assert (E : Qmin (inject_Z m) x == inject_Z m) by (apply Q.min_l; exact Hle).
    destruct (Z.le_gt_cases 0 m) as [Hm|Hm].
    + assert (Ht : Qtruncate (Qmin (inject_Z m) x) = Qfloor (Qmin (inject_Z m) x)).
      { apply Qtruncate_nonneg. rewrite E. exact (proj1 (inject_Z_le 0 m) Hm). }
      rewrite Ht, (Qfloor_comp _ _ E), Qfloor_Z.
      rewrite Z.min_l; [reflexivity|]. now apply Qfloor_max.
    + (* a negative cap is the minimum itself *)
      assert (Hq : Qmin (inject_Z m) x = inject_Z m).
      { unfold Qmin, GenericMinMax.gmin.
        destruct (inject_Z m ?= x) eqn:C; try reflexivity.
        apply Qgt_alt in C. lra. }
      rewrite Hq. unfold Qtruncate, inject_Z. simpl. rewrite Z.quot_1_r.
      rewrite Z.min_l; [reflexivity|]. now apply Qfloor_max.
Qed.

End NumFacts.

(** ** Dates: order and text form *)

Ltac date_cases :=
  unfold date_lt, date_le, date_ltb, date_leb, date_eqb, date_compare in *;
  repeat match goal with
         | d : date |- _ => destruct d
         end;
  simpl in *;
  repeat match goal with
         | H : context [Nat.compare ?a ?b] |- _ => destruct (Nat.compare_spec a b)
         | |- context [Nat.compare ?a ?b] => destruct (Nat.compare_spec a b)
         end;
  try congruence; try lia; try (f_equal; lia).

Section DateFacts.

Lemma date_eqb_eq (a b : date) : date_eqb a b = true <-> a = b.
Proof. split; intros H; [|subst b]; date_cases. Qed.

Lemma date_ltb_irrefl (a : date) : date_ltb a a = false.
Proof. date_cases. Qed.

Lemma date_ltb_trans (a b c : date) :
  date_ltb a b = true -> date_ltb b c = true -> date_ltb a c = true.
Proof. intros H1 H2. date_cases. Qed.

Lemma date_leb_ltb (a b : date) : date_leb a b = negb (date_ltb b a).
Proof. date_cases. Qed.

Lemma date_ltb_leb (a b : date) : date_ltb a b = true -> date_leb a b = true.
Proof. intros H. date_cases. Qed.

Lemma date_leb_refl (a : date) : date_leb a a = true.
Proof. date_cases. Qed.

Lemma date_leb_trans (a b c : date) :
  date_leb a b = true -> date_leb b c = true -> date_leb a c = true.
Proof. intros H1 H2. date_cases. Qed.

Lemma date_leb_ltb_trans (a b c : date) :
  date_leb a b = true -> date_ltb b c = true -> date_ltb a c = true.
Proof. intros H1 H2. date_cases. Qed.

Lemma date_leb_cases (a b : date) :
  date_leb a b = true -> date_ltb a b = true \/ a = b.
Proof. intros H. destruct (date_ltb a b) eqn:E; [now left|right]. date_cases. Qed.

Lemma date_ltb_asym (a b : date) : date_ltb a b = true -> date_ltb b a = false.
Proof. intros H. date_cases. Qed.

End DateFacts.

Section TextFacts.

Lemma digit_val_char (n : nat) : (n < 10)%nat -> digit_val (digit_char n) = Some n.
Proof.
  intros H. unfold digit_val, digit_char.
  rewrite nat_ascii_embedding by lia.
  replace (48 <=? 48 + n)%nat with true by (symmetry; apply Nat.leb_le; lia).
  replace (48 + n <=? 57)%nat with true by (symmetry; apply Nat.leb_le; lia).
  simpl. f_equal. lia.
Qed.

Lemma digit_char_not_dash (n : nat) : (n < 10)%nat -> Ascii.eqb (digit_char n) "-" = false.
Proof.
  intros H. apply Ascii.eqb_neq. intros E.
  apply (f_equal nat_of_ascii) in E. unfold digit_char in E.
  rewrite nat_ascii_embedding in E by lia.
  change (nat_of_ascii "-") with 45%nat in E. lia.
Qed.

Lemma num2_pad2 (n : nat) (rest : string) :
  (n < 100)%nat ->
  exists a b, pad2 n rest = String a (String b rest) /\ num2 a b = Some n.
Proof.
  intros H. unfold pad2. eexists _, _. split; [reflexivity|].
  unfold num2.
  rewrite !digit_val_char by (apply Nat.mod_upper_bound; lia).
  f_equal. rewrite (Nat.mod_small (n / 10)) by (apply Nat.Div0.div_lt_upper_bound; lia).
  pose proof (Nat.div_mod_eq n 10). lia.
Qed.

Lemma num4_pad4 (n : nat) (rest : string) :
  (n < 100 * 100)%nat ->
  exists a b c d,
    pad4 n rest = String a (String b (String c (String d rest))) /\
    num4 a b c d = Some n.
Proof.
  intros H. unfold pad4, pad2. eexists _, _, _, _. split; [reflexivity|].
  unfold num4, num2.
  rewrite !digit_val_char by (apply Nat.mod_upper_bound; lia).
  f_equal.
  rewrite (Nat.mod_small (n / 1000)) by (apply Nat.Div0.div_lt_upper_bound; lia).
  pose proof (Nat.div_mod_eq n 10).
  pose proof (Nat.div_mod_eq (n / 10) 10).
  pose proof (Nat.div_mod_eq (n / 100) 10).
  rewrite (Nat.Div0.div_div n 10 10) in *.
  assert (E : (n / 1000 = n / 100 / 10)%nat) by (rewrite Nat.Div0.div_div; reflexivity).
  change (10 * 10)%nat with 100%nat in *.
  lia.
Qed.

Lemma valid_date_bounds (d : date) :
  valid_date d -> (year d < 100 * 100 /\ month d < 100 /\ day d < 100)%nat.
Proof.
  unfold valid_date, valid_dateb. intros H.
  repeat (apply andb_prop in H; destruct H as [H ?]).
  repeat match goal with
         | H : (_ <=? _)%nat = true |- _ => apply Nat.leb_le in H
         | H : (_ <? _)%nat = true |- _ => apply Nat.ltb_lt in H
         end.
  assert (days_in_month (year d) (month d) <= 31)%nat.
  { unfold days_in_month.
    destruct (month d) as [|[|[|[|[|[|[|[|[|[|[|[|?]]]]]]]]]]]];
      destruct (is_leap (year d)); lia. }
  lia.
Qed.

(** The text form of a calendar date parses back to it. *)
Lemma num2_digits (n : nat) :
  (n < 100)%nat ->
  num2 (digit_char (n / 10 mod 10)) (digit_char (n mod 10)) = Some n.
Proof.
  intros H. destruct (num2_pad2 n EmptyString H) as (a & b & E & N).
  unfold pad2 in E. injection E as <- <-. exact N.
Qed.

Lemma digit_char_not_space (n : nat) :
  (n < 10)%nat -> Ascii.eqb (digit_char n) " " = false.
Proof.
  intros H. apply Ascii.eqb_neq. intros E.
  apply (f_equal nat_of_ascii) in E. unfold digit_char in E.
  rewrite nat_ascii_embedding in E by lia.
  change (nat_of_ascii " ") with 32%nat in E. lia.
Qed.

Lemma parse_format_date (d : date) :
  valid_date d -> parse_date (format_date d) = Some d.
Proof.
  intros Hv. destruct (valid_date_bounds _ Hv) as (Hy & Hm & Hd).
  unfold format_date.
  destruct (num4_pad4 _ (String "-" (pad2 (month d) (String "-" (pad2 (day d) EmptyString)))) Hy)
    as (y1 & y2 & y3 & y4 & Ey & Ny).
  rewrite Ey. unfold parse_date. rewrite Ny. cbn [Ascii.eqb Bool.eqb andb].
  assert (Hmd : parse_month_day (pad2 (month d) (String "-" (pad2 (day d) EmptyString)))
                = Some (month d, day d)).
  { unfold pad2, parse_month_day.
    rewrite (digit_char_not_dash (month d mod 10)) by (apply Nat.mod_upper_bound; lia).
    cbn [Ascii.eqb Bool.eqb andb].
    rewrite (num2_digits (month d)) by exact Hm. unfold parse_day.
    rewrite (digit_char_not_space (day d / 10 mod 10)) by (apply Nat.mod_upper_bound; lia).
    rewrite (num2_digits (day d)) by exact Hd. reflexivity. }
  rewrite Hmd. unfold valid_date in Hv.
  destruct d as [y m dd]. cbn [year month day] in *. rewrite Hv. reflexivity.
Qed.

(** The text form of an integer parses back to it. *)
Lemma parse_show_int (n : Z) : parse_int (show_int n) = Some n.
Proof.
  unfold parse_int, show_int.
  assert (H : NilZero.int_of_string (NilZero.string_of_int (Z.to_int n)) = Some (Z.to_int n)).
  { apply NilZero.isi; destruct n; simpl; try discriminate.
    - intros E. inversion E as [E']. revert E'. apply DecimalPos.Unsigned.to_uint_nonnil. 
    - intros E. inversion E as [E']. revert E'. apply DecimalPos.Unsigned.to_uint_nonnil. }
  destruct (NilZero.string_of_int (Z.to_int n)) as [|c s] eqn:E.
  - rewrite H. simpl. now rewrite of_to.
  - assert (c <> "+"%char).
    { intros ->. unfold NilZero.int_of_string in H. simpl in H.
      unfold NilZero.uint_of_string in H. simpl in H.
      destruct (NilEmpty.uint_of_string s); discriminate. }
    destruct c as [[] [] [] [] [] [] [] []]; try (rewrite H; simpl; now rewrite of_to).
    congruence.
Qed.

End TextFacts.

(** ** Selection of the best trade *)

Section SelectionFacts.

Local Open Scope Q_scope.

Lemma argmax_from_spec (l : list Q) :
  forall (bi : nat) (b : Q) (i : nat),
    (bi < i)%nat ->
    let r := argmax_from bi b i l in
    let v := if (r =? bi)%nat then b else nth (r - i) l 0 in
    (r = bi \/ (i <= r < i + length l)%nat) /\
    b <= v /\ Forall (fun x => x <= v) l.
Proof.
  induction l as [|x l IH]; intros bi b i Hbi; cbn [argmax_from length]; cbv zeta.
  - rewrite Nat.eqb_refl. split; [now left|]. split; [lra|constructor].
  - destruct (Qltb b x) eqn:E.
    + apply Qltb_lt in E.
      destruct (IH i x (S i) ltac:(lia)) as (Hr & Hv & Hall). cbv zeta in *.
      set (r := argmax_from i x (S i) l) in *.
      assert (Hne : (r =? bi)%nat = false) by (apply Nat.eqb_neq; lia).
      rewrite Hne.
      assert (Ev : nth (r - i) (x :: l) 0 =
                   (if (r =? i)%nat then x else nth (r - S i) l 0)).
      { destruct (Nat.eqb_spec r i) as [->|Hri].
        - now rewrite Nat.sub_diag.
        - destruct Hr as [Hr|Hr]; [lia|].
          replace (r - i)%nat with (S (r - S i)) by lia. reflexivity. }
      rewrite Ev. split; [right; lia|]. split; [lra|].
      constructor; [exact Hv|exact Hall].
    + apply Qltb_ge in E.
      destruct (IH bi b (S i) ltac:(lia)) as (Hr & Hv & Hall). cbv zeta in *.
      set (r := argmax_from bi b (S i) l) in *.
      destruct (Nat.eqb_spec r bi) as [Hrb|Hrb].
      * split; [now left|]. split; [lra|].
        constructor; [lra|exact Hall].
      * destruct Hr as [Hr|Hr]; [lia|].
        replace (r - i)%nat with (S (r - S i)) by lia. cbn [nth].
        split; [right; lia|]. split; [exact Hv|].
        constructor; [lra|exact Hall].
Qed.

Lemma argmax_lt (l : list Q) : l <> [] -> (argmax l < length l)%nat.
Proof.
  destruct l as [|x l]; [congruence|]. intros _. unfold argmax.
  destruct (argmax_from_spec l 0%nat x 1%nat ltac:(lia)) as (Hr & _); simpl in *; lia.
Qed.

Lemma argmax_max (l : list Q) :
  Forall (fun x => x <= nth (argmax l) l 0) l.
Proof.
  destruct l as [|x l]; [constructor|]. unfold argmax.
  destruct (argmax_from_spec l 0%nat x 1%nat ltac:(lia)) as (Hr & Hv & Hall).
  set (r := argmax_from 0 x 1 l) in *.
  assert (E : nth r (x :: l) 0 = (if (r =? 0)%nat then x else nth (r - 1) l 0)).
  { destruct r as [|r]; simpl; [reflexivity|]. now rewrite Nat.sub_0_r. }
  rewrite E. constructor; assumption.
Qed.

Lemma nth_map_default {A : Type} (f : A -> Q) (l : list A) (i : nat) (d : A) :
  (i < length l)%nat -> nth i (map f l) 0 = f (nth i l d).
Proof.
  intros H. rewrite (nth_indep _ 0 (f d)) by (now rewrite length_map).
  apply map_nth.
Qed.

(** What [choose] returns: a row of the frame, its position, its profit,
    the comparison of the two variants, and no row does better. *)
Lemma choose_spec (cash : Q) (df : list Bar) (c : choice) :
  choose cash df = Some c ->
  nth_error df (best_profit_idx c) = Some (chosen_row c) /\
  best_profit c = max_profit_of cash (chosen_row c) /\
  open_variant c =
    Qltb (profit_low_of cash (chosen_row c)) (profit_open_of cash (chosen_row c)) /\
  Forall (fun r => max_profit_of cash r <= best_profit c) df.
Proof.
  unfold choose. destruct df as [|row0 rest] eqn:Edf; [discriminate|].
  rewrite <- Edf. intros H. injection H as <-. simpl.
  assert (Hlt : (argmax (map (max_profit_of cash) df) < length df)%nat).
  { rewrite <- (length_map (max_profit_of cash)). apply argmax_lt.
    rewrite Edf. discriminate. }
  rewrite !(nth_map_default _ _ _ row0) by assumption.
  split; [now apply nth_error_nth'|]. split; [reflexivity|]. split; [reflexivity|].
  pose proof (argmax_max (map (max_profit_of cash) df)) as Hm.
  rewrite Forall_map in Hm.
  rewrite (nth_map_default _ _ _ row0) in Hm by assumption. exact Hm.
Qed.

Lemma choose_in (cash : Q) (df : list Bar) (c : choice) :
  choose cash df = Some c -> In (chosen_row c) df.
Proof.
  intros H. apply choose_spec in H as (H & _). eapply nth_error_In, H.
Qed.

Lemma choose_none (cash : Q) (df : list Bar) : choose cash df = None -> df = [].
Proof. destruct df; [reflexivity|discriminate]. Qed.

End SelectionFacts.

(** ** Frames handed to the recursive calls *)

Section FrameFacts.

Local Open Scope Q_scope.

Lemma filter_length_lt {A : Type} (f : A -> bool) (l : list A) (x : A) :
  In x l -> f x = false -> (length (List.filter f l) < length l)%nat.
Proof.
  induction l as [|y l IH]; simpl; [tauto|].
  intros [->|Hin] Hf.
  - rewrite Hf. pose proof (filter_length_le f l). lia.
  - specialize (IH Hin Hf). destruct (f y); simpl; lia.
Qed.

Lemma affordable_length (cash : Q) (df : list Bar) :
  (length (affordable cash df) <= length df)%nat.
Proof. apply filter_length_le. Qed.

Lemma affordable_in (cash : Q) (df : list Bar) (r : Bar) :
  In r (affordable cash df) ->
  In r df /\ (Open r * BUY_COST_FACTOR <= cash \/ Low r * BUY_COST_FACTOR <= cash).
Proof.
  unfold affordable. rewrite filter_In. intros [Hin H]. split; [exact Hin|].
  apply orb_prop in H as [H|H]; apply Qle_bool_iff in H; tauto.
Qed.

Lemma later_rows_in (row : Bar) (df : list Bar) (r : Bar) :
  In r (later_rows row df) <-> In r df /\ date_ltb (Date row) (Date r) = true.
Proof. unfold later_rows. apply filter_In. Qed.

Lemma later_rows_length (row : Bar) (df : list Bar) :
  In row df -> (length (later_rows row df) < length df)%nat.
Proof.
  intros H. apply (filter_length_lt _ _ row H). apply date_ltb_irrefl.
Qed.

Lemma labelled_in (df : list Bar) (i : nat) (r : Bar) :
  nth_error df i = Some r -> In (i, r) (labelled df).
Proof.
  unfold labelled.
  assert (G : forall k, nth_error df i = Some r ->
                        In ((k + i)%nat, r) (combine (seq k (length df)) df)).
  { revert i. induction df as [|x df IH]; intros i k H; [destruct i; discriminate|].
    destruct i as [|i]; simpl in *.
    - injection H as ->. left. f_equal. lia.
    - right. replace (k + S i)%nat with (S k + i)%nat by lia. now apply IH. }
  intros H. exact (G 0%nat H).
Qed.

Lemma labelled_snd (df : list Bar) (ir : nat * Bar) :
  In ir (labelled df) -> In (snd ir) df.
Proof. destruct ir as [i r]. unfold labelled. apply in_combine_r. Qed.

Lemma earlier_rows_in (row : Bar) (idx : nat) (df : list Bar) (r : Bar) :
  In r (earlier_rows row idx df) ->
  In r df /\ date_leb (Date r) (Date row) = true.
Proof.
  unfold earlier_rows, drop_label. rewrite in_map_iff.
  intros ([i r'] & <- & H). rewrite !filter_In in H.
  destruct H as ((Hin & Hd) & _). split; [now apply labelled_snd in Hin|exact Hd].
Qed.

Lemma earlier_rows_length (row : Bar) (idx : nat) (df : list Bar) :
  nth_error df idx = Some row ->
  (length (earlier_rows row idx df) < length df)%nat.
Proof.
  intros H. unfold earlier_rows, drop_label. rewrite length_map.
  assert (Hl : length (labelled df) = length df).
  { unfold labelled. rewrite length_combine, length_seq. lia. }
  rewrite <- Hl.
  eapply Nat.lt_le_trans; [|apply filter_length_le].
  apply (filter_length_lt _ _ (idx, row)).
  - apply filter_In. split; [now apply labelled_in|]. simpl. apply date_leb_refl.
  - simpl. now rewrite Nat.eqb_refl.
Qed.

End FrameFacts.

(** ** The recursive calls, unfolded once *)

Section Unfolding.

Local Open Scope Q_scope.

(** One call of [extra_greedy_trading_recursive] in terms of its selection. *)
Lemma extra_greedy_fuel_step (fuel : nat) (df : list Bar) (cash : Q)
    (moves : list Move) (past : bool) (mx : ext Z) (mn : ext Q) :
  extra_greedy_fuel (S fuel) df cash moves past mx mn =
  if past && Z_ge_ext (pairs moves) mx then Some (cash, moves)
  else
    match choose cash (affordable cash df) with
    | None => Some (cash, moves)
    | Some c =>
        if Qle_bool (best_profit c) 0 then Some (cash, moves)
        else if negb past || Q_ge_ext (best_profit c) mn then
          match extra_greedy_fuel fuel
                  (earlier_rows (chosen_row c) (best_profit_idx c) (affordable cash df))
                  (cash - chosen_cost cash c) [] true (ext_sub mx 1) mn with
          | None => None
          | Some (cash1, in_between) =>
              extra_greedy_fuel fuel
                (later_rows (chosen_row c) (affordable cash df))
                (cash1 + chosen_revenue cash c)
                ((moves ++ in_between) ++ chosen_moves cash c) past
                (if past
                 then ext_sub mx (pairs ((moves ++ in_between) ++ chosen_moves cash c))
                 else mx)
                mn
          end
        else Some (cash, moves)
    end.
Proof.
  cbn [extra_greedy_fuel].
  destruct (past && Z_ge_ext (pairs moves) mx); [reflexivity|].
  unfold choose. destruct (affordable cash df) as [|row0 rest] eqn:Edf; [reflexivity|].
  cbn [best_profit chosen_row best_profit_idx].
  destruct (Qle_bool _ 0); [reflexivity|].
  destruct (negb past || Q_ge_ext _ mn); [|reflexivity].
  unfold chosen_cost, chosen_revenue, chosen_moves, chosen_quantity,
    buy_price, sell_price, buy_action, sell_action.
  cbn [open_variant chosen_row].
  destruct (Qltb _ _);
    (destruct (extra_greedy_fuel fuel _ _ [] true _ mn) as [[cash1 ib]|];
     [|reflexivity]);
    destruct past; reflexivity.
Qed.

(** One call of [greedy_trading_recursive] in terms of its selection. *)
Lemma greedy_fuel_step (fuel : nat) (df : list Bar) (cash : Q) (moves : list Move) :
  greedy_fuel (S fuel) df cash moves =
  match choose cash (affordable cash df) with
  | None => Some (cash, moves)
  | Some c =>
      if Qle_bool (best_profit c) 0 then Some (cash, moves)
      else
        greedy_fuel fuel (later_rows (chosen_row c) (affordable cash df))
          (cash - chosen_cost cash c + chosen_revenue cash c)
          (moves ++ chosen_moves cash c)
  end.
Proof.
  cbn [greedy_fuel].
  unfold choose. destruct (affordable cash df) as [|row0 rest] eqn:Edf; [reflexivity|].
  cbn [best_profit chosen_row best_profit_idx].
  destruct (Qle_bool _ 0); [reflexivity|].
  unfold chosen_cost, chosen_revenue, chosen_moves, chosen_quantity,
    buy_price, sell_price, buy_action, sell_action.
  cbn [open_variant chosen_row].
  destruct (Qltb _ _); reflexivity.
Qed.

(** More fuel than rows is enough for the lookback strategy to return. *)
Lemma extra_greedy_fuel_total (fuel : nat) :
  forall (df : list Bar) (cash : Q) (moves : list Move) (past : bool)
         (mx : ext Z) (mn : ext Q),
    (length df < fuel)%nat ->
    exists r, extra_greedy_fuel fuel df cash moves past mx mn = Some r.
Proof.
  induction fuel as [|fuel IH]; intros df cash moves past mx mn Hlen; [lia|].
  rewrite extra_greedy_fuel_step.
  destruct (past && Z_ge_ext (pairs moves) mx); [eauto|].
  destruct (choose cash (affordable cash df)) as [c|] eqn:Ec; [|eauto].
  destruct (Qle_bool (best_profit c) 0); [eauto|].
  destruct (negb past || Q_ge_ext (best_profit c) mn); [|eauto].
  pose proof (affordable_length cash df) as Ha.
  pose proof Ec as (Hnth & _)%choose_spec.
  pose proof Hnth as He%earlier_rows_length.
  pose proof Ec as Hl%choose_in%later_rows_length.
  destruct (IH (earlier_rows (chosen_row c) (best_profit_idx c) (affordable cash df))
              (cash - chosen_cost cash c) [] true (ext_sub mx 1) mn ltac:(lia))
    as [[cash1 ib] ->].
  apply IH. lia.
Qed.

(** More fuel than rows is enough for the simple strategy to return. *)
Lemma greedy_fuel_total (fuel : nat) :
  forall (df : list Bar) (cash : Q) (moves : list Move),
    (length df < fuel)%nat ->
    exists r, greedy_fuel fuel df cash moves = Some r.
Proof.
  induction fuel as [|fuel IH]; intros df cash moves Hlen; [lia|].
  rewrite greedy_fuel_step.
  destruct (choose cash (affordable cash df)) as [c|] eqn:Ec; [|eauto].
  destruct (Qle_bool (best_profit c) 0); [eauto|].
  pose proof (affordable_length cash df) as Ha.
  pose proof Ec as Hl%choose_in%later_rows_length.
  apply IH. lia.
Qed.

(** Every returning call has a derivation. *)
Lemma extra_greedy_fuel_run (fuel : nat) :
  forall (df : list Bar) (cash : Q) (moves : list Move) (past : bool)
         (mx : ext Z) (mn : ext Q) (cash' : Q) (moves' : list Move),
    extra_greedy_fuel fuel df cash moves past mx mn = Some (cash', moves') ->
    eg_run df cash moves past mx mn cash' moves'.
Proof.
  induction fuel as [|fuel IH]; intros df cash moves past mx mn cash' moves' H;
    [discriminate|].
  rewrite extra_greedy_fuel_step in H.
  destruct (past && Z_ge_ext (pairs moves) mx) eqn:Eb.
  { injection H as <- <-. apply andb_prop in Eb as [-> Eb]. now apply eg_budget. }
  destruct (choose cash (affordable cash df)) as [c|] eqn:Ec.
  2:{ injection H as <- <-. now apply eg_no_candidate. }
  destruct (Qle_bool (best_profit c) 0) eqn:Ep.
  { injection H as <- <-. apply Qle_bool_iff in Ep. now apply eg_no_profit with c. }
  apply Qle_bool_gt in Ep.
  destruct (negb past || Q_ge_ext (best_profit c) mn) eqn:Eg.
  2:{ injection H as <- <-. apply orb_false_elim in Eg as [Ep' Eg].
      destruct past; [|discriminate]. simpl in Eb.
      now apply eg_rejected with c. }
  destruct (extra_greedy_fuel fuel _ _ [] true _ mn) as [[cash1 ib]|] eqn:En;
    [|discriminate].
  eapply eg_trade; eauto.
Qed.

Lemma extra_greedy_run (df : list Bar) (cash : Q) (moves : list Move)
    (past : bool) (mx : ext Z) (mn : ext Q) :
  eg_run df cash moves past mx mn
    (fst (extra_greedy_trading_recursive df cash (Some moves) past mx mn))
    (snd (extra_greedy_trading_recursive df cash (Some moves) past mx mn)).
Proof.
  unfold extra_greedy_trading_recursive.
  destruct (extra_greedy_fuel_total (S (length df)) df cash moves past mx mn
              ltac:(lia)) as [[c m] E].
  rewrite E. simpl. eapply extra_greedy_fuel_run, E.
Qed.

End Unfolding.

(** ** An executed trade on cleaned data *)

Section TradeFacts.

Local Open Scope Q_scope.

Lemma cleaned_bar_facts (r : Bar) :
  cleaned_bar r ->
  0 < Open r /\ 0 < High r /\ 0 < Low r /\ 0 < Close r /\
  (0 <= Max_Quantity r)%Z /\ valid_date (Date r).
Proof.
  intros (Hc & Hm & Hd). unfold cleaned_rowb in Hc.
  repeat (apply andb_prop in Hc; destruct Hc as [Hc ?]).
  repeat match goal with
         | H : Qltb _ _ = true |- _ => apply Qltb_lt in H
         end.
  repeat split; try assumption.
  rewrite Hm. unfold max_quantity_of.
  assert (Hp : 0 <= VOLUME_CONSTRAINT_FACTOR * Volume r).
  { unfold VOLUME_CONSTRAINT_FACTOR. lra. }
  rewrite Qtruncate_nonneg by exact Hp. now apply Qfloor_nonneg.
Qed.

Lemma BUY_COST_FACTOR_pos : 0 < BUY_COST_FACTOR.
Proof. reflexivity. Qed.

Lemma SELL_REVENUE_FACTOR_pos : 0 < SELL_REVENUE_FACTOR.
Proof. reflexivity. Qed.

(** With a positive price and non-negative cash, the executed quantity is
    the entry of the quantity column, lies below the cap, and is paid for. *)
Lemma trade_quantity_spec (cash : Q) (m : Z) (price : Q) :
  0 < price -> 0 <= cash ->
  let q := trade_quantity cash m price in
  column_quantity cash m price == inject_Z q /\
  (q <= m)%Z /\
  ((0 <= m)%Z -> (0 <= q)%Z) /\
  ((0 <= q)%Z -> trade_cost q price <= cash).
Proof.
  intros Hp Hc q.
  pose proof BUY_COST_FACTOR_pos as Hb.
  assert (Hd : 0 < price * BUY_COST_FACTOR) by nra.
  assert (Hx : 0 <= cash / (price * BUY_COST_FACTOR)).
  { apply Qle_shift_div_l; [exact Hd|lra]. }
  assert (Eq : q = Z.min m (Qfloor (cash / (price * BUY_COST_FACTOR)))).
  { unfold q, trade_quantity. now apply truncate_min_floor. }
  pose proof (Qfloor_nonneg _ Hx) as Hf.
  pose proof (Qfloor_le (cash / (price * BUY_COST_FACTOR))) as Hfl.
  split; [|split; [|split]].
  - unfold column_quantity. rewrite Qmin_inject_Z, <- Eq. reflexivity.
  - rewrite Eq. apply Z.le_min_l.
  - intros Hm. rewrite Eq. apply Z.min_glb; assumption.
  - intros Hq. unfold trade_cost.
    assert (Hqf : inject_Z q <= cash / (price * BUY_COST_FACTOR)).
    { eapply Qle_trans; [|exact Hfl]. apply (proj1 (inject_Z_le _ _)).
      rewrite Eq. apply Z.le_min_r. }
    assert (Hmul : inject_Z q * (price * BUY_COST_FACTOR) <= cash).
    { apply (Qmult_le_compat_r _ _ (price * BUY_COST_FACTOR)) in Hqf; [|lra].
      assert (E : cash / (price * BUY_COST_FACTOR) * (price * BUY_COST_FACTOR) == cash).
      { field. lra. }
      rewrite E in Hqf. exact Hqf. }
    lra.
Qed.

(** The facts about an executed selection that the proofs below rely on. *)
Record executed (cash : Q) (c : choice) : Prop := mkExecuted {
  ex_quantity_pos : (0 < chosen_quantity cash c)%Z;
  ex_quantity_max : (chosen_quantity cash c <= Max_Quantity (chosen_row c))%Z;
  ex_cost_nonneg : 0 <= chosen_cost cash c;
  ex_cost_le : chosen_cost cash c <= cash;
  ex_profit : chosen_revenue cash c - chosen_cost cash c == best_profit c;
  ex_profit_pos : 0 < best_profit c;
  ex_cost_eq :
    chosen_cost cash c ==
    buy_price c * BUY_COST_FACTOR * inject_Z (chosen_quantity cash c);
  ex_revenue_eq :
    chosen_revenue cash c ==
    sell_price c * SELL_REVENUE_FACTOR * inject_Z (chosen_quantity cash c)
}.

Lemma chosen_executed (cash : Q) (df : list Bar) (c : choice) :
  cleaned df ->
  choose cash (affordable cash df) = Some c ->
  0 < best_profit c ->
  executed cash c.
Proof.
  intros Hcl Hc Hpos.
  pose proof Hc as (Hnth & Ebest & Evar & _)%choose_spec.
  pose proof Hc as Hin%choose_in.
  apply affordable_in in Hin as (Hin & Haff).
  unfold cleaned in Hcl. rewrite List.Forall_forall in Hcl.
  destruct (cleaned_bar_facts _ (Hcl _ Hin)) as (HO & HH & HL & HC & HM & _).
  pose proof BUY_COST_FACTOR_pos as Hb.
  pose proof SELL_REVENUE_FACTOR_pos as Hs.
  assert (Hcash : 0 <= cash) by (destruct Haff; nra).
  assert (Hbp : 0 < buy_price c) by (unfold buy_price; destruct (open_variant c); assumption).
  destruct (trade_quantity_spec cash (Max_Quantity (chosen_row c)) _ Hbp Hcash)
    as (Ecol & Hqm & Hq0 & Hcost).
  fold (chosen_quantity cash c) in *.
  specialize (Hq0 HM). specialize (Hcost Hq0).
  fold (chosen_cost cash c) in Hcost.
  (* the best profit is the profit of the executed variant *)
  assert (Eprofit : best_profit c ==
            inject_Z (chosen_quantity cash c)
            * (sell_price c * SELL_REVENUE_FACTOR - buy_price c * BUY_COST_FACTOR)).
  { rewrite Ebest. unfold max_profit_of.
    unfold buy_price, sell_price in *. rewrite <- Ecol.
    destruct (open_variant c); symmetry in Evar.
    - apply Qltb_lt in Evar. rewrite Q.max_l by lra. reflexivity.
    - apply Qltb_ge in Evar. rewrite Q.max_r by lra. reflexivity. }
  assert (Hqpos : (0 < chosen_quantity cash c)%Z).
  { destruct (Z.eq_dec (chosen_quantity cash c) 0%Z) as [E0|]; [|lia].
    assert (E : best_profit c == 0).
    { rewrite Eprofit, E0. change (inject_Z 0) with 0. ring. }
    lra. }
  constructor; try assumption.
  - unfold chosen_cost, trade_cost.
    assert (0 <= inject_Z (chosen_quantity cash c)) by (apply (proj1 (inject_Z_le 0 _)); lia).
    fold (chosen_quantity cash c).
    repeat apply Qmult_le_0_compat; lra.
  - rewrite Eprofit. unfold chosen_revenue, chosen_cost, trade_revenue, trade_cost. ring.
  - unfold chosen_cost, trade_cost. ring.
  - unfold chosen_revenue, trade_revenue. ring.
Qed.

Lemma chosen_row_cleaned (cash : Q) (df : list Bar) (c : choice) :
  cleaned df -> choose cash (affordable cash df) = Some c ->
  In (chosen_row c) df /\ cleaned_bar (chosen_row c).
Proof.
  intros Hcl Hc. apply choose_in, affordable_in in Hc as (Hin & _).
  split; [exact Hin|]. unfold cleaned in Hcl. rewrite List.Forall_forall in Hcl. auto.
Qed.

Lemma cleaned_affordable (cash : Q) (df : list Bar) :
  cleaned df -> cleaned (affordable cash df).
Proof.
  unfold cleaned. rewrite !List.Forall_forall. intros H r Hr.
  apply affordable_in in Hr as (Hr & _). auto.
Qed.

Lemma cleaned_later (row : Bar) (df : list Bar) :
  cleaned df -> cleaned (later_rows row df).
Proof.
  unfold cleaned. rewrite !List.Forall_forall. intros H r Hr.
  apply later_rows_in in Hr as (Hr & _). auto.
Qed.

Lemma cleaned_earlier (row : Bar) (idx : nat) (df : list Bar) :
  cleaned df -> cleaned (earlier_rows row idx df).
Proof.
  unfold cleaned. rewrite !List.Forall_forall. intros H r Hr.
  apply earlier_rows_in in Hr as (Hr & _). auto.
Qed.

End TradeFacts.

(** ** Replaying a trade in the validator *)

Section ReplayFacts.

Local Open Scope Q_scope.

Variable initial_cash : Q.
Variable stock_dict : gmap string (list Bar).

Lemma validate_loop_app (st : vstate) (l1 l2 : list Move) :
  validate_loop initial_cash stock_dict st (l1 ++ l2) =
  match validate_loop initial_cash stock_dict st l1 with
  | None => None
  | Some st1 => validate_loop initial_cash stock_dict st1 l2
  end.
Proof.
  revert st. induction l1 as [|m l1 IH]; intros st; simpl; [reflexivity|].
  destruct (validate_move initial_cash stock_dict st m); [apply IH|reflexivity].
Qed.

Lemma available_le_total (st : vstate) (d : date) :
  revenue_nonneg st -> available initial_cash st d <= settled_total initial_cash st.
Proof.
  unfold revenue_nonneg, available, settled_total.
  destruct (current_date st); [|lra].
  destruct (date_ltb _ _); lra.
Qed.

(** The date transition in front of a move dated [d], when the current date
    is not after [d]: the cash becomes what is available for [d]. *)
Lemma advance_date_ok (st : vstate) (d : date) :
  not_after st d -> revenue_nonneg st ->
  exists st1,
    advance_date initial_cash st d = Some st1 /\
    current_date st1 = Some d /\
    daily_cash st1 = available initial_cash st d /\
    0 <= daily_revenue st1 /\
    daily_cash st1 + daily_revenue st1 == settled_total initial_cash st.
Proof.
  unfold not_after, revenue_nonneg, advance_date, available, settled_total.
  destruct st as [[cur|] dc dr]; simpl.
  - intros Hle Hr. destruct (date_ltb cur d) eqn:E1.
    + eexists. split; [reflexivity|]. simpl. repeat split; lra.
    + assert (cur = d) as ->.
      { apply date_leb_cases in Hle as [Hle|Hle]; congruence. }
      rewrite E1. eexists. split; [reflexivity|]. simpl.
      repeat split; lra.
  - intros _ _. eexists. split; [reflexivity|]. simpl. repeat split; lra.
Qed.


Lemma quantity_within (q m : Z) : (q <= m)%Z -> (m <? q)%Z = false.
Proof. intros H. apply Z.ltb_ge. exact H. Qed.

(** The buy leg of an executed selection passes the validator and debits
    the cost from the cash available that day. *)
Lemma validate_buy_leg (st : vstate) (cash : Q) (c : choice) :
  executed cash c ->
  cleaned_bar (chosen_row c) ->
  find_row stock_dict (Stock (chosen_row c)) (Date (chosen_row c)) = Some (chosen_row c) ->
  not_after st (Date (chosen_row c)) ->
  revenue_nonneg st ->
  chosen_cost cash c <= available initial_cash st (Date (chosen_row c)) ->
  exists st',
    validate_move initial_cash stock_dict st
      (mkMove (format_date (Date (chosen_row c))) (buy_action c)
         (Stock (chosen_row c)) (show_int (chosen_quantity cash c))) = Some st' /\
    current_date st' = Some (Date (chosen_row c)) /\
    daily_cash st' == available initial_cash st (Date (chosen_row c)) - chosen_cost cash c /\
    0 <= daily_revenue st' /\
    daily_cash st' + daily_revenue st' ==
      settled_total initial_cash st - chosen_cost cash c.
Proof.
  intros Hex Hcl Hfind Hna Hrev Hcost.
  destruct (cleaned_bar_facts _ Hcl) as (_ & _ & _ & _ & _ & Hvalid).
  destruct (advance_date_ok st _ Hna Hrev) as (st1 & Hadv & Hcur & Hdc & Hdr & Htot).
  unfold validate_move. cbn [date_str quantity_str stock action].
  rewrite (parse_format_date _ Hvalid), parse_show_int, Hadv, Hfind.
  rewrite (quantity_within _ _ (ex_quantity_max _ _ Hex)).
  pose proof (ex_cost_eq _ _ Hex) as Ecost.
  unfold apply_action, buy_action, buy_price in *.
  destruct (open_variant c); cbn [String.eqb Ascii.eqb Bool.eqb andb].
  - assert (Hq : Qltb (daily_cash st1)
                   (Open (chosen_row c) * BUY_COST_FACTOR
                    * inject_Z (chosen_quantity cash c)) = false).
    { apply Qltb_ge. rewrite <- Ecost, Hdc. exact Hcost. }
    rewrite Hq. eexists. split; [reflexivity|]. cbn [current_date daily_cash daily_revenue].
    rewrite <- Ecost, <- Hdc. repeat split; try assumption; try reflexivity.
    rewrite <- Htot. ring.
  - assert (Hq : Qltb (daily_cash st1)
                   (Low (chosen_row c) * BUY_COST_FACTOR
                    * inject_Z (chosen_quantity cash c)) = false).
    { apply Qltb_ge. rewrite <- Ecost, Hdc. exact Hcost. }
    rewrite Hq. eexists. split; [reflexivity|]. cbn [current_date daily_cash daily_revenue].
    rewrite <- Ecost, <- Hdc. repeat split; try assumption; try reflexivity.
    rewrite <- Htot. ring.
Qed.

(** The sell leg of an executed selection, replayed on the day of its buy
    leg, credits the revenue to the unsettled revenue. *)
Lemma validate_sell_leg (st : vstate) (cash : Q) (c : choice) :
  executed cash c ->
  cleaned_bar (chosen_row c) ->
  find_row stock_dict (Stock (chosen_row c)) (Date (chosen_row c)) = Some (chosen_row c) ->
  current_date st = Some (Date (chosen_row c)) ->
  exists st',
    validate_move initial_cash stock_dict st
      (mkMove (format_date (Date (chosen_row c))) (sell_action c)
         (Stock (chosen_row c)) (show_int (chosen_quantity cash c))) = Some st' /\
    current_date st' = Some (Date (chosen_row c)) /\
    daily_cash st' = daily_cash st /\
    daily_revenue st' == daily_revenue st + chosen_revenue cash c.
Proof.
  intros Hex Hcl Hfind Hcur.
  destruct (cleaned_bar_facts _ Hcl) as (_ & _ & _ & _ & _ & Hvalid).
  unfold validate_move. cbn [date_str quantity_str stock action].
  rewrite (parse_format_date _ Hvalid), parse_show_int.
  unfold advance_date. rewrite Hcur, date_ltb_irrefl, Hfind.
  rewrite (quantity_within _ _ (ex_quantity_max _ _ Hex)).
  pose proof (ex_revenue_eq _ _ Hex) as Erev.
  unfold apply_action, sell_action, sell_price in *.
  destruct (open_variant c); cbn [String.eqb Ascii.eqb Bool.eqb andb];
    (eexists; split; [reflexivity|]; cbn [current_date daily_cash daily_revenue];
     rewrite <- Erev; repeat split; try assumption; reflexivity).
Qed.

(** Both legs: the pair is accepted, the cost leaves the available cash and
    the revenue waits for the next day. *)
Lemma validate_chosen_moves (st : vstate) (cash : Q) (c : choice) :
  executed cash c ->
  cleaned_bar (chosen_row c) ->
  find_row stock_dict (Stock (chosen_row c)) (Date (chosen_row c)) = Some (chosen_row c) ->
  not_after st (Date (chosen_row c)) ->
  revenue_nonneg st ->
  chosen_cost cash c <= available initial_cash st (Date (chosen_row c)) ->
  exists st',
    validate_loop initial_cash stock_dict st (chosen_moves cash c) = Some st' /\
    current_date st' = Some (Date (chosen_row c)) /\
    daily_cash st' == available initial_cash st (Date (chosen_row c)) - chosen_cost cash c /\
    revenue_nonneg st' /\
    settled_total initial_cash st' ==
      settled_total initial_cash st - chosen_cost cash c + chosen_revenue cash c.
Proof.
  intros Hex Hcl Hfind Hna Hrev Hcost.
  destruct (validate_buy_leg st cash c Hex Hcl Hfind Hna Hrev Hcost)
    as (st1 & Hb & Hcur1 & Hdc1 & Hdr1 & Htot1).
  destruct (validate_sell_leg st1 cash c Hex Hcl Hfind Hcur1)
    as (st2 & Hs & Hcur2 & Hdc2 & Hdr2).
  exists st2. unfold chosen_moves. cbn [validate_loop]. rewrite Hb, Hs.
  split; [reflexivity|]. split; [exact Hcur2|].
  split; [rewrite Hdc2; exact Hdc1|].
  assert (Hrv : 0 <= chosen_revenue cash c).
  { pose proof (ex_profit _ _ Hex). pose proof (ex_cost_nonneg _ _ Hex).
    pose proof (ex_profit_pos _ _ Hex). lra. }
  unfold revenue_nonneg, settled_total. rewrite Hcur2. split; [lra|].
  rewrite Hdc2, Hdr2.
  unfold settled_total in Htot1. lra.
Qed.

End ReplayFacts.

(** ** Replaying the output of the lookback strategy *)

Section RunReplay.

Local Open Scope Q_scope.

Variable initial_cash : Q.
Variable stock_dict : gmap string (list Bar).

Lemma listed_in (df : list Bar) (r : Bar) :
  listed stock_dict df -> In r df ->
  find_row stock_dict (Stock r) (Date r) = Some r.
Proof. unfold listed. rewrite List.Forall_forall. auto. Qed.

Lemma listed_incl (df df' : list Bar) :
  (forall r, In r df' -> In r df) -> listed stock_dict df -> listed stock_dict df'.
Proof. unfold listed. rewrite !List.Forall_forall. auto. Qed.

(** The moves a call appends are accepted by the validator from any state
    that is not ahead of the frame and holds the call's cash plus a reserve
    [rho]; the reserve is still in the settled cash afterwards. *)
Lemma eg_run_replay df cash moves past mx mn cash' moves' :
  eg_run df cash moves past mx mn cash' moves' ->
  cleaned df -> listed stock_dict df ->
  exists new,
    moves' = moves ++ new /\
    cash <= cash' /\
    forall st rho,
      0 <= rho -> revenue_nonneg st ->
      (forall r, In r df ->
         not_after st (Date r) /\
         cash + rho <= available initial_cash st (Date r)) ->
      exists st',
        validate_loop initial_cash stock_dict st new = Some st' /\
        revenue_nonneg st' /\
        settled_total initial_cash st' ==
          settled_total initial_cash st + (cash' - cash) /\
        (new = [] -> st' = st) /\
        (new <> [] ->
         exists r, In r df /\ current_date st' = Some (Date r) /\
                   rho <= daily_cash st').
Proof.
  assert (Stop : forall (df : list Bar) (cash : Q) (moves : list Move),
    exists new : list Move,
      moves = moves ++ new /\ cash <= cash /\
      forall st rho,
        0 <= rho -> revenue_nonneg st ->
        (forall r, In r df ->
           not_after st (Date r) /\
           cash + rho <= available initial_cash st (Date r)) ->
        exists st',
          validate_loop initial_cash stock_dict st new = Some st' /\
          revenue_nonneg st' /\
          settled_total initial_cash st' ==
            settled_total initial_cash st + (cash - cash) /\
          (new = [] -> st' = st) /\
          (new <> [] ->
           exists r, In r df /\ current_date st' = Some (Date r) /\
                     rho <= daily_cash st')).
  { intros df0 cash0 moves0. exists []. rewrite app_nil_r.
    split; [reflexivity|]. split; [lra|].
    intros st rho _ Hrev _. exists st. simpl.
    split; [reflexivity|]. split; [exact Hrev|]. split; [ring|].
    split; [reflexivity|congruence]. }
  induction 1 as
    [ df cash moves mx mn Hb
    | df cash moves past mx mn Hb Hc
    | df cash moves past mx mn c Hb Hc Hp
    | df cash moves mx mn c Hb Hc Hp Hr
    | df cash moves past mx mn c cash1 ib cash' moves' Hb Hc Hp Hg
        Hnested IHn Hcont IHc ];
    intros Hcl Hls; try apply Stop.
  pose proof (chosen_executed _ _ _ Hcl Hc Hp) as Hex.
  pose proof Hc as Hnth. apply choose_spec in Hnth as (Hnth & _).
  destruct (chosen_row_cleaned _ _ _ Hcl Hc) as (Hin & Hrow).
  pose proof (listed_in _ _ Hls Hin) as Hfind.
  assert (Hsub_e : forall r, In r (earlier_rows (chosen_row c) (best_profit_idx c) (affordable cash df)) ->
                             In r df /\ date_leb (Date r) (Date (chosen_row c)) = true).
  { intros r Hr. apply earlier_rows_in in Hr as (Hr & Hd).
    apply affordable_in in Hr as (Hr & _). tauto. }
  assert (Hsub_l : forall r, In r (later_rows (chosen_row c) (affordable cash df)) ->
                             In r df /\ date_ltb (Date (chosen_row c)) (Date r) = true).
  { intros r Hr. apply later_rows_in in Hr as (Hr & Hd).
    apply affordable_in in Hr as (Hr & _). tauto. }
  destruct IHn as (new1 & En & Hle1 & Rn).
  { apply cleaned_earlier, cleaned_affordable, Hcl. }
  { eapply listed_incl; [|exact Hls]. intros r Hr. now apply Hsub_e. }
  destruct IHc as (new2 & Ec & Hle2 & Rc).
  { apply cleaned_later, cleaned_affordable, Hcl. }
  { eapply listed_incl; [|exact Hls]. intros r Hr. now apply Hsub_l. }
  simpl in En. subst ib.
  pose proof (ex_cost_le _ _ Hex) as Hcost.
  pose proof (ex_cost_nonneg _ _ Hex) as Hcost0.
  pose proof (ex_profit _ _ Hex) as Hprofit.
  pose proof (ex_profit_pos _ _ Hex) as Hppos.
  exists (new1 ++ chosen_moves cash c ++ new2).
  split; [rewrite Ec, <- !app_assoc; reflexivity|].
  split; [lra|].
  intros st rho Hrho Hrev Hpre.
  destruct (Hpre _ Hin) as (Hna_row & Hav_row).
  pose proof (available_le_total initial_cash st (Date (chosen_row c)) Hrev) as Htot.
  (* the corrective sub-search, with the chosen cost added to the reserve *)
  destruct (Rn st (rho + chosen_cost cash c)) as (st1 & V1 & Hrev1 & Ht1 & He1 & Hn1);
    [lra|exact Hrev| |].
  { intros r Hr. destruct (Hsub_e _ Hr) as (Hr' & _).
    destruct (Hpre _ Hr') as (Hna & Hav). split; [exact Hna|lra]. }
  (* the chosen pair *)
  assert (Hpair : not_after st1 (Date (chosen_row c)) /\
                  rho + chosen_cost cash c <= available initial_cash st1 (Date (chosen_row c))).
  { destruct new1 as [|m1 new1'].
    - rewrite (He1 eq_refl). split; [exact Hna_row|lra].
    - destruct Hn1 as (r1 & Hr1 & Hcur1 & Hdc1); [discriminate|].
      destruct (Hsub_e _ Hr1) as (_ & Hd1).
      unfold not_after, available. rewrite Hcur1. split; [exact Hd1|].
      destruct (date_ltb (Date r1) (Date (chosen_row c))).
      + unfold settled_total in Ht1 at 1. rewrite Hcur1 in Ht1. lra.
      + exact Hdc1. }
  destruct Hpair as (Hna1 & Hav1).
  destruct (validate_chosen_moves initial_cash stock_dict st1 cash c Hex Hrow Hfind Hna1 Hrev1)
    as (st2 & V2 & Hcur2 & Hdc2 & Hrev2 & Ht2); [lra|].
  (* the continuation on the later rows *)
  destruct (Rc st2 rho Hrho Hrev2) as (st3 & V3 & Hrev3 & Ht3 & He3 & Hn3).
  { intros r Hr. destruct (Hsub_l _ Hr) as (_ & Hd).
    unfold not_after, available. rewrite Hcur2, Hd.
    split; [now apply date_ltb_leb|].
    unfold settled_total in Ht2 at 1. rewrite Hcur2 in Ht2. lra. }
  exists st3. rewrite validate_loop_app, V1, validate_loop_app, V2, V3.
  split; [reflexivity|]. split; [exact Hrev3|]. split; [lra|].
  split.
  { intros E. apply app_eq_nil in E as (_ & E). discriminate. }
  intros _. destruct new2 as [|m2 new2'].
  - rewrite (He3 eq_refl). exists (chosen_row c). split; [exact Hin|]. split; [exact Hcur2|lra].
  - destruct Hn3 as (r3 & Hr3 & Hcur3 & Hdc3); [discriminate|].
    exists r3. split; [now apply Hsub_l|]. split; assumption.
Qed.

End RunReplay.

(** ** The lookback strategy without a corrective budget *)

Section NoBudget.

Local Open Scope Q_scope.

(** A corrective sub-search launched by a call whose budget is zero returns
    at once. *)
Lemma corrective_without_budget (fuel : nat) (df : list Bar) (cash : Q) (mn : ext Q) :
  extra_greedy_fuel (S fuel) df cash [] true (ext_sub (Fin 0%Z) 1) mn = Some (cash, []).
Proof. reflexivity. Qed.

Lemma extra_greedy_fuel_no_budget (fuel : nat) :
  forall (df : list Bar) (cash : Q) (moves : list Move) (mn : ext Q),
    extra_greedy_fuel fuel df cash moves false (Fin 0%Z) mn =
    greedy_fuel fuel df cash moves.
Proof.
  induction fuel as [|fuel IH]; intros df cash moves mn; [reflexivity|].
  rewrite extra_greedy_fuel_step, greedy_fuel_step. cbn [andb negb orb].
  destruct (choose cash (affordable cash df)) as [c|]; [|reflexivity].
  destruct (Qle_bool (best_profit c) 0); [reflexivity|].
  destruct fuel as [|fuel]; [reflexivity|].
  rewrite corrective_without_budget, app_nil_r. apply IH.
Qed.

Lemma forward_only_fuel_greedy (fuel : nat) :
  forall (df : list Bar) (cash : Q) (moves : list Move),
    forward_only_fuel fuel df cash moves = greedy_fuel fuel df cash moves.
Proof.
  induction fuel as [|fuel IH]; intros df cash moves; [reflexivity|].
  rewrite greedy_fuel_step. cbn [forward_only_fuel].
  destruct (choose cash (affordable cash df)) as [c|]; [|reflexivity].
  destruct (Qle_bool (best_profit c) 0); [reflexivity|].
  rewrite app_nil_r. apply IH.
Qed.

Lemma greedy_as_extra (df : list Bar) (cash : Q) (moves : option (list Move)) (mn : ext Q) :
  greedy_trading_recursive df cash moves =
  extra_greedy_trading_recursive df cash moves false (Fin 0%Z) mn.
Proof.
  unfold greedy_trading_recursive, extra_greedy_trading_recursive.
  now rewrite extra_greedy_fuel_no_budget.
Qed.

End NoBudget.

(** ** The strategies against the validator *)

Section Agreement.

Local Open Scope Q_scope.

Lemma extra_greedy_default_moves df cash past mx mn :
  extra_greedy_trading_recursive df cash None past mx mn =
  extra_greedy_trading_recursive df cash (Some []) past mx mn.
Proof. reflexivity. Qed.

(** The validator recomputes the balance of any non-empty output of the
    lookback strategy started on an empty move list. *)
Lemma extra_greedy_validated (stock_dict : gmap string (list Bar))
    (df : list Bar) (cash : Q) (mx : ext Z) (mn : ext Q) :
  cleaned df -> listed stock_dict df ->
  let r := extra_greedy_trading_recursive df cash None false mx mn in
  snd r <> [] ->
  validate_moves cash (snd r) stock_dict == fst r.
Proof.
  intros Hcl Hls r Hne. subst r. rewrite extra_greedy_default_moves in *.
  pose proof (extra_greedy_run df cash [] false mx mn) as Hrun.
  destruct (extra_greedy_trading_recursive df cash (Some []) false mx mn)
    as [cash' moves']. cbn [fst snd] in *.
  destruct (eg_run_replay cash stock_dict _ _ _ _ _ _ _ _ Hrun Hcl Hls)
    as (new & E & _ & R).
  simpl in E. subst moves'.
  destruct (R initial_vstate 0) as (st' & V & _ & Ht & _ & Hn).
  - lra.
  - exact I.
  - intros r _. split; [exact I|]. unfold available. simpl. lra.
  - destruct (Hn Hne) as (r & _ & Hcur & _).
    unfold validate_moves. rewrite V.
    unfold settled_total in Ht. rewrite Hcur in Ht. simpl in Ht. lra.
Qed.

End Agreement.

(** ** The scenario is a well-formed input *)

Section ScenarioFacts.

Lemma frame_x_cleaned : cleaned frame_x.
Proof.
  repeat constructor.
Qed.

Lemma frame_x_listed : listed dict_x frame_x.
Proof.
  repeat constructor.
Qed.

End ScenarioFacts.

(** ** What the lookback strategy appends *)

Section RunShape.

Local Open Scope Q_scope.

Lemma emitted_within_incl (df df' : list Bar) (m : Move) :
  (forall r, In r df' -> In r df) -> emitted_within df' m -> emitted_within df m.
Proof.
  intros Hsub (r & q & Hin & H). exists r, q. split; [now apply Hsub|exact H].
Qed.

Lemma chosen_moves_emitted (cash : Q) (df : list Bar) (c : choice) :
  cleaned df ->
  choose cash (affordable cash df) = Some c ->
  0 < best_profit c ->
  Forall (emitted_within df) (chosen_moves cash c).
Proof.
  intros Hcl Hc Hp.
  pose proof (chosen_executed _ _ _ Hcl Hc Hp) as Hex.
  destruct (chosen_row_cleaned _ _ _ Hcl Hc) as (Hin & (_ & Hm & _)).
  unfold chosen_moves.
  repeat constructor;
    (exists (chosen_row c), (chosen_quantity cash c);
     repeat split; try assumption; try apply parse_show_int;
     [apply (ex_quantity_pos _ _ Hex)|apply (ex_quantity_max _ _ Hex)]).
Qed.

(** Every move a call appends names a row of its frame, with a positive
    quantity within that row's cap. *)
Lemma eg_run_emitted df cash moves past mx mn cash' moves' :
  eg_run df cash moves past mx mn cash' moves' ->
  cleaned df ->
  exists new, moves' = moves ++ new /\ Forall (emitted_within df) new.
Proof.
  induction 1 as
    [ df cash moves mx mn Hb
    | df cash moves past mx mn Hb Hc
    | df cash moves past mx mn c Hb Hc Hp
    | df cash moves mx mn c Hb Hc Hp Hr
    | df cash moves past mx mn c cash1 ib cash' moves' Hb Hc Hp Hg
        Hnested IHn Hcont IHc ];
    intros Hcl;
    try (exists []; rewrite app_nil_r; split; [reflexivity|constructor]).
  destruct IHn as (new1 & En & F1).
  { apply cleaned_earlier, cleaned_affordable, Hcl. }
  destruct IHc as (new2 & Ec & F2).
  { apply cleaned_later, cleaned_affordable, Hcl. }
  simpl in En. subst ib.
  exists (new1 ++ chosen_moves cash c ++ new2).
  split; [rewrite Ec, <- !app_assoc; reflexivity|].
  rewrite !List.Forall_app. split; [|split].
  - eapply List.Forall_impl; [|exact F1]. intros m. apply emitted_within_incl.
    intros r Hr. apply earlier_rows_in in Hr as (Hr & _).
    now apply affordable_in in Hr as (Hr & _).
  - now apply chosen_moves_emitted.
  - eapply List.Forall_impl; [|exact F2]. intros m. apply emitted_within_incl.
    intros r Hr. apply later_rows_in in Hr as (Hr & _).
    now apply affordable_in in Hr as (Hr & _).
Qed.

(** A call that appends nothing leaves the cash as it was. *)
Lemma eg_run_no_moves df cash moves past mx mn cash' moves' :
  eg_run df cash moves past mx mn cash' moves' ->
  moves' = moves -> cash' = cash.
Proof.
  assert (Grow : forall df cash moves past mx mn cash' moves',
             eg_run df cash moves past mx mn cash' moves' ->
             (length moves <= length moves')%nat).
  { induction 1; try lia.
    rewrite !length_app in *. simpl in *. lia. }
  induction 1 as
    [ | | | 
    | df cash moves past mx mn c cash1 ib cash' moves' Hb Hc Hp Hg
        Hnested IHn Hcont IHc ];
    intros E; try reflexivity.
  apply Grow in Hcont. subst moves'.
  rewrite !length_app in Hcont. simpl in Hcont. lia.
Qed.

Lemma pairs_app_even (l new : list Move) (n : nat) :
  length new = (2 * n)%nat -> pairs (l ++ new) = (pairs l + Z.of_nat n)%Z.
Proof.
  intros H. unfold pairs. rewrite length_app, H.
  rewrite (Nat.mul_comm 2 n), Nat.div_add by lia. lia.
Qed.

(** The number of pairs a corrective call appends is at most its budget,
    or none when the budget is not positive. *)
Lemma eg_run_budget df cash moves past mx mn cash' moves' :
  eg_run df cash moves past mx mn cash' moves' ->
  exists n : nat,
    pairs moves' = (pairs moves + Z.of_nat n)%Z /\
    (exists new, moves' = moves ++ new /\ length new = (2 * n)%nat) /\
    (past = true -> forall b, mx = Fin b -> (Z.of_nat n <= Z.max 0 b)%Z).
Proof.
  induction 1 as
    [ df cash moves mx mn Hb
    | df cash moves past mx mn Hb Hc
    | df cash moves past mx mn c Hb Hc Hp
    | df cash moves mx mn c Hb Hc Hp Hr
    | df cash moves past mx mn c cash1 ib cash' moves' Hb Hc Hp Hg
        Hnested IHn Hcont IHc ];
    try (exists 0%nat; split; [lia|]; split;
         [exists []; rewrite app_nil_r; split; reflexivity|intros; lia]).
  destruct IHn as (n1 & P1 & (new1 & E1 & L1) & B1).
  destruct IHc as (n2 & P2 & (new2 & E2 & L2) & B2).
  simpl in E1. subst ib.
  assert (Hk : (0 <= pairs moves)%Z) by (unfold pairs; lia).
  assert (Pm : pairs ((moves ++ new1) ++ chosen_moves cash c)
               = (pairs moves + Z.of_nat (n1 + 1))%Z).
  { rewrite <- app_assoc. apply pairs_app_even.
    rewrite length_app, L1. simpl. lia. }
  exists (n1 + 1 + n2)%nat. split; [rewrite P2, Pm; lia|]. split.
  - exists (new1 ++ chosen_moves cash c ++ new2).
    split; [rewrite E2, <- !app_assoc; reflexivity|].
    rewrite !length_app, L1, L2. simpl. lia.
  - intros -> b ->. simpl in Hb. apply Z.leb_gt in Hb.
    specialize (B1 eq_refl (b - 1)%Z eq_refl).
    specialize (B2 eq_refl (b - pairs ((moves ++ new1) ++ chosen_moves cash c))%Z eq_refl).
    rewrite Pm in B2. lia.
Qed.

End RunShape.

(** ** The validator, move by move *)

Section ValidatorFacts.

Local Open Scope Q_scope.

Variable initial_cash : Q.
Variable stock_dict : gmap string (list Bar).

Lemma apply_action_rules (st : vstate) (row : Bar) (act : string) (q : Z) :
  apply_action st row act q =
  match buy_price_of act row, sell_price_of act row with
  | Some price, _ =>
      if Qltb (daily_cash st) (price * BUY_COST_FACTOR * inject_Z q) then None
      else Some (mkVState (current_date st)
                   (daily_cash st - price * BUY_COST_FACTOR * inject_Z q)
                   (daily_revenue st))
  | None, Some price =>
      Some (mkVState (current_date st) (daily_cash st)
              (daily_revenue st + price * SELL_REVENUE_FACTOR * inject_Z q))
  | None, None => Some st
  end.
Proof.
  unfold apply_action, buy_price_of, sell_price_of.
  destruct (String.eqb act "buy-low"); [reflexivity|].
  destruct (String.eqb act "buy-open"); [reflexivity|].
  destruct (String.eqb act "sell-close"); [reflexivity|].
  destruct (String.eqb act "sell-high"); reflexivity.
Qed.

Lemma advance_date_settles (st : vstate) (d : date) (st1 : vstate) :
  advance_date initial_cash st d = Some st1 -> settles initial_cash st d st1.
Proof.
  unfold advance_date, settles. destruct (current_date st) as [cur|].
  - destruct (date_ltb cur d) eqn:E1.
    + intros H. injection H as <-. left. split; [exact E1|reflexivity].
    + destruct (date_ltb d cur) eqn:E2; [discriminate|].
      intros H. injection H as <-. right. split; [|reflexivity].
      assert (Hle : date_leb cur d = true) by (rewrite date_leb_ltb, E2; reflexivity).
      apply date_leb_cases in Hle as [Hle|Hle]; congruence.
  - intros H. injection H as <-. reflexivity.
Qed.

Lemma advance_date_chronology (st : vstate) (d cur : date) :
  current_date st = Some cur -> date_lt d cur ->
  advance_date initial_cash st d = None.
Proof.
  unfold advance_date, date_lt. intros -> H.
  rewrite (date_ltb_asym _ _ H), H. reflexivity.
Qed.

(** Each validation error makes the loop body return the sentinel. *)
Lemma validate_move_error (st : vstate) (m : Move) :
  validation_error initial_cash stock_dict st m ->
  validate_move initial_cash stock_dict st m = None.
Proof.
  unfold validate_move.
  intros [Hd | Hq | d q cur Hd Hq Hcur Hlt | d q Hd Hq Hf
         | d q row Hd Hq Hf Hv | d q row price Hd Hq Hna Hf Hb Hc].
  - rewrite Hd. reflexivity.
  - rewrite Hq. destruct (parse_date (date_str m)); reflexivity.
  - rewrite Hd, Hq, (advance_date_chronology _ _ _ Hcur Hlt). reflexivity.
  - rewrite Hd, Hq, Hf. destruct (advance_date initial_cash st d); reflexivity.
  - rewrite Hd, Hq, Hf. destruct (advance_date initial_cash st d); [|reflexivity].
    apply Z.ltb_lt in Hv. rewrite Hv. reflexivity.
  - rewrite Hd, Hq, Hf.
    destruct (advance_date initial_cash st d) as [st1|] eqn:Ha; [|reflexivity].
    destruct (Max_Quantity row <? q)%Z; [reflexivity|].
    rewrite apply_action_rules, Hb.
    assert (Hdc : daily_cash st1 = available initial_cash st d).
    { revert Ha Hna. unfold advance_date, available, not_after.
      destruct (current_date st) as [cur|].
      - destruct (date_ltb cur d).
        + intros H _. injection H as <-. reflexivity.
        + destruct (date_ltb d cur); [discriminate|].
          intros H _. injection H as <-. reflexivity.
      - intros H _. injection H as <-. reflexivity. }
    rewrite Hdc. apply Qltb_lt in Hc. rewrite Hc. reflexivity.
Qed.

(** A failing move ends the validation with the sentinel, whatever follows. *)
Lemma validate_moves_fatal (pre : list Move) (m : Move) (rest : list Move)
    (st : vstate) :
  validate_loop initial_cash stock_dict initial_vstate pre = Some st ->
  validate_move initial_cash stock_dict st m = None ->
  validate_moves initial_cash (pre ++ m :: rest) stock_dict = - (1).
Proof.
  intros Hpre Hm. unfold validate_moves.
  rewrite validate_loop_app, Hpre. cbn [validate_loop]. rewrite Hm. reflexivity.
Qed.

(** A failure stays a failure when moves are added. *)
Lemma validate_loop_failed (st : vstate) (pre rest : list Move) :
  validate_loop initial_cash stock_dict st pre = None ->
  validate_loop initial_cash stock_dict st (pre ++ rest) = None.
Proof. intros H. rewrite validate_loop_app, H. reflexivity. Qed.

(** An accepted move has the effect the rules describe. *)
Lemma validate_move_effect (st : vstate) (m : Move) (st' : vstate) :
  validate_move initial_cash stock_dict st m = Some st' ->
  move_effect initial_cash stock_dict st m st'.
Proof.
  unfold validate_move.
  destruct (parse_date (date_str m)) as [d|] eqn:Hd; [|discriminate].
  destruct (parse_int (quantity_str m)) as [q|] eqn:Hq; [|discriminate].
  destruct (advance_date initial_cash st d) as [st1|] eqn:Ha; [|discriminate].
  destruct (find_row stock_dict (stock m) d) as [row|] eqn:Hf; [|discriminate].
  destruct (Max_Quantity row <? q)%Z eqn:Hv; [discriminate|].
  apply Z.ltb_ge in Hv. rewrite apply_action_rules. intros H.
  apply (MoveEffect initial_cash stock_dict st m st' d q row st1 Hd Hq Hf Hv).
  - now apply advance_date_settles.
  - unfold acts.
    destruct (buy_price_of (action m) row) as [p|].
    + destruct (Qltb (daily_cash st1) (p * BUY_COST_FACTOR * inject_Z q)) eqn:E;
        [discriminate|].
      apply Qltb_ge in E. injection H as <-. split; [exact E|reflexivity].
    + destruct (sell_price_of (action m) row); now injection H as <-.
Qed.

(** An accepted move sets the current date and moves the balance by its
    revenue less its cost. *)
Lemma move_effect_total (st : vstate) (m : Move) (st' : vstate) :
  move_effect initial_cash stock_dict st m st' ->
  current_date st' <> None /\
  settled_total initial_cash st' ==
    settled_total initial_cash st - move_cost stock_dict m + move_revenue stock_dict m.
Proof.
  intros [d q row st1 Hd Hq Hf Hv Hs Ha].
  unfold move_cost, move_revenue. rewrite Hd, Hq, Hf.
  assert (H1 : current_date st1 = Some d /\
               daily_cash st1 + daily_revenue st1 == settled_total initial_cash st).
  { unfold settles, settled_total in *. destruct (current_date st) as [cur|] eqn:Ec.
    - destruct Hs as [(_ & ->)|(-> & ->)]; simpl.
      + split; [reflexivity|ring].
      + split; [exact Ec|reflexivity].
    - subst st1. simpl. split; [reflexivity|ring]. }
  destruct H1 as (Hc1 & Ht1). unfold acts in Ha.
  destruct (buy_price_of (action m) row) as [p|].
  - destruct Ha as (_ & ->). unfold settled_total. simpl. rewrite Hc1.
    split; [discriminate|]. rewrite <- Ht1. ring.
  - destruct (sell_price_of (action m) row) as [p|]; subst st';
      unfold settled_total; simpl; rewrite Hc1; (split; [discriminate|]);
      rewrite <- Ht1; ring.
Qed.

(** A completed validation ends at the initial balance, less the costs of
    its buys, plus the revenues of its sells. *)
Lemma validate_loop_total (moves : list Move) :
  forall st st',
    validate_loop initial_cash stock_dict st moves = Some st' ->
    settled_total initial_cash st' ==
      settled_total initial_cash st
      - total_cost stock_dict moves + total_revenue stock_dict moves /\
    (moves <> [] -> current_date st' <> None).
Proof.
  induction moves as [|m moves IH]; intros st st' H; simpl in H.
  - injection H as <-. simpl. split; [ring|congruence].
  - destruct (validate_move initial_cash stock_dict st m) as [st1|] eqn:Hm;
      [|discriminate].
    apply validate_move_effect, move_effect_total in Hm as (Hc1 & Ht1).
    destruct (IH _ _ H) as (Ht & Hc).
    split.
    + rewrite Ht, Ht1. simpl. ring.
    + intros _. destruct moves as [|m' moves'].
      * simpl in H. injection H as <-. exact Hc1.
      * apply Hc. discriminate.
Qed.


End ValidatorFacts.

(** ** The trades of the simple strategy *)

Section GreedyTrades.

Local Open Scope Q_scope.

Lemma last_cons_default {A : Type} (a d : A) (l : list A) :
  List.last (a :: l) d = List.last l a.
Proof.
  revert a d. induction l as [|b l IH]; intros a d; [reflexivity|].
  change (List.last (a :: b :: l) d) with (List.last (b :: l) d).
  now rewrite (IH b d), (IH b a).
Qed.

(** The result of the simple strategy, read off its trades. *)
Lemma greedy_fuel_trades (fuel : nat) :
  forall (df : list Bar) (cash : Q) (moves : list Move) (r : Q * list Move),
    greedy_fuel fuel df cash moves = Some r ->
    r = (List.last (map cash_after (greedy_trades fuel df cash)) cash,
         moves ++ flat_map trade_moves (greedy_trades fuel df cash)).
Proof.
  induction fuel as [|fuel IH]; intros df cash moves r H; [discriminate|].
  rewrite greedy_fuel_step in H. cbn [greedy_trades].
  destruct (choose cash (affordable cash df)) as [c|].
  2:{ injection H as <-. simpl. now rewrite app_nil_r. }
  destruct (Qle_bool (best_profit c) 0).
  { injection H as <-. simpl. now rewrite app_nil_r. }
  apply IH in H. rewrite H. cbn [map flat_map]. rewrite last_cons_default.
  f_equal. unfold trade_moves at 2. cbn [cash_before trade_choice].
  now rewrite <- app_assoc.
Qed.

(** Every trade starts from the balance of the previous one, is executed on
    a row of the frame, gains, and is dated after the previous one. *)
Lemma greedy_trades_facts (fuel : nat) :
  forall (df : list Bar) (cash : Q),
    cleaned df ->
    linked cash (greedy_trades fuel df cash) /\
    Forall (fun t => In (chosen_row (trade_choice t)) df /\
                     cash_before t < cash_after t)
           (greedy_trades fuel df cash) /\
    StronglySorted date_lt (map trade_date (greedy_trades fuel df cash)).
Proof.
  induction fuel as [|fuel IH]; intros df cash Hcl; cbn [greedy_trades].
  { repeat split; constructor. }
  destruct (choose cash (affordable cash df)) as [c|] eqn:Hc.
  2:{ repeat split; constructor. }
  destruct (Qle_bool (best_profit c) 0) eqn:Hp.
  { repeat split; constructor. }
  apply Qle_bool_gt in Hp.
  pose proof (chosen_executed _ _ _ Hcl Hc Hp) as Hex.
  destruct (chosen_row_cleaned _ _ _ Hcl Hc) as (Hin & _).
  destruct (IH (later_rows (chosen_row c) (affordable cash df))
               (cash - chosen_cost cash c + chosen_revenue cash c))
    as (Hl & Hf & Hs).
  { apply cleaned_later, cleaned_affordable, Hcl. }
  assert (Hsub : forall r, In r (later_rows (chosen_row c) (affordable cash df)) ->
                           In r df /\ date_lt (Date (chosen_row c)) (Date r)).
  { intros r Hr. apply later_rows_in in Hr as (Hr & Hd).
    apply affordable_in in Hr as (Hr & _). tauto. }
  split; [|split].
  - simpl. split; [reflexivity|exact Hl].
  - constructor.
    + cbn [trade_choice cash_before cash_after]. split; [exact Hin|].
      pose proof (ex_profit _ _ Hex). lra.
    + eapply List.Forall_impl; [|exact Hf].
      intros t (Ht & Hg). split; [now apply Hsub|exact Hg].
  - cbn [map]. constructor; [exact Hs|].
    rewrite Forall_map. eapply List.Forall_impl; [|exact Hf].
    intros t (Ht & _). unfold trade_date at 1. cbn [trade_choice].
    now apply Hsub.
Qed.

Lemma linked_increasing (trades : list trade) :
  forall start,
    linked start trades ->
    Forall (fun t => cash_before t < cash_after t) trades ->
    StronglySorted Qle (start :: map cash_after trades).
Proof.
  induction trades as [|t trades IH]; intros start Hl Hf.
  { repeat constructor. }
  destruct Hl as (Hb & Hl). inversion Hf as [|? ? Hg Hf']; subst.
  specialize (IH _ Hl Hf'). cbn [map].
  constructor; [exact IH|].
  apply StronglySorted_inv in IH as (_ & Hall).
  constructor; [lra|].
  eapply List.Forall_impl; [|exact Hall]. intros x Hx. simpl in Hx. lra.
Qed.

End GreedyTrades.

(** ** A corrective call, seen from outside *)

Section CorrectiveFacts.

Local Open Scope Q_scope.

Lemma Q_ge_ext_false (x : Q) (e : ext Q) :
  Q_ge_ext x e = false <-> Q_lt_ext x e.
Proof.
  destruct e as [|a|]; simpl.
  - split; [discriminate|tauto].
  - apply Qle_bool_gt.
  - split; [exact (fun _ => I)|reflexivity].
Qed.

Lemma extra_greedy_result (df : list Bar) (cash : Q) (moves : list Move)
    (past : bool) (mx : ext Z) (mn : ext Q) :
  extra_greedy_fuel (S (length df)) df cash moves past mx mn =
  Some (extra_greedy_trading_recursive df cash (Some moves) past mx mn).
Proof.
  unfold extra_greedy_trading_recursive.
  destruct (extra_greedy_fuel_total (S (length df)) df cash moves past mx mn
              ltac:(lia)) as [r ->].
  reflexivity.
Qed.

(** An exhausted budget ends a corrective call at once. *)
Lemma corrective_budget_exhausted (df : list Bar) (cash : Q) (moves : list Move)
    (mx : ext Z) (mn : ext Q) :
  Z_ge_ext (pairs moves) mx = true ->
  extra_greedy_trading_recursive df cash (Some moves) true mx mn = (cash, moves).
Proof.
  intros H. pose proof (extra_greedy_result df cash moves true mx mn) as E.
  rewrite extra_greedy_fuel_step, H in E. simpl in E. now injection E.
Qed.

(** A corrective call whose best profit is below the threshold returns its
    arguments. *)
Lemma corrective_rejected (df : list Bar) (cash : Q) (moves : list Move)
    (mx : ext Z) (mn : ext Q) (c : choice) :
  choose cash (affordable cash df) = Some c ->
  Q_lt_ext (best_profit c) mn ->
  extra_greedy_trading_recursive df cash (Some moves) true mx mn = (cash, moves).
Proof.
  intros Hc Hlt. apply Q_ge_ext_false in Hlt.
  pose proof (extra_greedy_result df cash moves true mx mn) as E.
  rewrite extra_greedy_fuel_step, Hc, Hlt in E.
  destruct (true && Z_ge_ext (pairs moves) mx); [now injection E|].
  destruct (Qle_bool (best_profit c) 0); now injection E.
Qed.

(** A call that changes the move list executed its selection: the profit
    was positive and admitted, and the pair of the selection follows the
    in-between moves. *)
Lemma extra_greedy_executed (df : list Bar) (cash : Q) (moves : list Move)
    (past : bool) (mx : ext Z) (mn : ext Q) (c : choice) :
  choose cash (affordable cash df) = Some c ->
  snd (extra_greedy_trading_recursive df cash (Some moves) past mx mn) <> moves ->
  0 < best_profit c /\
  (negb past || Q_ge_ext (best_profit c) mn = true) /\
  exists in_between rest,
    snd (extra_greedy_trading_recursive df cash (Some moves) past mx mn) =
    moves ++ in_between ++ chosen_moves cash c ++ rest.
Proof.
  intros Hc Hne.
  pose proof (extra_greedy_result df cash moves past mx mn) as E.
  destruct (extra_greedy_trading_recursive df cash (Some moves) past mx mn)
    as [cash' moves']. cbn [snd] in *.
  rewrite extra_greedy_fuel_step, Hc in E.
  destruct (past && Z_ge_ext (pairs moves) mx); [injection E as _ E; congruence|].
  destruct (Qle_bool (best_profit c) 0) eqn:Hp; [injection E as _ E; congruence|].
  apply Qle_bool_gt in Hp.
  destruct (negb past || Q_ge_ext (best_profit c) mn) eqn:Hg;
    [|injection E as _ E; congruence].
  destruct (extra_greedy_fuel (length df) _ _ [] true _ mn) as [[cash1 ib]|] eqn:En;
    [|discriminate].
  apply extra_greedy_fuel_run, eg_run_budget in E as (_ & _ & (rest & -> & _) & _).
  split; [exact Hp|]. split; [reflexivity|].
  exists ib, rest. now rewrite <- !app_assoc.
Qed.

End CorrectiveFacts.

(** ** The date the validator stands on *)

Section ValidatorDates.

Local Open Scope Q_scope.

(** After an accepted move the current date is the date of that move. *)
Lemma validate_move_date (initial_cash : Q) (stock_dict : gmap string (list Bar))
    (st : vstate) (m : Move) (st' : vstate) (d : date) :
  validate_move initial_cash stock_dict st m = Some st' ->
  parse_date (date_str m) = Some d ->
  current_date st' = Some d.
Proof.
  intros H Hd. apply validate_move_effect in H.
  destruct H as [d' q row st1 Hd' Hq Hf Hv Hs Ha].
  rewrite Hd in Hd'. injection Hd' as <-.
  assert (H1 : current_date st1 = Some d).
  { unfold settles in Hs. destruct (current_date st) as [cur|] eqn:Ec.
    - destruct Hs as [(_ & ->)|(-> & ->)]; [reflexivity|exact Ec].
    - subst st1. reflexivity. }
  unfold acts in Ha.
  destruct (buy_price_of (action m) row) as [p|].
  - destruct Ha as (_ & ->). exact H1.
  - destruct (sell_price_of (action m) row) as [p|]; subst st'; exact H1.
Qed.

End ValidatorDates.

(** ** Scenarios that trade nothing *)

Section EngineFacts.

Local Open Scope Q_scope.

Lemma extra_greedy_no_moves (df : list Bar) (cash : Q) (mx : ext Z) (mn : ext Q) :
  snd (extra_greedy_trading_recursive df cash (Some []) false mx mn) = [] ->
  fst (extra_greedy_trading_recursive df cash (Some []) false mx mn) = cash.
Proof.
  pose proof (extra_greedy_run df cash [] false mx mn) as Hrun.
  intros H. exact (eg_run_no_moves _ _ _ _ _ _ _ _ Hrun H).
Qed.

Lemma greedy_no_moves (df : list Bar) (cash : Q) :
  snd (greedy_trading_recursive df cash (Some [])) = [] ->
  fst (greedy_trading_recursive df cash (Some [])) = cash.
Proof.
  rewrite (greedy_as_extra df cash (Some []) NegInf). apply extra_greedy_no_moves.
Qed.

Lemma small_years_no_moves (df : list Bar) (years : list nat) :
  forall acc,
    all_moves (fold_left (small_year df) years acc) = [] ->
    all_moves acc = [] /\
    ledger_cash (fold_left (small_year df) years acc) = ledger_cash acc.
Proof.
  induction years as [|yr years IH]; intros acc H; simpl in *; [tauto|].
  apply IH in H as (Hm & Hc). rewrite Hc. clear Hc IH.
  unfold small_year in *.
  pose proof (greedy_no_moves
                (List.filter (fun r => (year_of r =? yr)%nat) df) (ledger_cash acc)) as G.
  destruct (greedy_trading_recursive _ (ledger_cash acc) (Some [])) as [cash moves].
  cbn [all_moves ledger_cash fst snd] in *.
  apply app_eq_nil in Hm as (Ha & Hn). split; [exact Ha|]. now apply G.
Qed.

Lemma large_months_no_moves (df : list Bar) (base : option Q) (yr max_year : nat)
    (months : list nat) :
  forall acc,
    snd (fold_left (large_month df base yr max_year) months acc) = [] ->
    snd acc = [] /\
    fst (fold_left (large_month df base yr max_year) months acc) = fst acc.
Proof.
  induction months as [|mo months IH]; intros acc H; simpl in *; [tauto|].
  apply IH in H as (Hm & Hc). rewrite Hc. clear Hc IH.
  unfold large_month in *.
  destruct (List.filter _ df) as [|r0 rest]; [tauto|].
  pose proof (extra_greedy_no_moves (r0 :: rest) (fst acc)
                (dynamic_max_pairs base yr max_year)
                (dynamic_minimum_profit (fst acc))) as G.
  destruct (extra_greedy_trading_recursive _ (fst acc) (Some []) false _ _)
    as [cash moves].
  cbn [fst snd] in *.
  apply app_eq_nil in Hm as (Ha & Hn). split; [exact Ha|]. now apply G.
Qed.

Lemma large_years_no_moves (df : list Bar) (base : option Q) (months : list nat)
    (max_year : nat) (years : list nat) :
  forall acc,
    all_moves (fold_left (large_year df base months max_year) years acc) = [] ->
    all_moves acc = [] /\
    ledger_cash (fold_left (large_year df base months max_year) years acc)
    = ledger_cash acc.
Proof.
  induction years as [|yr years IH]; intros acc H; simpl in *; [tauto|].
  apply IH in H as (Hm & Hc). rewrite Hc. clear Hc IH.
  unfold large_year in *.
  pose proof (large_months_no_moves df base yr max_year months
                (ledger_cash acc, all_moves acc)) as G.
  destruct (fold_left _ months (ledger_cash acc, all_moves acc)) as [cash moves].
  cbn [all_moves ledger_cash fst snd] in *. now apply G.
Qed.

(** A scenario that records no move ends with the cash it started with. *)
Lemma run_small_no_moves (df : list Bar) (initial_cash : Q) :
  all_moves (run_small_scenario df initial_cash) = [] ->
  ledger_cash (run_small_scenario df initial_cash) = initial_cash.
Proof.
  unfold run_small_scenario. intros H.
  now apply small_years_no_moves in H as (_ & ->).
Qed.

Lemma run_large_no_moves (df : list Bar) (initial_cash : Q) (base : option Q) :
  all_moves (run_large_scenario df initial_cash base) = [] ->
  ledger_cash (run_large_scenario df initial_cash base) = initial_cash.
Proof.
  unfold run_large_scenario. intros H.
  now apply large_years_no_moves in H as (_ & ->).
Qed.

(** With no moves to replay, the check of [main] fails from one cent on. *)
Lemma no_moves_status (initial_cash : Q) (stock_dict : gmap string (list Bar)) :
  1 # 100 <= initial_cash ->
  validation_success initial_cash (validate_moves initial_cash [] stock_dict) = false.
Proof.
  intros Hc. unfold validation_success.
  change (validate_moves initial_cash [] stock_dict) with (0 + 0).
  apply andb_false_intro2. apply Qltb_ge.
  rewrite Qabs_pos; lra.
Qed.

End EngineFacts.

(** ** The trades behind the output of the lookback strategy *)

Section RunTrades.

Local Open Scope Q_scope.

Lemma chosen_moves_paired (cash : Q) (c : choice) (rest : list Move) :
  paired rest -> paired (chosen_moves cash c ++ rest).
Proof.
  intros H. unfold chosen_moves. cbn [app].
  apply paired_cons; cbn [date_str stock quantity_str action]; try reflexivity;
    [|exact H].
  unfold buy_action, sell_action. destruct (open_variant c); auto.
Qed.

Lemma paired_app (l1 l2 : list Move) : paired l1 -> paired l2 -> paired (l1 ++ l2).
Proof.
  induction 1 as [|b s rest Hd Hs Hq Ha Hrest IH]; intros H2; [exact H2|].
  cbn [app]. apply paired_cons; auto.
Qed.

Lemma paired_even (l : list Move) : paired l -> Nat.Even (length l).
Proof.
  induction 1 as [|b s rest Hd Hs Hq Ha Hrest [k IH]]; [exists 0%nat; reflexivity|].
  exists (S k). simpl. lia.
Qed.

(** Rows selected by a date bound and rows selected by the opposite bound
    leave out the chosen row. *)
Lemma filter_snd_labelled (f : Bar -> bool) (df : list Bar) :
  List.filter f df = map snd (List.filter (fun ir => f (snd ir)) (labelled df)).
Proof.
  unfold labelled. generalize 0%nat as k.
  induction df as [|r df IH]; intros k; [reflexivity|].
  cbn [length seq combine List.filter snd].
  destruct (f r); cbn [map snd]; now rewrite <- IH.
Qed.

Lemma filter_disjoint_length {A : Type} (p q : A -> bool) (l : list A) (x : A) :
  (forall y, p y = true -> q y = false) ->
  In x l -> p x = false -> q x = false ->
  (length (List.filter p l) + length (List.filter q l) < length l)%nat.
Proof.
  intros Hpq. induction l as [|y l IH]; [intros []|].
  intros Hin Hp Hq. cbn [List.filter length].
  assert (Hle : (length (List.filter p l) + length (List.filter q l) <= length l)%nat).
  { clear IH Hin. induction l as [|z l IHl]; [simpl; lia|].
    cbn [List.filter length]. destruct (p z) eqn:Ez.
    - rewrite (Hpq _ Ez). simpl. lia.
    - destruct (q z); simpl; lia. }
  destruct Hin as [->|Hin].
  - rewrite Hp, Hq. lia.
  - specialize (IH Hin Hp Hq). destruct (p y) eqn:Ey.
    + rewrite (Hpq _ Ey). simpl. lia.
    + destruct (q y); simpl; lia.
Qed.

Lemma filter_filter_andb {A : Type} (p q : A -> bool) (l : list A) :
  List.filter q (List.filter p l) = List.filter (fun x => p x && q x) l.
Proof.
  induction l as [|x l IH]; [reflexivity|].
  cbn [List.filter]. destruct (p x); cbn [andb List.filter].
  - destruct (q x); now rewrite IH.
  - exact IH.
Qed.

Lemma split_rows_length (row : Bar) (idx : nat) (df : list Bar) :
  nth_error df idx = Some row ->
  (length (earlier_rows row idx df) + length (later_rows row df) < length df)%nat.
Proof.
  intros H. unfold later_rows. rewrite filter_snd_labelled.
  unfold earlier_rows, drop_label. rewrite !length_map.
  assert (Hl : length (labelled df) = length df).
  { unfold labelled. rewrite length_combine, length_seq. lia. }
  rewrite <- Hl.
  rewrite filter_filter_andb.
  apply (filter_disjoint_length _ _ _ (idx, row)).
  - intros [i r] Hp. cbn [fst snd] in *. apply andb_prop in Hp as (Hp & _).
    rewrite date_leb_ltb in Hp. apply negb_true_iff in Hp. exact Hp.
  - now apply labelled_in.
  - cbn [fst snd]. rewrite Nat.eqb_refl. apply andb_false_r.
  - cbn [snd]. apply date_ltb_irrefl.
Qed.

(** The moves a call appends are the pairs of a sequence of selections on
    rows of the frame, in date order, no more of them than rows. *)
Lemma eg_run_trades df cash moves past mx mn cash' moves' :
  eg_run df cash moves past mx mn cash' moves' ->
  exists ts : list (Q * choice),
    moves' = moves ++ flat_map (fun t => chosen_moves (fst t) (snd t)) ts /\
    Forall (fun t => In (chosen_row (snd t)) df) ts /\
    StronglySorted date_le (map (fun t => Date (chosen_row (snd t))) ts) /\
    (length ts <= length df)%nat.
Proof.
  induction 1 as
    [ df cash moves mx mn Hb
    | df cash moves past mx mn Hb Hc
    | df cash moves past mx mn c Hb Hc Hp
    | df cash moves mx mn c Hb Hc Hp Hr
    | df cash moves past mx mn c cash1 ib cash' moves' Hb Hc Hp Hg
        Hnested IHn Hcont IHc ];
    try (exists []; rewrite app_nil_r; repeat split; try constructor; simpl; lia).
  destruct IHn as (ts1 & E1 & F1 & S1 & L1).
  destruct IHc as (ts2 & E2 & F2 & S2 & L2).
  simpl in E1. subst ib.
  pose proof Hc as (Hnth & _)%choose_spec.
  pose proof Hc as Hin%choose_in.
  assert (Hsub_e : forall r, In r (earlier_rows (chosen_row c) (best_profit_idx c)
                                     (affordable cash df)) ->
                             In r df /\ date_le (Date r) (Date (chosen_row c))).
  { intros r Hr. apply earlier_rows_in in Hr as (Hr & Hd).
    apply affordable_in in Hr as (Hr & _). tauto. }
  assert (Hsub_l : forall r, In r (later_rows (chosen_row c) (affordable cash df)) ->
                             In r df /\ date_le (Date (chosen_row c)) (Date r)).
  { intros r Hr. apply later_rows_in in Hr as (Hr & Hd).
    apply affordable_in in Hr as (Hr & _). split; [exact Hr|].
    now apply date_ltb_leb. }
  exists (ts1 ++ (cash, c) :: ts2).
  split; [|split; [|split]].
  - rewrite E2, flat_map_app. cbn [flat_map fst snd]. now rewrite <- !app_assoc.
  - rewrite List.Forall_app. split; [|constructor].
    + eapply List.Forall_impl; [|exact F1]. intros t Ht. now apply Hsub_e.
    + cbn [snd]. now apply affordable_in in Hin as (Hin & _).
    + eapply List.Forall_impl; [|exact F2]. intros t Ht. now apply Hsub_l.
  - rewrite map_app. cbn [map snd].
    assert (B1 : Forall (fun d => date_le d (Date (chosen_row c)))
                   (map (fun t => Date (chosen_row (snd t))) ts1)).
    { rewrite Forall_map. eapply List.Forall_impl; [|exact F1].
      intros t Ht. now apply Hsub_e. }
    assert (B2 : Forall (fun d => date_le (Date (chosen_row c)) d)
                   (map (fun t => Date (chosen_row (snd t))) ts2)).
    { rewrite Forall_map. eapply List.Forall_impl; [|exact F2].
      intros t Ht. now apply Hsub_l. }
    clear -S1 S2 B1 B2.
    induction (map (fun t => Date (chosen_row (snd t))) ts1) as [|d l IH].
    + simpl. constructor; assumption.
    + apply StronglySorted_inv in S1 as (S1 & A1).
      inversion B1 as [|? ? Hd B1']; subst.
      cbn [app]. constructor; [now apply IH|].
      rewrite List.Forall_app. split; [exact A1|].
      constructor; [exact Hd|].
      eapply List.Forall_impl; [|exact B2]. intros x Hx.
      unfold date_le in *. eapply date_leb_trans; eassumption.
  - pose proof (split_rows_length _ _ _ Hnth).
    pose proof (affordable_length cash df).
    rewrite length_app. simpl. lia.
Qed.

End RunTrades.

(** ** Gains, prefixes and small budgets *)

Section RunGain.

Local Open Scope Q_scope.

(** On cleaned data a call never lowers the cash, and raises it as soon as
    it appends a move. *)
Lemma eg_run_gain df cash moves past mx mn cash' moves' :
  eg_run df cash moves past mx mn cash' moves' ->
  cleaned df ->
  cash <= cash' /\ (moves' <> moves -> cash < cash').
Proof.
  induction 1 as
    [ df cash moves mx mn Hb
    | df cash moves past mx mn Hb Hc
    | df cash moves past mx mn c Hb Hc Hp
    | df cash moves mx mn c Hb Hc Hp Hr
    | df cash moves past mx mn c cash1 ib cash' moves' Hb Hc Hp Hg
        Hnested IHn Hcont IHc ];
    intros Hcl; try (split; [lra|congruence]).
  pose proof (chosen_executed _ _ _ Hcl Hc Hp) as Hex.
  destruct IHn as (G1 & _).
  { apply cleaned_earlier, cleaned_affordable, Hcl. }
  destruct IHc as (G2 & _).
  { apply cleaned_later, cleaned_affordable, Hcl. }
  pose proof (ex_profit _ _ Hex). pose proof (ex_profit_pos _ _ Hex).
  split; [lra|intros _; lra].
Qed.

(** A forward call treats the moves it is given as a prefix only. *)
Lemma extra_greedy_fuel_prefix (fuel : nat) :
  forall (df : list Bar) (cash : Q) (moves : list Move) (mx : ext Z) (mn : ext Q),
    extra_greedy_fuel fuel df cash moves false mx mn =
    option_map (fun r => (fst r, moves ++ snd r))
      (extra_greedy_fuel fuel df cash [] false mx mn).
Proof.
  induction fuel as [|fuel IH]; intros df cash moves mx mn; [reflexivity|].
  rewrite !extra_greedy_fuel_step. cbn [andb negb orb].
  destruct (choose cash (affordable cash df)) as [c|];
    [|cbn; now rewrite app_nil_r].
  destruct (Qle_bool (best_profit c) 0); [cbn; now rewrite app_nil_r|].
  destruct (extra_greedy_fuel fuel _ _ [] true _ mn) as [[cash1 ib]|];
    [|reflexivity].
  rewrite (IH _ _ ((moves ++ ib) ++ chosen_moves cash c)).
  rewrite (IH _ _ (([] ++ ib) ++ chosen_moves cash c)).
  destruct (extra_greedy_fuel fuel _ _ [] false mx mn) as [[cash2 new]|];
    [|reflexivity].
  cbn. now rewrite <- !app_assoc.
Qed.

(** With a budget of at most one pair no corrective sub-search trades:
    the forward search is the simple strategy. *)
Lemma extra_greedy_fuel_small_budget (mx : ext Z) (fuel : nat) :
  Z_ge_ext 1 mx = true ->
  forall (df : list Bar) (cash : Q) (moves : list Move) (mn : ext Q),
    extra_greedy_fuel fuel df cash moves false mx mn =
    greedy_fuel fuel df cash moves.
Proof.
  intros Hmx.
  assert (Hc : forall f df cash mn,
             extra_greedy_fuel (S f) df cash [] true (ext_sub mx 1) mn
             = Some (cash, [])).
  { intros f df cash mn. rewrite extra_greedy_fuel_step.
    assert (E : Z_ge_ext (pairs []) (ext_sub mx 1) = true).
    { change (pairs []) with 0%Z.
      destruct mx as [|b|]; cbn [ext_sub Z_ge_ext] in *; [reflexivity| |discriminate].
      apply Z.leb_le in Hmx. apply Z.leb_le. lia. }
    now rewrite E. }
  induction fuel as [|fuel IH]; intros df cash moves mn; [reflexivity|].
  rewrite extra_greedy_fuel_step, greedy_fuel_step. cbn [andb negb orb].
  destruct (choose cash (affordable cash df)) as [c|]; [|reflexivity].
  destruct (Qle_bool (best_profit c) 0); [reflexivity|].
  destruct fuel as [|fuel]; [reflexivity|].
  rewrite Hc, app_nil_r. apply IH.
Qed.

End RunGain.

(** ** Dates of the appended pairs *)

Section RunDates.

Local Open Scope Q_scope.

Lemma flat_map_pairs_length (ts : list (Q * choice)) :
  length (flat_map (fun t => chosen_moves (fst t) (snd t)) ts) = (2 * length ts)%nat.
Proof. induction ts as [|t ts IH]; simpl; lia. Qed.

Lemma flat_map_pairs_paired (ts : list (Q * choice)) :
  paired (flat_map (fun t => chosen_moves (fst t) (snd t)) ts).
Proof.
  induction ts as [|t ts IH]; [constructor|].
  cbn [flat_map]. now apply chosen_moves_paired.
Qed.

Lemma twice_sorted (ds : list date) :
  StronglySorted date_le ds ->
  StronglySorted date_le (flat_map (fun d => [d; d]) ds).
Proof.
  induction 1 as [|d ds Hs IH Hall]; [constructor|].
  cbn [flat_map app].
  assert (Hall2 : Forall (date_le d) (flat_map (fun d => [d; d]) ds)).
  { clear -Hall. induction Hall as [|x l Hx Hl IH]; [constructor|].
    cbn [flat_map app]. repeat constructor; assumption. }
  constructor.
  - constructor; [exact IH|exact Hall2].
  - constructor; [apply date_leb_refl|exact Hall2].
Qed.

Lemma flat_map_pairs_dated (df : list Bar) (ts : list (Q * choice)) :
  Forall (fun r => valid_date (Date r)) df ->
  Forall (fun t => In (chosen_row (snd t)) df) ts ->
  dated (flat_map (fun t => chosen_moves (fst t) (snd t)) ts)
        (flat_map (fun d => [d; d]) (map (fun t => Date (chosen_row (snd t))) ts)).
Proof.
  intros Hv. rewrite List.Forall_forall in Hv.
  induction 1 as [|t ts Ht Hts IH]; [reflexivity|].
  unfold dated in *. cbn [flat_map map app chosen_moves date_str].
  rewrite (parse_format_date _ (Hv _ Ht)). now rewrite IH.
Qed.

End RunDates.

(** ** What an accepted move list looks like *)

Section AcceptedFacts.

Local Open Scope Q_scope.

Variable initial_cash : Q.
Variable stock_dict : gmap string (list Bar).

Lemma move_effect_not_after (st : vstate) (m : Move) (st' : vstate) (d : date) :
  move_effect initial_cash stock_dict st m st' ->
  parse_date (date_str m) = Some d ->
  not_after st d.
Proof.
  intros [d' q row st1 Hd' Hq Hf Hv Hs Ha] Hd.
  rewrite Hd in Hd'. injection Hd' as <-.
  unfold settles, not_after in *. destruct (current_date st) as [cur|]; [|exact I].
  destruct Hs as [(Hlt & _)|(-> & _)]; [now apply date_ltb_leb|apply date_leb_refl].
Qed.

(** The dates of an accepted list parse, never decrease, and start at or
    after the date the validator stood on. *)
Lemma validate_loop_dated (moves : list Move) :
  forall st st',
    validate_loop initial_cash stock_dict st moves = Some st' ->
    exists ds,
      dated moves ds /\ StronglySorted date_le ds /\ Forall (not_after st) ds.
Proof.
  induction moves as [|m moves IH]; intros st st' H.
  { exists []. repeat split; constructor. }
  cbn [validate_loop] in H.
  destruct (validate_move initial_cash stock_dict st m) as [st1|] eqn:Hm; [|discriminate].
  pose proof (validate_move_effect _ _ _ _ _ Hm) as Heff.
  destruct Heff as [d q row st0 Hd Hq Hf Hv Hs Ha] eqn:Eeff. clear Eeff.
  pose proof (validate_move_date _ _ _ _ _ _ Hm Hd) as Hcur.
  pose proof (move_effect_not_after _ _ _ _ (validate_move_effect _ _ _ _ _ Hm) Hd) as Hna.
  destruct (IH _ _ H) as (ds & Hds & Hsorted & Hall).
  assert (Hd_le : Forall (date_le d) ds).
  { eapply List.Forall_impl; [|exact Hall]. intros x Hx.
    unfold not_after in Hx. now rewrite Hcur in Hx. }
  exists (d :: ds). split; [|split].
  - unfold dated in *. cbn [map]. now rewrite Hd, Hds.
  - constructor; assumption.
  - constructor; [exact Hna|].
    eapply List.Forall_impl; [|exact Hd_le]. intros x Hx.
    unfold not_after in *. destruct (current_date st) as [cur|]; [|exact I].
    eapply date_leb_trans; eassumption.
Qed.

(** With non-negative sale prices and quantities, cash and revenue stay
    non-negative. *)
Lemma validate_loop_nonneg (moves : list Move) :
  0 <= initial_cash ->
  (forall sym d row, find_row stock_dict sym d = Some row ->
                     0 <= Close row /\ 0 <= High row) ->
  Forall (fun m => forall q, parse_int (quantity_str m) = Some q -> (0 <= q)%Z) moves ->
  forall st st',
    0 <= daily_cash st -> 0 <= daily_revenue st ->
    validate_loop initial_cash stock_dict st moves = Some st' ->
    0 <= daily_cash st' /\ 0 <= daily_revenue st'.
Proof.
  intros Hinit Hprice. induction 1 as [|m moves Hm Hall IH]; intros st st' Hc Hr H.
  { injection H as <-. tauto. }
  cbn [validate_loop] in H.
  destruct (validate_move initial_cash stock_dict st m) as [st1|] eqn:E; [|discriminate].
  apply validate_move_effect in E. destruct E as [d q row st0 Hd Hq Hf Hv Hs Ha].
  specialize (Hm _ Hq). destruct (Hprice _ _ _ Hf) as (HC & HH).
  assert (H0 : 0 <= daily_cash st0 /\ 0 <= daily_revenue st0).
  { unfold settles in Hs. destruct (current_date st) as [cur|].
    - destruct Hs as [(_ & ->)|(_ & ->)]; simpl; split; lra.
    - subst st0. simpl. split; lra. }
  destruct H0 as (Hc0 & Hr0).
  assert (Hq0 : 0 <= inject_Z q) by (apply (proj1 (inject_Z_le 0 q)); exact Hm).
  pose proof SELL_REVENUE_FACTOR_pos as Hs0.
  apply (IH st1 st'); [| |exact H]; unfold acts in Ha;
    destruct (buy_price_of (action m) row) as [p|].
  - destruct Ha as (Hle & ->). simpl. lra.
  - unfold sell_price_of in Ha.
    destruct (String.eqb (action m) "sell-close");
      [|destruct (String.eqb (action m) "sell-high")]; subst st1; simpl; lra.
  - destruct Ha as (Hle & ->). simpl. lra.
  - unfold sell_price_of in Ha.
    destruct (String.eqb (action m) "sell-close");
      [|destruct (String.eqb (action m) "sell-high")]; subst st1; simpl; try lra.
    + assert (0 <= Close row * SELL_REVENUE_FACTOR * inject_Z q)
        by (repeat apply Qmult_le_0_compat; lra). lra.
    + assert (0 <= High row * SELL_REVENUE_FACTOR * inject_Z q)
        by (repeat apply Qmult_le_0_compat; lra). lra.
Qed.

Lemma unsupported_prices (act : string) (row : Bar) :
  unsupported act ->
  buy_price_of act row = None /\ sell_price_of act row = None.
Proof.
  unfold unsupported, buy_price_of, sell_price_of. simpl. intros H.
  destruct (String.eqb_spec act "buy-low"); [subst; tauto|].
  destruct (String.eqb_spec act "buy-open"); [subst; tauto|].
  destruct (String.eqb_spec act "sell-close"); [subst; tauto|].
  destruct (String.eqb_spec act "sell-high"); [subst; tauto|].
  split; reflexivity.
Qed.

Lemma unsupported_totals (moves : list Move) :
  Forall (fun m => unsupported (action m)) moves ->
  total_cost stock_dict moves == 0 /\ total_revenue stock_dict moves == 0.
Proof.
  induction 1 as [|m moves Hm Hall (IHc & IHr)]; [split; reflexivity|].
  cbn [total_cost total_revenue fold_right].
  fold (total_cost stock_dict moves). fold (total_revenue stock_dict moves).
  rewrite IHc, IHr. unfold move_cost, move_revenue.
  destruct (parse_date (date_str m)) as [d|]; [|split; reflexivity].
  destruct (parse_int (quantity_str m)) as [q|]; [|split; reflexivity].
  destruct (find_row stock_dict (stock m) d) as [row|]; [|split; reflexivity].
  destruct (unsupported_prices _ row Hm) as (-> & ->). split; reflexivity.
Qed.

(** A frame stored under a symbol, with one row per date, gives back each
    of its rows. *)
Lemma find_row_stored (sym : string) (frame : list Bar) (r : Bar) :
  stock_dict !! sym = Some frame ->
  List.NoDup (map Date frame) ->
  In r frame ->
  find_row stock_dict sym (Date r) = Some r.
Proof.
  intros Hs Hnd Hin. unfold find_row. rewrite Hs. clear Hs.
  induction frame as [|x frame IH]; [destruct Hin|].
  cbn [List.find]. cbn [map] in Hnd. apply List.NoDup_cons_iff in Hnd as (Hx & Hnd).
  destruct Hin as [->|Hin].
  - now rewrite (proj2 (date_eqb_eq _ _) eq_refl).
  - destruct (date_eqb (Date x) (Date r)) eqn:E.
    + apply date_eqb_eq in E. exfalso. apply Hx. rewrite E. now apply in_map.
    + now apply IH.
Qed.

Lemma find_row_found (sym : string) (d : date) (r : Bar) :
  find_row stock_dict sym d = Some r ->
  exists frame, stock_dict !! sym = Some frame /\ In r frame /\ Date r = d.
Proof.
  unfold find_row. destruct (stock_dict !! sym) as [frame|]; [|discriminate].
  intros H. apply find_some in H as (Hin & Hd). apply date_eqb_eq in Hd.
  exists frame. auto.
Qed.

End AcceptedFacts.

(** ** The dynamic parameters of the large scenario *)

Section DynamicFacts.

Local Open Scope Q_scope.

Lemma Qdiv_le_cross (k1 b1 k2 b2 : Q) :
  0 < b1 -> 0 < b2 -> k1 * b2 <= k2 * b1 -> k1 / b1 <= k2 / b2.
Proof.
  intros H1 H2 H. apply Qle_shift_div_l; [exact H2|].
  assert (E : k1 / b1 * b2 == k1 * b2 / b1) by (field; lra).
  rewrite E. apply Qle_shift_div_r; [exact H1|exact H].
Qed.

Lemma Qtruncate_mono (x y : Q) : 0 <= x -> x <= y -> (Qtruncate x <= Qtruncate y)%Z.
Proof.
  intros Hx Hxy. rewrite !Qtruncate_nonneg by lra. now apply Qfloor_resp_le.
Qed.

(** The factor applied to the base budget, by the years that remain. *)
Lemma budget_factor_mono (r1 r2 : Z) :
  (0 <= r2 <= r1)%Z ->
  (if (40 <=? r1)%Z then 1 + 20000 / inject_Z ((r1 + 1) ^ 2)
   else 1 + 15000 / inject_Z (r1 + 1))
  <=
  (if (40 <=? r2)%Z then 1 + 20000 / inject_Z ((r2 + 1) ^ 2)
   else 1 + 15000 / inject_Z (r2 + 1)).
Proof.
  intros (H2 & H12).
  assert (P1 : 0 < inject_Z (r1 + 1)) by (apply (proj1 (inject_Z_lt 0 _)); lia).
  assert (P2 : 0 < inject_Z (r2 + 1)) by (apply (proj1 (inject_Z_lt 0 _)); lia).
  assert (S1 : 0 < inject_Z ((r1 + 1) ^ 2)) by (apply (proj1 (inject_Z_lt 0 _)); nia).
  assert (S2 : 0 < inject_Z ((r2 + 1) ^ 2)) by (apply (proj1 (inject_Z_lt 0 _)); nia).
  destruct (40 <=? r1)%Z eqn:E1; destruct (40 <=? r2)%Z eqn:E2;
    try apply Z.leb_le in E1; try apply Z.leb_gt in E1;
    try apply Z.leb_le in E2; try apply Z.leb_gt in E2;
    try lia; apply Qplus_le_r; apply Qdiv_le_cross; try assumption.
  - rewrite <- (inject_Z_mult 20000), <- (inject_Z_mult 20000).
    apply (proj1 (inject_Z_le _ _)). nia.
  - change 20000 with (inject_Z 20000). change 15000 with (inject_Z 15000).
    rewrite <- !inject_Z_mult. apply (proj1 (inject_Z_le _ _)). nia.
  - change 15000 with (inject_Z 15000).
    rewrite <- !inject_Z_mult. apply (proj1 (inject_Z_le _ _)). nia.
Qed.

Lemma budget_factor_ge_1 (r : Z) :
  (0 <= r)%Z ->
  1 <= (if (40 <=? r)%Z then 1 + 20000 / inject_Z ((r + 1) ^ 2)
        else 1 + 15000 / inject_Z (r + 1)).
Proof.
  intros H.
  assert (P1 : 0 < inject_Z (r + 1)) by (apply (proj1 (inject_Z_lt 0 _)); lia).
  assert (S1 : 0 < inject_Z ((r + 1) ^ 2)) by (apply (proj1 (inject_Z_lt 0 _)); nia).
  destruct (40 <=? r)%Z.
  - assert (0 <= 20000 / inject_Z ((r + 1) ^ 2)) by (apply Qle_shift_div_l; lra). lra.
  - assert (0 <= 15000 / inject_Z (r + 1)) by (apply Qle_shift_div_l; lra). lra.
Qed.

End DynamicFacts.

(** ** The first maximum *)

Section FirstMaximum.

Local Open Scope Q_scope.

(** Positions scanned before the one returned hold strictly smaller values. *)
Lemma argmax_from_first (l : list Q) :
  forall (bi : nat) (b : Q) (i : nat),
    (bi < i)%nat ->
    let r := argmax_from bi b i l in
    let v := if (r =? bi)%nat then b else nth (r - i) l 0 in
    (r <> bi -> b < v) /\
    (forall k x, (i + k < r)%nat -> nth_error l k = Some x -> x < v).
Proof.
  induction l as [|x l IH]; intros bi b i Hbi; cbn [argmax_from]; cbv zeta.
  - split; [congruence|]. intros k y _ H. destruct k; discriminate.
  - destruct (Qltb b x) eqn:E.
    + apply Qltb_lt in E.
      pose proof (IH i x (S i) ltac:(lia)) as H1. cbv zeta in H1.
      destruct H1 as (Hne & Hbefore).
      pose proof (argmax_from_spec l i x (S i) ltac:(lia)) as H2. cbv zeta in H2.
      destruct H2 as (Hr & Hv & _).
      clear IH. set (r := argmax_from i x (S i) l) in *.
      assert (Hrb : (r =? bi)%nat = false) by (apply Nat.eqb_neq; lia).
      rewrite Hrb.
      assert (Ev : nth (r - i) (x :: l) 0 =
                   (if (r =? i)%nat then x else nth (r - S i) l 0)).
      { destruct (Nat.eqb_spec r i) as [Hri|Hri].
        - now rewrite Hri, Nat.sub_diag.
        - replace (r - i)%nat with (S (r - S i)) by lia. reflexivity. }
      rewrite Ev. split; [intros _; lra|].
      intros k y Hk Hy. destruct k as [|k].
      * injection Hy as <-. apply Hne. lia.
      * apply (Hbefore k y); [lia|exact Hy].
    + apply Qltb_ge in E.
      pose proof (IH bi b (S i) ltac:(lia)) as H1. cbv zeta in H1.
      destruct H1 as (Hne & Hbefore).
      pose proof (argmax_from_spec l bi b (S i) ltac:(lia)) as H2. cbv zeta in H2.
      destruct H2 as (Hr & _ & _).
      clear IH. set (r := argmax_from bi b (S i) l) in *.
      destruct (Nat.eqb_spec r bi) as [Hrb|Hrb].
      * split; [congruence|]. intros k y Hk Hy. lia.
      * assert (Ev : nth (r - i) (x :: l) 0 = nth (r - S i) l 0).
        { replace (r - i)%nat with (S (r - S i)) by lia. reflexivity. }
        rewrite Ev. split; [intros _; now apply Hne|].
        intros k y Hk Hy. destruct k as [|k].
        -- injection Hy as <-. specialize (Hne Hrb). lra.
        -- apply (Hbefore k y); [lia|exact Hy].
Qed.

Lemma argmax_first (l : list Q) (j : nat) (x : Q) :
  (j < argmax l)%nat -> nth_error l j = Some x -> x < nth (argmax l) l 0.
Proof.
  destruct l as [|y l]; [simpl; lia|]. unfold argmax. intros Hj Hx.
  pose proof (argmax_from_first l 0%nat y 1%nat ltac:(lia)) as H1. cbv zeta in H1.
  destruct H1 as (Hne & Hbefore).
  set (r := argmax_from 0 y 1 l) in *.
  assert (E : nth r (y :: l) 0 = (if (r =? 0)%nat then y else nth (r - 1) l 0)).
  { destruct r as [|r]; simpl; [reflexivity|]. now rewrite Nat.sub_0_r. }
  rewrite E. destruct j as [|j].
  - injection Hx as <-. apply Hne. lia.
  - apply (Hbefore j x); [lia|exact Hx].
Qed.

(** The selection is the first row of the frame with the best profit. *)
Lemma choose_first (cash : Q) (df : list Bar) (c : choice) (j : nat) (r : Bar) :
  choose cash df = Some c ->
  (j < best_profit_idx c)%nat ->
  nth_error df j = Some r ->
  max_profit_of cash r < best_profit c.
Proof.
  unfold choose. destruct df as [|row0 rest] eqn:Edf; [discriminate|].
  rewrite <- Edf. intros H. injection H as <-. cbn [best_profit_idx best_profit].
  intros Hj Hr. apply (argmax_first _ j); [exact Hj|].
  rewrite nth_error_map, Hr. reflexivity.
Qed.

End FirstMaximum.

(** ** The scenarios against the validator *)

Section PeriodFacts.

Local Open Scope Q_scope.

Lemma date_ltb_year (a b : date) : (year a < year b)%nat -> date_ltb a b = true.
Proof.
  intros H. unfold date_ltb, date_compare.
  apply Nat.compare_lt_iff in H. now rewrite H.
Qed.

Lemma date_ltb_month (a b : date) :
  year a = year b -> (month a < month b)%nat -> date_ltb a b = true.
Proof.
  intros E H. unfold date_ltb, date_compare.
  rewrite E, Nat.compare_refl. apply Nat.compare_lt_iff in H. now rewrite H.
Qed.

Lemma insert_unique_in (x : nat) (l : list nat) (y : nat) :
  In y (insert_unique x l) <-> y = x \/ In y l.
Proof.
  induction l as [|z l IH]; simpl.
  - intuition.
  - destruct (Nat.ltb_spec x z).
    + simpl. intuition.
    + destruct (Nat.eqb_spec x z).
      * subst. simpl. intuition.
      * simpl. rewrite IH. intuition.
Qed.

Lemma insert_unique_sorted (x : nat) (l : list nat) :
  StronglySorted lt l -> StronglySorted lt (insert_unique x l).
Proof.
  induction l as [|z l IH]; intros H; simpl.
  - repeat constructor.
  - inversion H as [|? ? Hs Hf]; subst.
    destruct (Nat.ltb_spec x z).
    + constructor; [exact H|]. constructor; [exact H0|].
      rewrite List.Forall_forall in *. intros y Hy. specialize (Hf y Hy). lia.
    + destruct (Nat.eqb_spec x z); [exact H|].
      constructor; [now apply IH|].
      rewrite List.Forall_forall in *. intros y Hy.
      apply insert_unique_in in Hy as [->|Hy]; [lia|now apply Hf].
Qed.

Lemma sorted_unique_in (l : list nat) (y : nat) :
  In y (sorted_unique l) <-> In y l.
Proof.
  induction l as [|x l IH]; simpl; [tauto|].
  rewrite insert_unique_in, IH. intuition.
Qed.

Lemma sorted_unique_sorted (l : list nat) : StronglySorted lt (sorted_unique l).
Proof.
  induction l as [|x l IH]; simpl; [constructor|].
  now apply insert_unique_sorted.
Qed.

Lemma cleaned_filter (f : Bar -> bool) (df : list Bar) :
  cleaned df -> cleaned (List.filter f df).
Proof.
  unfold cleaned. rewrite !List.Forall_forall. intros H r Hr.
  apply filter_In in Hr as (Hr & _). now apply H.
Qed.

Lemma listed_filter (stock_dict : gmap string (list Bar)) (f : Bar -> bool)
    (df : list Bar) :
  listed stock_dict df -> listed stock_dict (List.filter f df).
Proof.
  apply listed_incl. intros r Hr. now apply filter_In in Hr as (Hr & _).
Qed.

Variable initial_cash : Q.
Variable stock_dict : gmap string (list Bar).

(** One call of the lookback strategy on a period whose rows all lie after
    the settlement date extends the replay. *)
Lemma period_replay (pf : list Bar) (moves : list Move) (cash : Q) (st : vstate)
    (mx : ext Z) (mn : ext Q) :
  cleaned pf -> listed stock_dict pf ->
  replayed initial_cash stock_dict moves cash st ->
  precedes st pf ->
  let r := extra_greedy_trading_recursive pf cash (Some []) false mx mn in
  exists st',
    replayed initial_cash stock_dict (moves ++ snd r) (fst r) st' /\
    cash <= fst r /\
    (st' = st \/ exists row, In row pf /\ current_date st' = Some (Date row)).
Proof.
  intros Hcl Hls (V & Hrev & Ht) Hpre r. subst r.
  pose proof (extra_greedy_run pf cash [] false mx mn) as Hrun.
  destruct (extra_greedy_trading_recursive pf cash (Some []) false mx mn)
    as [cash' moves']. cbn [fst snd] in *.
  destruct (eg_run_replay initial_cash stock_dict _ _ _ _ _ _ _ _ Hrun Hcl Hls)
    as (new & E & Hle & R).
  simpl in E. subst moves'.
  destruct (R st 0) as (st' & V' & Hrev' & Ht' & He & Hn).
  - lra.
  - exact Hrev.
  - intros row Hrow. unfold precedes in Hpre.
    unfold not_after, available, settled_total in *.
    destruct (current_date st) as [d|]; [|split; [exact I|lra]].
    rewrite (Hpre row Hrow). split; [|lra].
    apply date_ltb_leb. now apply Hpre.
  - exists st'. split; [|split; [exact Hle|]].
    + split; [|split; [exact Hrev'|]].
      * now rewrite validate_loop_app, V.
      * rewrite Ht', Ht. ring.
    + destruct new as [|m new]; [left; now apply He|right].
      destruct Hn as (row & Hin & Hcur & _); [discriminate|].
      now exists row.
Qed.

(** The years of the small scenario, folded over the replay. *)
Lemma small_years_replay (df : list Bar) (years : list nat) :
  cleaned df -> listed stock_dict df ->
  StronglySorted lt years ->
  forall acc st,
    replayed initial_cash stock_dict (all_moves acc) (ledger_cash acc) st ->
    (forall y, In y years -> year_before st y) ->
    exists st',
      replayed initial_cash stock_dict
        (all_moves (fold_left (small_year df) years acc))
        (ledger_cash (fold_left (small_year df) years acc)) st' /\
      ledger_cash acc <= ledger_cash (fold_left (small_year df) years acc).
Proof.
  intros Hcl Hls Hs. induction Hs as [|yr years Hs IH Hf]; intros acc st Hr Hy.
  - simpl. exists st. split; [exact Hr|lra].
  - simpl.
    set (pf := List.filter (fun r => (year_of r =? yr)%nat) df).
    assert (Hpre : precedes st pf).
    { unfold precedes. specialize (Hy yr (or_introl eq_refl)).
      unfold year_before in Hy. destruct (current_date st) as [d|]; [|exact I].
      intros r Hr0. apply filter_In in Hr0 as (_ & Hr0).
      apply Nat.eqb_eq in Hr0. apply date_ltb_year. unfold year_of in Hr0. lia. }
    destruct (period_replay pf (all_moves acc) (ledger_cash acc) st (Fin 0%Z) NegInf
                (cleaned_filter _ df Hcl) (listed_filter stock_dict _ df Hls) Hr Hpre)
      as (st1 & Hr1 & Hle & Hd).
    rewrite <- (greedy_as_extra pf (ledger_cash acc) (Some []) NegInf) in Hr1, Hle.
    assert (E : small_year df acc yr =
                mkLedger (fst (greedy_trading_recursive pf (ledger_cash acc) (Some [])))
                  (<[yr := fst (greedy_trading_recursive pf (ledger_cash acc) (Some []))]>
                     (cash_per_year acc))
                  (all_moves acc ++
                   snd (greedy_trading_recursive pf (ledger_cash acc) (Some [])))).
    { unfold small_year. fold pf.
      now destruct (greedy_trading_recursive pf (ledger_cash acc) (Some [])). }
    destruct (IH (small_year df acc yr) st1) as (st' & Hr' & Hle').
    + rewrite E. exact Hr1.
    + intros y Hyin. rewrite List.Forall_forall in Hf. specialize (Hf y Hyin).
      destruct Hd as [->|(row & Hrow & Hcur)].
      * specialize (Hy yr (or_introl eq_refl)). unfold year_before in *.
        destruct (current_date st); [lia|exact I].
      * unfold year_before. rewrite Hcur.
        apply filter_In in Hrow as (_ & Hrow). apply Nat.eqb_eq in Hrow.
        unfold year_of in Hrow. lia.
    + exists st'. split; [exact Hr'|].
      rewrite E in Hle' at 1. cbn [ledger_cash] in Hle'. lra.
Qed.

(** The months of one year of the large scenario, folded over the replay. *)
Lemma large_months_replay (df : list Bar) (base : option Q) (yr max_year : nat)
    (months : list nat) :
  cleaned df -> listed stock_dict df ->
  StronglySorted lt months ->
  forall acc st,
    replayed initial_cash stock_dict (snd acc) (fst acc) st ->
    year_upto st yr ->
    (forall m, In m months -> month_before st yr m) ->
    exists st',
      replayed initial_cash stock_dict
        (snd (fold_left (large_month df base yr max_year) months acc))
        (fst (fold_left (large_month df base yr max_year) months acc)) st' /\
      year_upto st' yr /\
      fst acc <= fst (fold_left (large_month df base yr max_year) months acc).
Proof.
  intros Hcl Hls Hs. induction Hs as [|mo months Hs IH Hf]; intros acc st Hr Hu Hm.
  - simpl. exists st. split; [exact Hr|]. split; [exact Hu|lra].
  - simpl.
    set (pf := List.filter
                 (fun r => (year_of r =? yr)%nat && (month_of r =? mo)%nat) df).
    assert (Hin : forall r, In r pf -> year (Date r) = yr /\ month (Date r) = mo).
    { intros r Hr0. apply filter_In in Hr0 as (_ & Hr0).
      apply andb_true_iff in Hr0 as (H1 & H2).
      apply Nat.eqb_eq in H1, H2. now split. }
    assert (Hpre : precedes st pf).
    { unfold precedes. specialize (Hm mo (or_introl eq_refl)).
      unfold month_before in Hm. destruct (current_date st) as [d|]; [|exact I].
      intros r Hr0. destruct (Hin r Hr0) as (H1 & H2).
      destruct Hm as [Hm|(Hm1 & Hm2)].
      - apply date_ltb_year. lia.
      - apply date_ltb_month; lia. }
    destruct (period_replay pf (snd acc) (fst acc) st
                (dynamic_max_pairs base yr max_year)
                (dynamic_minimum_profit (fst acc))
                (cleaned_filter _ df Hcl) (listed_filter stock_dict _ df Hls) Hr Hpre)
      as (st1 & Hr1 & Hle & Hd).
    set (res := extra_greedy_trading_recursive pf (fst acc) (Some []) false
                  (dynamic_max_pairs base yr max_year)
                  (dynamic_minimum_profit (fst acc))) in *.
    assert (Hnext : forall s, year_upto s yr ->
              (s = st \/ exists row, In row pf /\ current_date s = Some (Date row)) ->
              forall m, In m months -> month_before s yr m).
    { intros s Hus Hds m Hmin. rewrite List.Forall_forall in Hf.
      specialize (Hf m Hmin).
      destruct Hds as [->|(row & Hrow & Hcur)].
      - specialize (Hm mo (or_introl eq_refl)). unfold month_before in *.
        destruct (current_date st); [|exact I].
        destruct Hm as [Hm|(Hm1 & Hm2)]; [left; exact Hm|right; split; lia].
      - unfold month_before. rewrite Hcur. destruct (Hin row Hrow) as (H1 & H2).
        right. split; lia. }
    assert (Hu1 : year_upto st1 yr).
    { destruct Hd as [->|(row & Hrow & Hcur)]; [exact Hu|].
      unfold year_upto. rewrite Hcur. destruct (Hin row Hrow) as (H1 & _). lia. }
    assert (E : large_month df base yr max_year acc mo = acc /\ pf = [] \/
                large_month df base yr max_year acc mo = (fst res, snd acc ++ snd res)).
    { unfold large_month. fold pf. destruct pf as [|r0 rest] eqn:Epf.
      - left. now split.
      - right. fold res. now destruct res. }
    destruct E as [(E & Epf)|E]; rewrite E.
    + destruct (IH acc st Hr Hu) as (st' & Hr' & Hu' & Hle').
      * apply Hnext; [exact Hu|now left].
      * exists st'. split; [exact Hr'|]. split; [exact Hu'|exact Hle'].
    + destruct (IH (fst res, snd acc ++ snd res) st1 Hr1 Hu1) as (st' & Hr' & Hu' & Hle').
      * apply Hnext; [exact Hu1|exact Hd].
      * exists st'. split; [exact Hr'|]. split; [exact Hu'|].
        cbn [fst] in Hle'. lra.
Qed.

(** The years of the large scenario, folded over the replay. *)
Lemma large_years_replay (df : list Bar) (base : option Q) (months : list nat)
    (max_year : nat) (years : list nat) :
  cleaned df -> listed stock_dict df ->
  StronglySorted lt months -> StronglySorted lt years ->
  forall acc st,
    replayed initial_cash stock_dict (all_moves acc) (ledger_cash acc) st ->
    (forall y, In y years -> year_before st y) ->
    exists st',
      replayed initial_cash stock_dict
        (all_moves (fold_left (large_year df base months max_year) years acc))
        (ledger_cash (fold_left (large_year df base months max_year) years acc)) st' /\
      ledger_cash acc
      <= ledger_cash (fold_left (large_year df base months max_year) years acc).
Proof.
  intros Hcl Hls Hms Hs. induction Hs as [|yr years Hs IH Hf]; intros acc st Hr Hy.
  - simpl. exists st. split; [exact Hr|lra].
  - simpl.
    pose proof (Hy yr (or_introl eq_refl)) as Hyr.
    destruct (large_months_replay df base yr max_year months Hcl Hls Hms
                (ledger_cash acc, all_moves acc) st Hr)
      as (st1 & Hr1 & Hu1 & Hle1).
    { unfold year_before in Hyr. unfold year_upto.
      destruct (current_date st); [lia|exact I]. }
    { intros m _. unfold year_before in Hyr. unfold month_before.
      destruct (current_date st); [now left|exact I]. }
    assert (E : large_year df base months max_year acc yr =
                mkLedger
                  (fst (fold_left (large_month df base yr max_year) months
                          (ledger_cash acc, all_moves acc)))
                  (<[yr := fst (fold_left (large_month df base yr max_year) months
                                  (ledger_cash acc, all_moves acc))]>
                     (cash_per_year acc))
                  (snd (fold_left (large_month df base yr max_year) months
                          (ledger_cash acc, all_moves acc)))).
    { unfold large_year.
      now destruct (fold_left (large_month df base yr max_year) months
                      (ledger_cash acc, all_moves acc)). }
    destruct (IH (large_year df base months max_year acc yr) st1) as (st' & Hr' & Hle').
    + rewrite E. exact Hr1.
    + intros y Hyin. rewrite List.Forall_forall in Hf. specialize (Hf y Hyin).
      unfold year_upto in Hu1. unfold year_before.
      destruct (current_date st1); [lia|exact I].
    + exists st'. split; [exact Hr'|].
      rewrite E in Hle' at 1. cbn [ledger_cash fst] in *. lra.
Qed.

Lemma replayed_start :
  replayed initial_cash stock_dict [] initial_cash initial_vstate.
Proof. split; [reflexivity|]. split; [exact I|]. reflexivity. Qed.

(** The validator accepts the moves of the small scenario and holds its
    final cash. *)
Lemma run_small_replay (df : list Bar) :
  cleaned df -> listed stock_dict df ->
  exists st,
    replayed initial_cash stock_dict
      (all_moves (run_small_scenario df initial_cash))
      (ledger_cash (run_small_scenario df initial_cash)) st /\
    initial_cash <= ledger_cash (run_small_scenario df initial_cash).
Proof.
  intros Hcl Hls. unfold run_small_scenario.
  apply (small_years_replay df _ Hcl Hls (sorted_unique_sorted _)
           (mkLedger initial_cash ∅ []) initial_vstate replayed_start).
  intros y _. exact I.
Qed.

(** The validator accepts the moves of the large scenario and holds its
    final cash. *)
Lemma run_large_replay (df : list Bar) (base : option Q) :
  cleaned df -> listed stock_dict df ->
  exists st,
    replayed initial_cash stock_dict
      (all_moves (run_large_scenario df initial_cash base))
      (ledger_cash (run_large_scenario df initial_cash base)) st /\
    initial_cash <= ledger_cash (run_large_scenario df initial_cash base).
Proof.
  intros Hcl Hls. unfold run_large_scenario.
  apply (large_years_replay df base _ _ _ Hcl Hls (sorted_unique_sorted _)
           (sorted_unique_sorted _)
           (mkLedger initial_cash ∅ []) initial_vstate replayed_start).
  intros y _. exact I.
Qed.

(** A replay of a non-empty list ends on a settlement date, so the balance
    the validator returns is the balance of the replay. *)
Lemma replayed_balance (moves : list Move) (cash : Q) (st : vstate) :
  replayed initial_cash stock_dict moves cash st -> moves <> [] ->
  validate_moves initial_cash moves stock_dict == cash.
Proof.
  intros (V & _ & Ht) Hne. unfold validate_moves. rewrite V.
  unfold settled_total in Ht.
  destruct (current_date st) as [d|] eqn:Hcur; [exact Ht|].
  exfalso. destruct (exists_last Hne) as (pre & m & ->).
  rewrite validate_loop_app in V.
  destruct (validate_loop initial_cash stock_dict initial_vstate pre) as [s|];
    [|discriminate].
  simpl in V.
  destruct (validate_move initial_cash stock_dict s m) as [s'|] eqn:Em; [|discriminate].
  injection V as ->.
  pose proof (validate_move_effect _ _ _ _ _ Em) as H.
  destruct H as [d q row st1 Hd _ _ _ _ _].
  pose proof (validate_move_date initial_cash stock_dict s m st d Em Hd) as H.
  congruence.
Qed.

End PeriodFacts.

(** ** The yearly ledger of a scenario *)

Section LedgerFacts.

Local Open Scope Q_scope.

(** A loop body that records its cash under the year it processed. *)
Variable step : ledger -> nat -> ledger.
Hypothesis step_record : forall acc yr,
  cash_per_year (step acc yr) = <[yr := ledger_cash (step acc yr)]> (cash_per_year acc).

Lemma fold_keys (years : list nat) :
  forall acc y,
    is_Some (cash_per_year (fold_left step years acc) !! y) <->
    In y years \/ is_Some (cash_per_year acc !! y).
Proof.
  induction years as [|yr years IH]; intros acc y; simpl; [tauto|].
  rewrite IH, step_record, lookup_insert_is_Some'. intuition.
Qed.

Lemma fold_last (years : list nat) (acc : ledger) :
  years <> [] ->
  cash_per_year (fold_left step years acc) !! List.last years 0%nat
  = Some (ledger_cash (fold_left step years acc)).
Proof.
  intros Hne. destruct (exists_last Hne) as (pre & y & ->).
  rewrite fold_left_app, List.last_last. simpl.
  rewrite step_record. apply lookup_insert_eq.
Qed.

Hypothesis step_gain : forall acc yr, ledger_cash acc <= ledger_cash (step acc yr).

Lemma fold_gain (years : list nat) :
  forall acc, ledger_cash acc <= ledger_cash (fold_left step years acc).
Proof.
  induction years as [|yr years IH]; intros acc; simpl; [lra|].
  specialize (IH (step acc yr)). specialize (step_gain acc yr). lra.
Qed.

Lemma fold_order (lo : Q) (years : list nat) :
  StronglySorted lt years ->
  forall acc,
    lo <= ledger_cash acc ->
    (forall y c, cash_per_year acc !! y = Some c ->
       lo <= c /\ c <= ledger_cash acc /\ Forall (lt y) years) ->
    (forall y1 y2 c1 c2, (y1 <= y2)%nat ->
       cash_per_year acc !! y1 = Some c1 -> cash_per_year acc !! y2 = Some c2 ->
       c1 <= c2) ->
    forall y1 y2 c1 c2, (y1 <= y2)%nat ->
      cash_per_year (fold_left step years acc) !! y1 = Some c1 ->
      cash_per_year (fold_left step years acc) !! y2 = Some c2 ->
      lo <= c1 /\ c1 <= c2 /\ c2 <= ledger_cash (fold_left step years acc).
Proof.
  induction 1 as [|yr years Hs IH Hf]; intros acc Hlo Hb Ho y1 y2 c1 c2 Hy H1 H2.
  - simpl in *. destruct (Hb y1 c1 H1) as (? & _ & _).
    destruct (Hb y2 c2 H2) as (_ & ? & _).
    pose proof (Ho y1 y2 c1 c2 Hy H1 H2). tauto.
  - simpl in H1, H2. simpl.
    pose proof (step_gain acc yr) as Hg.
    refine (IH (step acc yr) _ _ _ y1 y2 c1 c2 Hy H1 H2).
    + lra.
    + intros y c Hc. rewrite step_record in Hc.
      apply lookup_insert_Some in Hc as [(<- & <-)|(Hne & Hc)].
      * split; [lra|]. split; [lra|exact Hf].
      * destruct (Hb y c Hc) as (Ha & Hb' & Hc').
        split; [exact Ha|]. split; [lra|]. now inversion Hc'.
    + intros z1 z2 d1 d2 Hz Hz1 Hz2. rewrite step_record in Hz1, Hz2.
      apply lookup_insert_Some in Hz1 as [(<- & <-)|(Hne1 & Hz1)];
        apply lookup_insert_Some in Hz2 as [(<- & <-)|(Hne2 & Hz2)].
      * lra.
      * destruct (Hb z2 d2 Hz2) as (_ & _ & Hlt).
        inversion Hlt; subst. lia.
      * destruct (Hb z1 d1 Hz1) as (_ & ? & _). lra.
      * now apply (Ho z1 z2).
Qed.

End LedgerFacts.

Section ScenarioLedger.

Local Open Scope Q_scope.

Lemma small_year_record (df : list Bar) (acc : ledger) (yr : nat) :
  cash_per_year (small_year df acc yr)
  = <[yr := ledger_cash (small_year df acc yr)]> (cash_per_year acc).
Proof.
  unfold small_year.
  now destruct (greedy_trading_recursive _ (ledger_cash acc) (Some [])).
Qed.

Lemma large_year_record (df : list Bar) (base : option Q) (months : list nat)
    (max_year : nat) (acc : ledger) (yr : nat) :
  cash_per_year (large_year df base months max_year acc yr)
  = <[yr := ledger_cash (large_year df base months max_year acc yr)]>
      (cash_per_year acc).
Proof.
  unfold large_year.
  now destruct (fold_left _ months (ledger_cash acc, all_moves acc)).
Qed.

Lemma extra_greedy_gain (df : list Bar) (cash : Q) (mx : ext Z) (mn : ext Q) :
  cleaned df ->
  cash <= fst (extra_greedy_trading_recursive df cash (Some []) false mx mn).
Proof.
  intros Hcl. pose proof (extra_greedy_run df cash [] false mx mn) as Hrun.
  now destruct (eg_run_gain _ _ _ _ _ _ _ _ Hrun Hcl).
Qed.

Lemma small_year_gain (df : list Bar) (acc : ledger) (yr : nat) :
  cleaned df -> ledger_cash acc <= ledger_cash (small_year df acc yr).
Proof.
  intros Hcl. unfold small_year.
  pose proof (extra_greedy_gain (List.filter (fun r => (year_of r =? yr)%nat) df)
                (ledger_cash acc) (Fin 0%Z) NegInf (cleaned_filter _ df Hcl)) as G.
  rewrite <- greedy_as_extra in G.
  now destruct (greedy_trading_recursive _ (ledger_cash acc) (Some [])).
Qed.

Lemma large_months_gain (df : list Bar) (base : option Q) (yr max_year : nat)
    (months : list nat) :
  cleaned df ->
  forall acc, fst acc <= fst (fold_left (large_month df base yr max_year) months acc).
Proof.
  intros Hcl. induction months as [|mo months IH]; intros acc; simpl; [lra|].
  specialize (IH (large_month df base yr max_year acc mo)).
  assert (G : fst acc <= fst (large_month df base yr max_year acc mo)).
  { unfold large_month.
    pose proof (cleaned_filter
                  (fun r => (year_of r =? yr)%nat && (month_of r =? mo)%nat) df Hcl) as Hc.
    destruct (List.filter _ df) as [|r0 rest]; [lra|].
    pose proof (extra_greedy_gain (r0 :: rest) (fst acc)
                  (dynamic_max_pairs base yr max_year)
                  (dynamic_minimum_profit (fst acc)) Hc) as G.
    now destruct (extra_greedy_trading_recursive _ (fst acc) (Some []) false _ _). }
  lra.
Qed.

Lemma large_year_gain (df : list Bar) (base : option Q) (months : list nat)
    (max_year : nat) (acc : ledger) (yr : nat) :
  cleaned df ->
  ledger_cash acc <= ledger_cash (large_year df base months max_year acc yr).
Proof.
  intros Hcl. unfold large_year.
  pose proof (large_months_gain df base yr max_year months Hcl
                (ledger_cash acc, all_moves acc)) as G.
  now destruct (fold_left _ months (ledger_cash acc, all_moves acc)).
Qed.

Lemma sorted_unique_nonempty (l : list nat) : l <> [] -> sorted_unique l <> [].
Proof.
  destruct l as [|x l]; [congruence|]. intros _ H.
  assert (Hin : In x (sorted_unique (x :: l))) by (apply sorted_unique_in; now left).
  rewrite H in Hin. exact Hin.
Qed.

End ScenarioLedger.

Section SortedYears.

Lemma sorted_last_max (l : list nat) :
  StronglySorted lt l -> l <> [] ->
  In (List.last l 0%nat) l /\ Forall (fun y => (y <= List.last l 0)%nat) l.
Proof.
  induction 1 as [|x l Hs IH Hf]; intros Hne; [congruence|].
  destruct l as [|z l].
  - simpl. split; [now left|]. repeat constructor.
  - destruct IH as (Hin & Hle); [discriminate|].
    change (List.last (x :: z :: l) 0%nat) with (List.last (z :: l) 0%nat).
    split; [now right|]. constructor; [|exact Hle].
    rewrite List.Forall_forall in Hf. specialize (Hf _ Hin). lia.
Qed.

(** The greatest year of the data is the last of the sorted years. *)
Lemma greatest_year_last (df : list Bar) (y : nat) :
  In y (map year_of df) ->
  (forall y', In y' (map year_of df) -> (y' <= y)%nat) ->
  List.last (sorted_unique (map year_of df)) 0%nat = y.
Proof.
  intros Hin Hmax.
  assert (Hne : sorted_unique (map year_of df) <> []).
  { intros E. apply sorted_unique_in in Hin. rewrite E in Hin. exact Hin. }
  destruct (sorted_last_max _ (sorted_unique_sorted (map year_of df)) Hne)
    as (Hl & Hle).
  apply (proj1 (sorted_unique_in _ _)) in Hl. specialize (Hmax _ Hl).
  rewrite List.Forall_forall in Hle.
  apply (proj2 (sorted_unique_in _ _)) in Hin. specialize (Hle _ Hin). lia.
Qed.

End SortedYears.

(** ** The data the preprocessor delivers *)

Section PreprocessorFacts.

Local Open Scope Q_scope.

Lemma Qmin_bool_le (a b x : Q) :
  Qle_bool x (Qmin_bool a b) = true -> x <= a /\ x <= b.
Proof.
  unfold Qmin_bool. destruct (Qle_bool a b) eqn:E; intros H;
    apply Qle_bool_iff in H.
  - apply Qle_bool_iff in E. split; lra.
  - apply Qle_bool_gt in E. split; lra.
Qed.

Lemma Qmax_bool_le (a b x : Q) :
  Qle_bool (Qmax_bool a b) x = true -> a <= x /\ b <= x.
Proof.
  unfold Qmax_bool. destruct (Qle_bool a b) eqn:E; intros H;
    apply Qle_bool_iff in H.
  - apply Qle_bool_iff in E. split; lra.
  - apply Qle_bool_gt in E. split; lra.
Qed.

Lemma complete_cleaned (sym : string) (r : RawRow) :
  positive_row r = true -> logical_prices r = true ->
  cleaned_rowb (complete sym r) = true.
Proof.
  unfold positive_row, logical_prices, cleaned_rowb, complete, make_bar.
  cbn [Low High Open Close Volume].
  intros Hp Hl. rewrite Hp. cbn [andb].
  apply andb_true_iff in Hl as (H1 & H2).
  apply Qmin_bool_le in H1 as (H1 & H1h). cbv beta in H1.
  assert (H1' := Qmin_bool_le _ _ _ (proj2 (Qle_bool_iff _ _) H1)).
  destruct H1' as (Ho & Hc).
  apply Qmax_bool_le in H2 as (H2 & _). cbv beta in H2.
  assert (H2' := Qmax_bool_le _ _ _ (proj2 (Qle_bool_iff _ _) H2)).
  destruct H2' as (Ho' & Hc').
  repeat (apply andb_true_intro; split); apply Qle_bool_iff; assumption.
Qed.

Lemma filter_all {A : Type} (f : A -> bool) (l : list A) :
  (length l - length (List.filter f l) = 0)%nat -> List.filter f l = l.
Proof.
  induction l as [|x l IH]; [reflexivity|]. simpl.
  pose proof (List.filter_length_le f l) as Hle.
  destruct (f x); simpl; intros H.
  - f_equal. apply IH. lia.
  - lia.
Qed.

(** What the loop body stores for a file it does not skip. *)
Lemma clean_rows_spec (sym : string) (rows : list RawRow) (df : list Bar) :
  clean_rows sym rows = Some df ->
  too_many_zeros rows = false /\ df <> [] /\
  df = map (complete sym) (List.filter logical_prices (List.filter positive_row rows)).
Proof.
  assert (E : forall pos : list RawRow,
             (if (0 <? length pos - length (List.filter logical_prices pos))%nat
              then List.filter logical_prices pos else pos)
             = List.filter logical_prices pos).
  { intros pos.
    destruct (Nat.ltb_spec 0 (length pos - length (List.filter logical_prices pos)));
      [reflexivity|]. symmetry. apply filter_all. lia. }
  unfold clean_rows. destruct (too_many_zeros rows); [discriminate|].
  generalize (List.filter positive_row rows). intros pos.
  destruct pos as [|p0 pos']; [discriminate|]. cbv zeta. rewrite (E (p0 :: pos')).
  destruct (List.filter logical_prices (p0 :: pos')) as [|l0 ls]; [discriminate|].
  intros H. injection H as <-. split; [reflexivity|]. split; [discriminate|reflexivity].
Qed.

Lemma clean_rows_rows (sym : string) (rows : list RawRow) (df : list Bar) (b : Bar) :
  clean_rows sym rows = Some df -> In b df ->
  exists r, In r rows /\ b = complete sym r /\
            positive_row r = true /\ logical_prices r = true.
Proof.
  intros H Hb. apply clean_rows_spec in H as (_ & _ & ->).
  apply in_map_iff in Hb as (r & <- & Hr).
  apply filter_In in Hr as (Hr & Hl). apply filter_In in Hr as (Hr & Hp).
  now exists r.
Qed.

Lemma NoDup_map_filter {A B : Type} (g : A -> B) (f : A -> bool) (l : list A) :
  List.NoDup (map g l) -> List.NoDup (map g (List.filter f l)).
Proof.
  induction l as [|x l IH]; simpl; intros H; [constructor|].
  apply List.NoDup_cons_iff in H as (Hx & Hn).
  destruct (f x); simpl; [|now apply IH].
  constructor; [|now apply IH].
  intros Hin. apply Hx. apply in_map_iff in Hin as (y & Ey & Hy).
  apply filter_In in Hy as (Hy & _). rewrite <- Ey. now apply in_map.
Qed.

Lemma clean_rows_dates (sym : string) (rows : list RawRow) (df : list Bar) :
  clean_rows sym rows = Some df ->
  List.NoDup (map raw_date rows) -> List.NoDup (map Date df).
Proof.
  intros H Hn. apply clean_rows_spec in H as (_ & _ & ->).
  rewrite map_map. cbn [complete make_bar Date].
  now apply NoDup_map_filter, NoDup_map_filter.
Qed.

Lemma file_frame_spec (f : DataFile) (sym : string) (df : list Bar) :
  file_frame f = Some (sym, df) ->
  ends_with (file_name f) ".txt" = true /\
  sym = stock_symbol_of (file_name f) /\
  exists rows, file_rows f = Some rows /\ clean_rows sym rows = Some df.
Proof.
  unfold file_frame. destruct (ends_with (file_name f) ".txt"); [|discriminate].
  destruct (file_rows f) as [rows|]; [|discriminate].
  destruct (clean_rows _ rows) as [d|] eqn:E; [|discriminate].
  intros H. injection H as <- <-. split; [reflexivity|]. split; [reflexivity|].
  now exists rows.
Qed.

Lemma stored_in (files : list DataFile) (p : string * list Bar) :
  In p (stored files) <-> exists f, In f files /\ file_frame f = Some p.
Proof.
  induction files as [|f files IH]; simpl.
  - split; [tauto|]. now intros (f & [] & _).
  - destruct (file_frame f) as [q|] eqn:E.
    + simpl. rewrite IH. split.
      * intros [<-|(g & Hg & Eg)]; [exists f; auto|exists g; auto].
      * intros (g & [<-|Hg] & Eg); [left; congruence|right; now exists g].
    + rewrite IH. split.
      * intros (g & Hg & Eg). exists g; auto.
      * intros (g & [<-|Hg] & Eg); [congruence|now exists g].
Qed.

Lemma stored_app (l1 l2 : list DataFile) :
  stored (l1 ++ l2) = stored l1 ++ stored l2.
Proof.
  induction l1 as [|f l1 IH]; [reflexivity|]. simpl.
  destruct (file_frame f); simpl; now rewrite IH.
Qed.

(** The loop over the files appends the stored frames and inserts them. *)
Lemma load_fold (files : list DataFile) :
  forall acc,
    fold_left load_file files acc =
    (fst acc ++ map snd (stored files),
     fold_left (fun d p => <[fst p := snd p]> d) (stored files) (snd acc)).
Proof.
  induction files as [|f files IH]; intros [all dict]; simpl.
  - now rewrite app_nil_r.
  - rewrite IH. unfold load_file.
    destruct (file_frame f) as [[sym df]|]; [|reflexivity].
    simpl. now rewrite <- app_assoc.
Qed.

Lemma inserts_lookup (kept : list (string * list Bar)) :
  forall (d : gmap string (list Bar)) (sym : string) (df : list Bar),
    fold_left (fun d p => <[fst p := snd p]> d) kept d !! sym = Some df ->
    In (sym, df) kept \/ d !! sym = Some df.
Proof.
  induction kept as [|[s x] kept IH]; intros d sym df H; simpl in *; [now right|].
  apply IH in H as [H|H]; [left; now right|].
  apply lookup_insert_Some in H as [(<- & <-)|(_ & H)]; [left; now left|now right].
Qed.

Lemma inserts_last (post : list (string * list Bar)) :
  forall (d : gmap string (list Bar)) (sym : string) (df : list Bar),
    d !! sym = Some df -> ~ In sym (map fst post) ->
    fold_left (fun d p => <[fst p := snd p]> d) post d !! sym = Some df.
Proof.
  induction post as [|[s x] post IH]; intros d sym df H Hn; simpl in *; [exact H|].
  apply IH; [|tauto]. rewrite lookup_insert_ne; [exact H|]. intros ->. tauto.
Qed.

Lemma inserts_nodup (kept : list (string * list Bar)) :
  forall (d : gmap string (list Bar)) (sym : string) (df : list Bar),
    List.NoDup (map fst kept) -> In (sym, df) kept ->
    fold_left (fun d p => <[fst p := snd p]> d) kept d !! sym = Some df.
Proof.
  induction kept as [|[s x] kept IH]; intros d sym df Hn Hin; [destruct Hin|].
  simpl in *. apply List.NoDup_cons_iff in Hn as (Hs & Hn).
  destruct Hin as [E|Hin].
  - injection E as -> ->. apply inserts_last; [apply lookup_insert_eq|exact Hs].
  - now apply IH.
Qed.

Lemma stored_symbols (files : list DataFile) (sym : string) :
  In sym (map fst (stored files)) ->
  In sym (map (fun f => stock_symbol_of (file_name f))
            (List.filter (fun f => ends_with (file_name f) ".txt") files)).
Proof.
  intros H. apply in_map_iff in H as ([s df] & <- & H).
  apply stored_in in H as (f & Hf & E).
  apply file_frame_spec in E as (Ht & -> & _).
  apply in_map_iff. exists f. split; [reflexivity|].
  apply filter_In. now split.
Qed.

Lemma stored_nodup (files : list DataFile) :
  List.NoDup (map (fun f => stock_symbol_of (file_name f))
                (List.filter (fun f => ends_with (file_name f) ".txt") files)) ->
  List.NoDup (map fst (stored files)).
Proof.
  induction files as [|f files IH]; simpl; intros H; [constructor|].
  destruct (file_frame f) as [[sym df]|] eqn:E.
  - apply file_frame_spec in E as (Ht & -> & _). rewrite Ht in H.
    simpl in H. apply List.NoDup_cons_iff in H as (Hx & Hn).
    simpl. constructor; [|now apply IH].
    intros Hin. apply Hx. now apply stored_symbols.
  - apply IH. destruct (ends_with (file_name f) ".txt"); [|exact H].
    simpl in H. now apply List.NoDup_cons_iff in H as (_ & Hn).
Qed.

Lemma drop_outliers_in (df : list Bar) (r : Bar) :
  In r (drop_outliers df) -> In r df.
Proof. unfold drop_outliers. intros H. now apply filter_In in H as (H & _). Qed.

(** The two results of [load_and_preprocess_data] in terms of the stored
    frames. *)
Lemma load_results (files : list DataFile) :
  snd (load_and_preprocess_data files)
  = fold_left (fun d p => <[fst p := snd p]> d) (stored files) ∅ /\
  fst (load_and_preprocess_data files)
  = concat (map drop_outliers (map snd (stored files))).
Proof.
  unfold load_and_preprocess_data. rewrite load_fold. cbn [fst snd app].
  destruct (stored files) as [|p kept]; [now split|]. now split.
Qed.

Lemma loaded_row (files : list DataFile) (r : Bar) :
  In r (fst (load_and_preprocess_data files)) ->
  exists sym df, In (sym, df) (stored files) /\ In r df.
Proof.
  destruct (load_results files) as (_ & ->). intros H.
  apply in_concat in H as (l & Hl & Hr).
  apply in_map_iff in Hl as (df & <- & Hdf).
  apply in_map_iff in Hdf as ([sym df'] & <- & Hp).
  exists sym, df'. split; [exact Hp|]. now apply drop_outliers_in.
Qed.

Lemma stored_frame_rows (files : list DataFile) (sym : string) (df : list Bar) :
  In (sym, df) (stored files) ->
  df <> [] /\
  Forall (fun r => cleaned_rowb r = true /\
                   Max_Quantity r = max_quantity_of (Volume r) /\
                   Stock r = sym) df.
Proof.
  intros H. apply stored_in in H as (f & _ & E).
  apply file_frame_spec in E as (_ & _ & rows & _ & Hc).
  split; [now apply clean_rows_spec in Hc|].
  apply List.Forall_forall. intros b Hb.
  destruct (clean_rows_rows _ _ _ _ Hc Hb) as (r & _ & -> & Hp & Hl).
  split; [now apply complete_cleaned|]. now split.
Qed.

End PreprocessorFacts.

(** ** The outlier filter *)

Section OutlierFacts.

Local Open Scope Q_scope.

Lemma inject_nat_succ (d : nat) :
  inject_Z (Z.of_nat (S d)) == inject_Z (Z.of_nat d) + 1.
Proof. rewrite Nat2Z.inj_succ, <- Z.add_1_r, inject_Z_plus. reflexivity. Qed.

(** Rows on which [p] fails all weigh more than [c]: their number times
    [c] stays below the total weight. *)
Lemma sum_dropped (g : Q -> Q) (p : Q -> bool) (c : Q) (xs : list Q) :
  0 <= c ->
  (forall x, In x xs -> 0 <= g x) ->
  (forall x, In x xs -> p x = false -> c < g x) ->
  inject_Z (Z.of_nat (length (List.filter (fun x => negb (p x)) xs))) * c
    <= Qsum (map g xs) /\
  ((0 < length (List.filter (fun x => negb (p x)) xs))%nat ->
   inject_Z (Z.of_nat (length (List.filter (fun x => negb (p x)) xs))) * c
    < Qsum (map g xs)).
Proof.
  intros Hc. induction xs as [|x xs IH]; intros Hg Hp.
  - cbn [List.filter length map]. change (inject_Z (Z.of_nat 0)) with 0.
    unfold Qsum. cbn [fold_right]. split; [lra|lia].
  - destruct IH as (IH1 & IH2).
    { intros y Hy. apply Hg. now right. }
    { intros y Hy. apply Hp. now right. }
    specialize (Hg x (or_introl eq_refl)). specialize (Hp x (or_introl eq_refl)).
    cbn [List.filter map Qsum fold_right]. fold (Qsum (map g xs)).
    destruct (p x); cbn [negb].
    + split; [lra|]. intros Hd. specialize (IH2 Hd). lra.
    + specialize (Hp eq_refl). cbn [length].
      pose proof (inject_nat_succ
                    (length (List.filter (fun x => negb (p x)) xs))) as E.
      set (d1 := inject_Z (Z.of_nat (S (length (List.filter (fun x => negb (p x)) xs))))) in *.
      set (d := inject_Z (Z.of_nat (length (List.filter (fun x => negb (p x)) xs)))) in *.
      assert (Hd1 : d1 * c == d * c + c) by (rewrite E; ring).
      split; [lra|]. intros _. lra.
Qed.

Lemma Qsum_nonneg (g : Q -> Q) (xs : list Q) :
  (forall x, 0 <= g x) -> 0 <= Qsum (map g xs).
Proof.
  intros Hg. induction xs as [|x xs IH]; [unfold Qsum; cbn; lra|].
  cbn [map Qsum fold_right]. fold (Qsum (map g xs)). specialize (Hg x). lra.
Qed.

Lemma le_root_false (a v : Q) :
  le_root a OUTLIER_STD_DEV_FACTOR v = false -> 9 * v < a * a.
Proof.
  unfold le_root, OUTLIER_STD_DEV_FACTOR. intros H.
  apply orb_false_iff in H as (_ & H). apply Qle_bool_gt in H. lra.
Qed.

Lemma outside_thresholds (m v x : Q) :
  0 <= x -> within_thresholds m (Some v) x = false ->
  9 * v < (x - m) * (x - m).
Proof.
  intros Hx. unfold within_thresholds.
  rewrite (proj2 (Qle_bool_iff 0 x) Hx). cbn [andb].
  intros H. apply andb_false_iff in H as [H|H]; apply le_root_false in H.
  - assert (E : (m - x) * (m - x) == (x - m) * (x - m)) by ring. lra.
  - exact H.
Qed.

Lemma variance_some (xs : list Q) :
  (2 <= length xs)%nat ->
  variance xs =
  Some (Qsum (map (fun x => (x - mean xs) * (x - mean xs)) xs)
        / inject_Z (Z.of_nat (length xs - 1))).
Proof.
  destruct xs as [|x1 [|x2 xs]]; simpl; intros H; [lia|lia|reflexivity].
Qed.

Lemma filter_map_length {A B : Type} (g : A -> B) (p : B -> bool) (l : list A) :
  length (List.filter (fun a => p (g a)) l) = length (List.filter p (map g l)).
Proof.
  induction l as [|a l IH]; [reflexivity|]. simpl.
  destruct (p (g a)); simpl; now rewrite IH.
Qed.

(** The three-sigma filter drops fewer than one row in nine. *)
Lemma drop_outliers_bound (df : list Bar) :
  (2 <= length df)%nat ->
  Forall (fun r => Low r <= High r) df ->
  (9 * (length df - length (drop_outliers df)) <= length df - 1)%nat.
Proof.
  intros Hn Hr. unfold drop_outliers.
  set (xs := map Range df).
  assert (Hlen : length xs = length df) by apply length_map.
  rewrite (variance_some xs) by lia.
  set (m := mean xs).
  set (S2 := Qsum (map (fun x => (x - m) * (x - m)) xs)).
  set (v := S2 / inject_Z (Z.of_nat (length xs - 1))).
  rewrite (filter_map_length Range (within_thresholds m (Some v)) df). fold xs.
  pose proof (List.filter_length (within_thresholds m (Some v)) xs) as Hf.
  set (d := length (List.filter (fun x => negb (within_thresholds m (Some v) x)) xs)) in *.
  replace (length df - length (List.filter (within_thresholds m (Some v)) xs))%nat
    with d by lia.
  assert (Hx : forall x, In x xs -> 0 <= x).
  { intros x Hx. apply in_map_iff in Hx as (r & <- & Hin).
    rewrite List.Forall_forall in Hr. specialize (Hr r Hin). unfold Range. lra. }
  assert (Hq : forall x : Q, 0 <= (x - m) * (x - m)).
  { intros x. generalize (x - m). intros a.
    destruct (Qlt_le_dec a 0) as [H|H]; [|apply Qmult_le_0_compat; lra].
    assert (E : a * a == (- a) * (- a)) by ring. rewrite E.
    apply Qmult_le_0_compat; lra. }
  assert (Hn1 : 0 < inject_Z (Z.of_nat (length xs - 1))).
  { change 0 with (inject_Z 0). apply (proj1 (inject_Z_lt _ _)). lia. }
  assert (HS : S2 == v * inject_Z (Z.of_nat (length xs - 1))).
  { unfold v. field. lra. }
  assert (HS0 : 0 <= S2).
  { exact (Qsum_nonneg (fun x => (x - m) * (x - m)) xs Hq). }
  assert (Hv : 0 <= v).
  { unfold v. apply Qle_shift_div_l; [exact Hn1|lra]. }
  destruct (sum_dropped (fun x => (x - m) * (x - m)) (within_thresholds m (Some v))
              (9 * v) xs) as (B1 & B2).
  { lra. }
  { intros x _. apply Hq. }
  { intros x Hin Hw. apply outside_thresholds; [now apply Hx|exact Hw]. }
  fold d in B1, B2. fold S2 in B1, B2.
  destruct (Nat.eq_dec d 0%nat) as [Hd|Hd]; [lia|].
  specialize (B2 ltac:(lia)).
  set (dq := inject_Z (Z.of_nat d)) in *.
  set (nq := inject_Z (Z.of_nat (length xs - 1))) in *.
  assert (Hvpos : 0 < v).
  { destruct (Qlt_le_dec 0 v) as [H|H]; [exact H|].
    assert (v == 0) by lra. exfalso.
    assert (E1 : dq * (9 * v) == 0) by (rewrite H0; ring).
    assert (E2 : v * nq == 0) by (rewrite H0; ring). lra. }
  assert (Hle : 9 * dq <= nq).
  { destruct (Qlt_le_dec nq (9 * dq)) as [H|H]; [|exact H]. exfalso.
    assert (H1 : 0 < (9 * dq - nq) * v) by (apply Qmult_lt_0_compat; lra).
    assert (E : (9 * dq - nq) * v == dq * (9 * v) - v * nq) by ring. lra. }
  unfold dq, nq in Hle.
  assert (E9 : 9 * inject_Z (Z.of_nat d) == inject_Z (9 * Z.of_nat d)).
  { rewrite inject_Z_mult. reflexivity. }
  rewrite E9 in Hle. apply (proj2 (inject_Z_le _ _)) in Hle. lia.
Qed.

Lemma drop_outliers_single (r : Bar) : drop_outliers [r] = [].
Proof. reflexivity. Qed.

End OutlierFacts.

(** ** From the data directory to the verdict *)

Section PipelineFacts.

Local Open Scope Q_scope.

(** The check of [main] succeeds on a scenario that produced moves. *)
Lemma status_success (initial_cash : Q) (sc : scenario) (combined_data : list Bar)
    (stock_dict : gmap string (list Bar)) :
  0 <= initial_cash ->
  cleaned combined_data -> listed stock_dict combined_data ->
  all_moves (scenario_result initial_cash sc combined_data) <> [] ->
  main_status initial_cash sc combined_data stock_dict = Some true.
Proof.
  intros H0 Hcl Hls Hne.
  assert (R : exists st,
    replayed initial_cash stock_dict
      (all_moves (scenario_result initial_cash sc combined_data))
      (ledger_cash (scenario_result initial_cash sc combined_data)) st /\
    initial_cash <= ledger_cash (scenario_result initial_cash sc combined_data)).
  { destruct sc; [now apply run_small_replay|now apply run_large_replay]. }
  destruct R as (st & Hr & Hle).
  pose proof (replayed_balance _ _ _ _ _ Hr Hne) as Hv.
  unfold main_status. destruct combined_data as [|r0 rest].
  - exfalso. apply Hne. now destruct sc.
  - f_equal. unfold validation_success.
    change (match sc with
            | Small => run_small_scenario (r0 :: rest) initial_cash
            | Large => run_large_scenario (r0 :: rest) initial_cash None
            end) with (scenario_result initial_cash sc (r0 :: rest)).
    apply andb_true_intro. split.
    + apply negb_true_iff.
      destruct (Qeq_bool _ (- (1))) eqn:E; [|reflexivity].
      apply Qeq_bool_iff in E. lra.
    + apply Qltb_lt. apply Qabs_Qlt_condition. lra.
Qed.

Lemma inserts_dom (kept : list (string * list Bar)) :
  forall (d : gmap string (list Bar)) (sym : string),
    is_Some (fold_left (fun d p => <[fst p := snd p]> d) kept d !! sym) <->
    In sym (map fst kept) \/ is_Some (d !! sym).
Proof.
  induction kept as [|[s x] kept IH]; intros d sym; simpl; [tauto|].
  rewrite IH, lookup_insert_is_Some'. intuition.
Qed.

(** Files with distinct symbols and distinct, valid dates give data the
    strategies and the validator agree on. *)
Lemma loaded_well_formed (files : list DataFile) :
  List.NoDup (map (fun f => stock_symbol_of (file_name f))
                (List.filter (fun f => ends_with (file_name f) ".txt") files)) ->
  (forall f rows, In f files -> file_rows f = Some rows ->
     List.NoDup (map raw_date rows) /\ Forall (fun r => valid_date (raw_date r)) rows) ->
  cleaned (fst (load_and_preprocess_data files)) /\
  listed (snd (load_and_preprocess_data files)) (fst (load_and_preprocess_data files)).
Proof.
  intros Hsym Hrows.
  assert (H : forall r, In r (fst (load_and_preprocess_data files)) ->
            cleaned_bar r /\
            find_row (snd (load_and_preprocess_data files)) (Stock r) (Date r) = Some r).
  { intros r Hr. destruct (loaded_row files r Hr) as (sym & df & Hst & Hin).
    pose proof (stored_frame_rows files sym df Hst) as (_ & Hf).
    rewrite List.Forall_forall in Hf. destruct (Hf r Hin) as (Hc & Hm & Hs).
    pose proof Hst as Hst'.
    apply stored_in in Hst' as (f & Hfin & E).
    apply file_frame_spec in E as (_ & _ & rows & Hfr & Hcr).
    destruct (Hrows f rows Hfin Hfr) as (Hnd & Hval).
    split.
    - split; [exact Hc|]. split; [exact Hm|].
      destruct (clean_rows_rows _ _ _ _ Hcr Hin) as (raw & Hraw & -> & _).
      rewrite List.Forall_forall in Hval. exact (Hval raw Hraw).
    - rewrite Hs. apply (find_row_stored _ sym df).
      + destruct (load_results files) as (-> & _).
        apply inserts_nodup; [now apply stored_nodup|exact Hst].
      + exact (clean_rows_dates _ _ _ Hcr Hnd).
      + exact Hin. }
  split; apply List.Forall_forall; intros r Hr; now apply H.
Qed.

Lemma cleaned_permutation (l l' : list Bar) :
  Permutation l l' -> cleaned l -> cleaned l'.
Proof.
  unfold cleaned. rewrite !List.Forall_forall. intros Hp H r Hr.
  apply H. apply (Permutation_in r (Permutation_sym Hp) Hr).
Qed.

Lemma listed_permutation (stock_dict : gmap string (list Bar)) (l l' : list Bar) :
  Permutation l l' -> listed stock_dict l -> listed stock_dict l'.
Proof.
  intros Hp. apply listed_incl. intros r Hr.
  apply (Permutation_in r (Permutation_sym Hp) Hr).
Qed.

End PipelineFacts.

(** ** The example directories are well-formed *)

Section ExampleFiles.

Lemma files_x_ascii : Forall (fun f => ascii_name (file_name f)) files_x.
Proof. repeat constructor; cbn; lia. Qed.

Lemma files_xx_ascii : Forall (fun f => ascii_name (file_name f)) files_xx.
Proof. repeat constructor; cbn; lia. Qed.

Lemma raw_x_whole : Forall whole_volume [raw_x1; raw_x2; raw_x3].
Proof. repeat constructor; exists 1000%Z; (split; [reflexivity|reflexivity]). Qed.

Lemma files_x_whole : whole_volumes files_x.
Proof.
  intros f rows [<-|[<-|[]]] H; [|discriminate].
  injection H as <-. exact raw_x_whole.
Qed.

Lemma files_xx_whole : whole_volumes files_xx.
Proof.
  intros f rows [<-|[<-|[]]] H; injection H as <-.
  - pose proof raw_x_whole as W. inversion W as [|? ? H1 W1]; subst.
    inversion W1 as [|? ? H2 W2]; subst. repeat constructor; assumption.
  - exact raw_x_whole.
Qed.

Lemma find_absent (frame : list Bar) (d : date) :
  ~ In d (map Date frame) ->
  List.find (fun r => date_eqb (Date r) d) frame = None.
Proof.
  induction frame as [|x frame IH]; intros H; [reflexivity|].
  cbn [List.find]. destruct (date_eqb (Date x) d) eqn:E.
  - apply date_eqb_eq in E. exfalso. apply H. now left.
  - apply IH. intros Hin. apply H. now right.
Qed.

End ExampleFiles.

(** ** The real-number reading

    The lemmas of this section read the arithmetic of the source in the
    real numbers, as the embedding above does.  Where the outcome hangs on
    an equality or a sign that rounding can flip, binary64 need not follow
    them ([Binary64]). *)

Section RealReading.

Local Open Scope Q_scope.

(** On cleaned data that the validator's dictionary lists, whenever either
    strategy returns a non-empty move list, the validator replaying that
    list with the same initial cash recomputes the returned final cash. *)
Lemma strategies_agree_with_validator
    (stock_dict : gmap string (list Bar)) (df : list Bar) (cash : Q)
    (max_past_pairs : ext Z) (min_profit : ext Q) :
  cleaned df -> listed stock_dict df ->
  (let r := greedy_trading_recursive df cash None in
   snd r <> [] ->
   validate_moves cash (snd r) stock_dict == fst r /\
   Qabs (fst r - validate_moves cash (snd r) stock_dict) < 1 # 100) /\
  (let r := extra_greedy_trading_recursive df cash None false max_past_pairs min_profit in
   snd r <> [] ->
   validate_moves cash (snd r) stock_dict == fst r /\
   Qabs (fst r - validate_moves cash (snd r) stock_dict) < 1 # 100).
Proof.
  intros Hcl Hls.
  assert (Tol : forall a b : Q, b == a -> b == a /\ Qabs (a - b) < 1 # 100).
  { intros a b E. split; [exact E|]. apply Qabs_Qlt_condition. lra. }
  split.
  - rewrite (greedy_as_extra df cash None min_profit).
    intros r Hne. apply Tol. now apply extra_greedy_validated.
  - intros r Hne. apply Tol. now apply extra_greedy_validated.
Qed.


(** On cleaned data the simple strategy returns the moves of a sequence of
    trades, each ending strictly above the balance it started from, with
    strictly increasing dates. *)
Lemma greedy_is_monotone (df : list Bar) (cash : Q) :
  cleaned df ->
  let trades := greedy_trades (S (length df)) df cash in
  snd (greedy_trading_recursive df cash None) = flat_map trade_moves trades /\
  fst (greedy_trading_recursive df cash None) = List.last (map cash_after trades) cash /\
  linked cash trades /\
  Forall (fun t => cash_before t < cash_after t) trades /\
  StronglySorted Qle (cash :: map cash_after trades) /\
  StronglySorted date_lt (map trade_date trades).
Proof.
  intros Hcl trades.
  destruct (greedy_trades_facts (S (length df)) df cash Hcl) as (Hl & Hf & Hs).
  fold trades in Hl, Hf, Hs.
  assert (Hg : Forall (fun t => cash_before t < cash_after t) trades).
  { eapply List.Forall_impl; [|exact Hf]. now intros t (_ & H). }
  assert (Er : greedy_trading_recursive df cash None =
               (List.last (map cash_after trades) cash, flat_map trade_moves trades)).
  { unfold greedy_trading_recursive.
    destruct (greedy_fuel_total (S (length df)) df cash [] ltac:(lia)) as [r Hr].
    rewrite Hr. apply greedy_fuel_trades in Hr. exact Hr. }
  rewrite Er. cbn [fst snd].
  repeat split; try assumption. now apply linked_increasing.
Qed.


(** On cleaned data a strategy never returns less cash than it was given:
    the cash is unchanged when no move is appended and strictly larger as
    soon as one is. *)
Lemma strategies_never_lose
    (df : list Bar) (cash : Q) (moves : list Move) (past : bool)
    (max_past_pairs : ext Z) (min_profit : ext Q) :
  cleaned df ->
  (let r := greedy_trading_recursive df cash (Some moves) in
   cash <= fst r /\ (snd r <> moves -> cash < fst r) /\ (snd r = moves -> fst r = cash)) /\
  (let r := extra_greedy_trading_recursive df cash (Some moves) past
              max_past_pairs min_profit in
   cash <= fst r /\ (snd r <> moves -> cash < fst r) /\ (snd r = moves -> fst r = cash)).
Proof.
  intros Hcl.
  assert (E : forall past mx mn,
             let r := extra_greedy_trading_recursive df cash (Some moves) past mx mn in
             cash <= fst r /\ (snd r <> moves -> cash < fst r) /\
             (snd r = moves -> fst r = cash)).
  { intros p mx mn r. subst r.
    pose proof (extra_greedy_run df cash moves p mx mn) as Hrun.
    destruct (eg_run_gain _ _ _ _ _ _ _ _ Hrun Hcl) as (G1 & G2).
    split; [exact G1|]. split; [exact G2|].
    exact (eg_run_no_moves _ _ _ _ _ _ _ _ Hrun). }
  split; [|apply E].
  rewrite (greedy_as_extra df cash (Some moves) min_profit). apply E.
Qed.


(** On cleaned data that the dictionary lists, [run_small_scenario] never
    ends below its initial cash, the validator accepts all its moves, and
    when there are moves the validator's balance is the final cash. *)
Lemma small_scenario_is_validated
    (stock_dict : gmap string (list Bar)) (df : list Bar) (initial_cash : Q) :
  cleaned df -> listed stock_dict df ->
  let result := run_small_scenario df initial_cash in
  initial_cash <= ledger_cash result /\
  validate_loop initial_cash stock_dict initial_vstate (all_moves result) <> None /\
  (all_moves result <> [] ->
   validate_moves initial_cash (all_moves result) stock_dict == ledger_cash result).
Proof.
  intros Hcl Hls result.
  destruct (run_small_replay initial_cash stock_dict df Hcl Hls) as (st & Hr & Hle).
  fold result in Hr, Hle.
  split; [exact Hle|]. split.
  - destruct Hr as (V & _). rewrite V. discriminate.
  - intros Hne. exact (replayed_balance _ _ _ _ _ Hr Hne).
Qed.


(** On cleaned data that the dictionary lists, [run_large_scenario] never
    ends below its initial cash, the validator accepts all its moves, and
    when there are moves the validator's balance is the final cash. *)
Lemma large_scenario_is_validated
    (stock_dict : gmap string (list Bar)) (df : list Bar) (initial_cash : Q)
    (initial_max_past_pairs : option Q) :
  cleaned df -> listed stock_dict df ->
  let result := run_large_scenario df initial_cash initial_max_past_pairs in
  initial_cash <= ledger_cash result /\
  validate_loop initial_cash stock_dict initial_vstate (all_moves result) <> None /\
  (all_moves result <> [] ->
   validate_moves initial_cash (all_moves result) stock_dict == ledger_cash result).
Proof.
  intros Hcl Hls result.
  destruct (run_large_replay initial_cash stock_dict df initial_max_past_pairs Hcl Hls)
    as (st & Hr & Hle).
  fold result in Hr, Hle.
  split; [exact Hle|]. split.
  - destruct Hr as (V & _). rewrite V. discriminate.
  - intros Hne. exact (replayed_balance _ _ _ _ _ Hr Hne).
Qed.


(** The check of [main] succeeds for either scenario on cleaned, listed
    data, a non-negative initial cash and at least one move. *)
Lemma main_reports_success
    (initial_cash : Q) (sc : scenario) (combined_data : list Bar)
    (stock_dict : gmap string (list Bar)) :
  0 <= initial_cash ->
  cleaned combined_data -> listed stock_dict combined_data ->
  all_moves (scenario_result initial_cash sc combined_data) <> [] ->
  main_status initial_cash sc combined_data stock_dict = Some true.
Proof. apply status_success. Qed.

Lemma main_reports_success_witness :
  main_status 1000 Large frame_yx dict_xy = Some true.
Proof.
  apply main_reports_success.
  - vm_compute. discriminate.
  - repeat constructor.
  - repeat constructor.
  - vm_compute. discriminate.
Defined.


(** On cleaned data the balances both scenarios record never decrease from
    one year to a later one, and lie between the initial and final cash. *)
Lemma ledger_grows_with_the_years
    (df : list Bar) (initial_cash : Q) (initial_max_past_pairs : option Q)
    (result : ledger) (y1 y2 : nat) (c1 c2 : Q) :
  cleaned df ->
  result = run_small_scenario df initial_cash \/
  result = run_large_scenario df initial_cash initial_max_past_pairs ->
  (y1 <= y2)%nat ->
  cash_per_year result !! y1 = Some c1 ->
  cash_per_year result !! y2 = Some c2 ->
  initial_cash <= c1 /\ c1 <= c2 /\ c2 <= ledger_cash result.
Proof.
  intros Hcl [->| ->] Hy H1 H2.
  - refine (fold_order _ (small_year_record df)
              (fun acc yr => small_year_gain df acc yr Hcl) initial_cash _
              (sorted_unique_sorted _) (mkLedger initial_cash ∅ []) _ _ _
              y1 y2 c1 c2 Hy H1 H2); cbn [ledger_cash cash_per_year].
    + lra.
    + intros y c Hc. now rewrite lookup_empty in Hc.
    + intros z1 z2 d1 d2 _ Hc. now rewrite lookup_empty in Hc.
  - refine (fold_order _ (large_year_record df _ _ _)
              (fun acc yr => large_year_gain df _ _ _ acc yr Hcl) initial_cash _
              (sorted_unique_sorted _) (mkLedger initial_cash ∅ []) _ _ _
              y1 y2 c1 c2 Hy H1 H2); cbn [ledger_cash cash_per_year].
    + lra.
    + intros y c Hc. now rewrite lookup_empty in Hc.
    + intros z1 z2 d1 d2 _ Hc. now rewrite lookup_empty in Hc.
Qed.


(** From the data directory to the verdict: the check of [main] succeeds
    whenever the scenario produces a move. *)
Lemma pipeline_reports_success
    (files : list DataFile) (combined_data : list Bar)
    (initial_cash : Q) (sc : scenario) :
  List.NoDup (map (fun f => stock_symbol_of (file_name f))
                (List.filter (fun f => ends_with (file_name f) ".txt") files)) ->
  (forall f rows, In f files -> file_rows f = Some rows ->
     List.NoDup (map raw_date rows) /\ Forall (fun r => valid_date (raw_date r)) rows) ->
  sort_values (fst (load_and_preprocess_data files)) combined_data ->
  0 <= initial_cash ->
  all_moves (scenario_result initial_cash sc combined_data) <> [] ->
  main_status initial_cash sc combined_data (snd (load_and_preprocess_data files))
  = Some true.
Proof.
  intros Hsym Hrows (Hp & _) H0 Hne.
  destruct (loaded_well_formed files Hsym Hrows) as (Hc & Hl).
  apply status_success; [exact H0| | |exact Hne].
  - exact (cleaned_permutation _ _ Hp Hc).
  - exact (listed_permutation _ _ _ Hp Hl).
Qed.

End RealReading.

(** * The properties of the specification *)

Section Claims.

Local Open Scope Q_scope.

(** C1. On binary64 floats the validator rejects moves of the simple
    strategy.  On the cleaned, listed bar whose open and low are 12 and
    whose high and close are 24, with [Max_Quantity] 10000 and cash 909:
    the strategy affords 75 shares, computes their cost
    [75 * 12 * BUY_COST_FACTOR] as 909 and returns 1782 with a buy-low and
    a sell-close of 75 shares; the validator computes the cost of the same
    buy as [12 * BUY_COST_FACTOR * 75], which is above 909, and returns the
    sentinel -1. *)
Theorem validator_rejects_strategy_moves :
  Binary64.cleaned_rowb Binary64.bar_twelve = true /\
  Binary64.max_quantity_of (Binary64.Volume Binary64.bar_twelve)
  = Some (Binary64.Max_Quantity Binary64.bar_twelve) /\
  Binary64.find_row Binary64.dict_twelve "X" (mkDate 2020 1 1)
  = Some Binary64.bar_twelve /\
  Binary64.greedy_trading_recursive [Binary64.bar_twelve] 909%float None
  = Some (1782%float,
          [mkMove "2020-01-01" "buy-low" "X" "75";
           mkMove "2020-01-01" "sell-close" "X" "75"]) /\
  Binary64.trade_cost 75 (Binary64.Low Binary64.bar_twelve) = 909%float /\
  (909 <? Binary64.Low Binary64.bar_twelve * Binary64.BUY_COST_FACTOR
          * Binary64.of_int 75)%float = true /\
  Binary64.validate_moves 909%float
    [mkMove "2020-01-01" "buy-low" "X" "75";
     mkMove "2020-01-01" "sell-close" "X" "75"]
    Binary64.dict_twelve = (-1)%float.
Proof.
  split; [vm_compute; reflexivity|].
  split; [vm_compute; reflexivity|].
  split; [vm_compute; reflexivity|].
  split; [vm_compute; reflexivity|].
  split; [vm_compute; reflexivity|].
  split; vm_compute; reflexivity.
Qed.

(** C2 (as stated, refuted). On the single-bar scenario the computed
    buy-open/sell-high profit is not 178: only 99 shares are affordable at
    the open, which gives 176.22. *)
Lemma scenario_open_profit_not_178 :
  ~ (profit_open_of 1000 bar_x == 178).
Proof.
  unfold Qeq. vm_compute. discriminate.
Qed.

(** C2 (amended). On the single-bar scenario with initial cash 1000:
    [Max_Quantity] is 100; the buy-low/sell-close profit is 180; the
    buy-open/sell-high profit is 176.22, for the 99 shares the cash affords
    at the open; the strategies select the buy-low/sell-close variant, emit
    exactly the two moves of 100 shares dated 2020-01-01 and return 1180;
    the validator replaying these moves returns 1180. *)
Theorem scenario_end_to_end :
  Max_Quantity bar_x = 100%Z /\
  profit_low_of 1000 bar_x == 180 /\
  column_quantity 1000 (Max_Quantity bar_x) (Open bar_x) == 99 /\
  profit_open_of 1000 bar_x == 17622 # 100 /\
  option_map open_variant (choose 1000 (affordable 1000 frame_x)) = Some false /\
  snd (greedy_trading_recursive frame_x 1000 None) = moves_x /\
  fst (greedy_trading_recursive frame_x 1000 None) == 1180 /\
  snd (extra_greedy_trading_recursive frame_x 1000 None false PosInf NegInf) = moves_x /\
  fst (extra_greedy_trading_recursive frame_x 1000 None false PosInf NegInf) == 1180 /\
  validate_moves 1000 moves_x dict_x == 1180.
Proof.
  repeat split; vm_compute; reflexivity.
Qed.

(** C3. On cleaned data, every move either strategy emits references a
    row of the data with a quantity that is a positive integer not above
    that row's [Max_Quantity] (the truncated volume fraction); and the
    validator returns the sentinel for any list holding a move whose
    quantity is above the [Max_Quantity] of the bar it references. *)
Theorem quantities_within_volume
    (df : list Bar) (cash : Q) (max_past_pairs : ext Z) (min_profit : ext Q) :
  cleaned df ->
  Forall (emitted_within df) (snd (greedy_trading_recursive df cash None)) /\
  Forall (emitted_within df)
    (snd (extra_greedy_trading_recursive df cash None false max_past_pairs min_profit)) /\
  (forall (initial_cash : Q) (stock_dict : gmap string (list Bar))
          (pre : list Move) (m : Move) (rest : list Move)
          (d : date) (q : Z) (row : Bar),
     parse_date (date_str m) = Some d ->
     parse_int (quantity_str m) = Some q ->
     find_row stock_dict (stock m) d = Some row ->
     (Max_Quantity row < q)%Z ->
     validate_moves initial_cash (pre ++ m :: rest) stock_dict = - (1)).
Proof.
  intros Hcl.
  assert (E : forall mx mn,
             Forall (emitted_within df)
               (snd (extra_greedy_trading_recursive df cash None false mx mn))).
  { intros mx mn. rewrite extra_greedy_default_moves.
    pose proof (extra_greedy_run df cash [] false mx mn) as Hrun.
    destruct (eg_run_emitted _ _ _ _ _ _ _ _ Hrun Hcl) as (new & -> & F).
    exact F. }
  split; [|split].
  - rewrite (greedy_as_extra df cash None min_profit). apply E.
  - apply E.
  - intros initial_cash stock_dict pre m rest d q row Hd Hq Hf Hv.
    destruct (validate_loop initial_cash stock_dict initial_vstate pre) as [st|] eqn:Hpre.
    + apply (validate_moves_fatal _ _ _ _ _ _ Hpre).
      apply validate_move_error. now apply (err_volume _ _ _ _ d q row).
    + unfold validate_moves. now rewrite validate_loop_failed.
Qed.

Lemma quantities_within_volume_witness :
  cleaned frame_x /\
  Forall (emitted_within frame_x) (snd (greedy_trading_recursive frame_x 1000 None)) /\
  validate_moves 1000 [mkMove "2020-01-01" "buy-low" "X" "101"] dict_x = - (1).
Proof.
  assert (Hc : cleaned frame_x) by (repeat constructor).
  split; [exact Hc|]. split.
  - exact (proj1 (quantities_within_volume frame_x 1000 PosInf NegInf Hc)).
  - apply (proj2 (proj2 (quantities_within_volume frame_x 1000 PosInf NegInf Hc))
             1000 dict_x [] (mkMove "2020-01-01" "buy-low" "X" "101") []
             (mkDate 2020 1 1) 101%Z bar_x);
      reflexivity.
Defined.

(** C4. On binary64 floats a trade of the simple strategy can lower the
    cash.  On the cleaned bar whose open and low are 22.77 and whose high
    and close are 23.23, with [Max_Quantity] 100 and cash 1000: the best
    profit [43 * (23.23 * SELL_REVENUE_FACTOR - 22.77 * BUY_COST_FACTOR)]
    evaluates above zero, so the strategy does not stop; it buys and sells
    43 shares, and [cash - cost + revenue] is below 1000. *)
Theorem greedy_trade_lowers_cash :
  Binary64.cleaned_rowb Binary64.bar_flat = true /\
  Binary64.max_quantity_of (Binary64.Volume Binary64.bar_flat)
  = Some (Binary64.Max_Quantity Binary64.bar_flat) /\
  (0 <? Binary64.max_profit_of 1000 Binary64.bar_flat)%float = true /\
  exists cash_after : float,
    Binary64.greedy_trading_recursive [Binary64.bar_flat] 1000%float None
    = Some (cash_after,
            [mkMove "2020-01-01" "buy-low" "X" "43";
             mkMove "2020-01-01" "sell-close" "X" "43"]) /\
    (cash_after <? 1000)%float = true.
Proof.
  split; [vm_compute; reflexivity|].
  split; [vm_compute; reflexivity|].
  split; [vm_compute; reflexivity|].
  eexists. split; vm_compute; reflexivity.
Qed.

(** C5. Called with [max_past_pairs = 0], the lookback strategy returns
    exactly the final cash and moves of the forward search that never
    enters the corrective branch, which are those of the simple greedy
    strategy; every corrective sub-search it launches returns its cash
    and no moves. *)
Theorem no_budget_never_corrects
    (df : list Bar) (cash : Q) (moves : option (list Move)) (min_profit : ext Q) :
  extra_greedy_trading_recursive df cash moves false (Fin 0%Z) min_profit =
    forward_only df cash (match moves with None => [] | Some l => l end) /\
  extra_greedy_trading_recursive df cash moves false (Fin 0%Z) min_profit =
    greedy_trading_recursive df cash moves /\
  (forall (df' : list Bar) (cash' : Q),
     extra_greedy_trading_recursive df' cash' (Some []) true
       (ext_sub (Fin 0%Z) 1) min_profit = (cash', [])).
Proof.
  split; [|split].
  - unfold extra_greedy_trading_recursive, forward_only.
    now rewrite extra_greedy_fuel_no_budget, forward_only_fuel_greedy.
  - symmetry. apply greedy_as_extra.
  - reflexivity.
Qed.

(** C6 (as stated, refuted). A corrective branch launched by a call whose
    [max_past_pairs] is 0 has budget -1 and produces no pair: the number of
    pairs it produces, 0, is above its budget. *)
Lemma negative_budget_below_pair_count :
  ~ (pairs (snd (extra_greedy_trading_recursive frame_x 1000 (Some []) true
                   (ext_sub (Fin 0%Z) 1) NegInf))
     <= -1)%Z.
Proof.
  vm_compute. intros H. apply H. reflexivity.
Qed.

(** C6 (amended). A corrective call whose move list already holds at
    least [max_past_pairs] pairs returns its cash and moves unchanged; and
    a corrective call with a finite budget [b] appends, nested corrective
    sub-searches included, at most [b] pairs when [b] is positive and none
    otherwise. *)
Theorem corrective_budget_is_ceiling
    (df : list Bar) (cash : Q) (moves : list Move)
    (max_past_pairs : ext Z) (min_profit : ext Q) :
  (Z_ge_ext (pairs moves) max_past_pairs = true ->
   extra_greedy_trading_recursive df cash (Some moves) true max_past_pairs min_profit
   = (cash, moves)) /\
  (forall b : Z,
     max_past_pairs = Fin b ->
     (pairs (snd (extra_greedy_trading_recursive df cash (Some moves) true
                    max_past_pairs min_profit))
      - pairs moves <= Z.max 0 b)%Z).
Proof.
  split.
  - apply corrective_budget_exhausted.
  - intros b Hb.
    pose proof (extra_greedy_run df cash moves true max_past_pairs min_profit) as Hrun.
    apply eg_run_budget in Hrun as (n & Hn & _ & Hle).
    specialize (Hle eq_refl b Hb). lia.
Qed.

Lemma corrective_budget_is_ceiling_witness :
  Z_ge_ext (pairs []) (Fin 0%Z) = true /\
  extra_greedy_trading_recursive frame_x 1000 (Some []) true (Fin 0%Z) NegInf
  = (1000, []) /\
  (pairs (snd (extra_greedy_trading_recursive frame_x 1000 (Some []) true (Fin 0%Z) NegInf))
   - pairs [] <= Z.max 0 0)%Z.
Proof.
  split; [reflexivity|]. split.
  - apply (proj1 (corrective_budget_is_ceiling frame_x 1000 [] (Fin 0%Z) NegInf)).
    reflexivity.
  - apply (proj2 (corrective_budget_is_ceiling frame_x 1000 [] (Fin 0%Z) NegInf) 0%Z).
    reflexivity.
Defined.

(** C7. In a corrective call whose selection is [c]: no affordable row
    offers a better profit than [c]; if that profit is below [min_profit]
    the call returns its cash and moves unchanged; and if the call changes
    the move list, the profit was at least [min_profit] and the pair of [c]
    was appended. *)
Theorem corrective_admission
    (df : list Bar) (cash : Q) (moves : list Move)
    (max_past_pairs : ext Z) (min_profit : ext Q) (c : choice) :
  choose cash (affordable cash df) = Some c ->
  Forall (fun r => profit_open_of cash r <= best_profit c /\
                   profit_low_of cash r <= best_profit c)
         (affordable cash df) /\
  (Q_lt_ext (best_profit c) min_profit ->
   extra_greedy_trading_recursive df cash (Some moves) true max_past_pairs min_profit
   = (cash, moves)) /\
  (snd (extra_greedy_trading_recursive df cash (Some moves) true
          max_past_pairs min_profit) <> moves ->
   Q_ge_ext (best_profit c) min_profit = true /\
   exists in_between rest,
     snd (extra_greedy_trading_recursive df cash (Some moves) true
            max_past_pairs min_profit)
     = moves ++ in_between ++ chosen_moves cash c ++ rest).
Proof.
  intros Hc. split; [|split].
  - pose proof Hc as (_ & _ & _ & Hbest)%choose_spec.
    eapply List.Forall_impl; [|exact Hbest]. intros r Hr. unfold max_profit_of in Hr.
    pose proof (Q.le_max_l (profit_open_of cash r) (profit_low_of cash r)).
    pose proof (Q.le_max_r (profit_open_of cash r) (profit_low_of cash r)).
    split; lra.
  - now apply corrective_rejected.
  - intros Hne.
    destruct (extra_greedy_executed df cash moves true max_past_pairs min_profit c Hc Hne)
      as (_ & Hg & Hex).
    split; [exact Hg|exact Hex].
Qed.

Lemma corrective_admission_witness :
  let c := mkChoice 0 bar_x (max_profit_of 1000 bar_x) false in
  choose 1000 (affordable 1000 frame_x) = Some c /\
  Q_lt_ext (best_profit c) (Fin 200) /\
  extra_greedy_trading_recursive frame_x 1000 (Some []) true PosInf (Fin 200)
  = (1000, []).
Proof.
  intros c.
  assert (Hc : choose 1000 (affordable 1000 frame_x) = Some c) by reflexivity.
  assert (Hlt : Q_lt_ext (best_profit c) (Fin 200)) by (vm_compute; reflexivity).
  split; [exact Hc|]. split; [exact Hlt|].
  exact (proj1 (proj2 (corrective_admission frame_x 1000 [] PosInf (Fin 200) c Hc)) Hlt).
Defined.





(** C10. On an empty move list the validator returns 0 whatever the
    initial cash; a strategy that returns no moves returns its cash
    unchanged, and so does a scenario that records no move; hence, for an
    initial cash of at least one cent, the check of [main] on a run without
    moves reports a validation failure. *)
Theorem empty_run_fails_validation
    (initial_cash : Q) (stock_dict : gmap string (list Bar)) :
  validate_moves initial_cash [] stock_dict = 0 /\
  (forall (df : list Bar) (max_past_pairs : ext Z) (min_profit : ext Q),
     (snd (greedy_trading_recursive df initial_cash None) = [] ->
      fst (greedy_trading_recursive df initial_cash None) = initial_cash) /\
     (snd (extra_greedy_trading_recursive df initial_cash None false
             max_past_pairs min_profit) = [] ->
      fst (extra_greedy_trading_recursive df initial_cash None false
             max_past_pairs min_profit) = initial_cash)) /\
  (1 # 100 <= initial_cash ->
   validation_success initial_cash (validate_moves initial_cash [] stock_dict) = false) /\
  (1 # 100 <= initial_cash ->
   forall (sc : scenario) (combined_data : list Bar),
     combined_data <> [] ->
     all_moves (match sc with
                | Small => run_small_scenario combined_data initial_cash
                | Large => run_large_scenario combined_data initial_cash None
                end) = [] ->
     main_status initial_cash sc combined_data stock_dict = Some false).
Proof.
  split; [reflexivity|]. split; [|split].
  - intros df mx mn. split.
    + apply (greedy_no_moves df initial_cash).
    + apply (extra_greedy_no_moves df initial_cash).
  - apply no_moves_status.
  - intros Hc sc combined_data Hne Hm. unfold main_status.
    destruct combined_data as [|r0 rest]; [congruence|].
    destruct sc.
    + rewrite Hm, (run_small_no_moves _ _ Hm). f_equal. now apply no_moves_status.
    + rewrite Hm, (run_large_no_moves _ _ _ Hm). f_equal. now apply no_moves_status.
Qed.

Lemma empty_run_fails_validation_witness :
  1 # 100 <= INITIAL_CASH /\
  frame_x <> [] /\
  all_moves (run_small_scenario frame_x INITIAL_CASH) = [] /\
  main_status INITIAL_CASH Small frame_x dict_x = Some false.
Proof.
  split; [vm_compute; discriminate|]. split; [discriminate|].
  split; [vm_compute; reflexivity|].
  apply (proj2 (proj2 (proj2 (empty_run_fails_validation INITIAL_CASH dict_x)))).
  - vm_compute. discriminate.
  - discriminate.
  - vm_compute. reflexivity.
Defined.

End Claims.

(** * Further properties of the code *)

Section Coverage.

Local Open Scope Q_scope.

(** X1. Whatever its arguments, each strategy returns the moves it was
    given followed by adjacent pairs: a buy leg and right after it the sell
    leg of the same variant, for the same day, stock and quantity. *)
Theorem output_is_paired
    (df : list Bar) (cash : Q) (moves : list Move) (past : bool)
    (max_past_pairs : ext Z) (min_profit : ext Q) :
  (exists new,
     snd (greedy_trading_recursive df cash (Some moves)) = moves ++ new /\
     paired new) /\
  (exists new,
     snd (extra_greedy_trading_recursive df cash (Some moves) past
            max_past_pairs min_profit) = moves ++ new /\
     paired new).
Proof.
  assert (E : forall past mx mn, exists new,
             snd (extra_greedy_trading_recursive df cash (Some moves) past mx mn)
             = moves ++ new /\ paired new).
  { intros p mx mn.
    pose proof (extra_greedy_run df cash moves p mx mn) as Hrun.
    apply eg_run_trades in Hrun as (ts & E & _).
    eexists. split; [exact E|apply flat_map_pairs_paired]. }
  split; [|apply E].
  rewrite (greedy_as_extra df cash (Some moves) min_profit). apply E.
Qed.

(** X2. When the dates of the frame are calendar dates, the moves a
    strategy appends are in chronological order: their dates parse and
    never decrease along the list, corrective moves included. *)
Theorem output_is_chronological
    (df : list Bar) (cash : Q) (moves : list Move) (past : bool)
    (max_past_pairs : ext Z) (min_profit : ext Q) :
  Forall (fun r => valid_date (Date r)) df ->
  (exists new ds,
     snd (greedy_trading_recursive df cash (Some moves)) = moves ++ new /\
     dated new ds /\ StronglySorted date_le ds) /\
  (exists new ds,
     snd (extra_greedy_trading_recursive df cash (Some moves) past
            max_past_pairs min_profit) = moves ++ new /\
     dated new ds /\ StronglySorted date_le ds).
Proof.
  intros Hv.
  assert (E : forall past mx mn, exists new ds,
             snd (extra_greedy_trading_recursive df cash (Some moves) past mx mn)
             = moves ++ new /\ dated new ds /\ StronglySorted date_le ds).
  { intros p mx mn.
    pose proof (extra_greedy_run df cash moves p mx mn) as Hrun.
    apply eg_run_trades in Hrun as (ts & E & F & S & _).
    eexists. eexists. split; [exact E|]. split.
    - now apply flat_map_pairs_dated with df.
    - now apply twice_sorted. }
  split; [|apply E].
  rewrite (greedy_as_extra df cash (Some moves) min_profit). apply E.
Qed.

Lemma output_is_chronological_witness :
  Forall (fun r => valid_date (Date r)) frame_x /\
  exists new ds,
    snd (greedy_trading_recursive frame_x 1000 (Some [])) = [] ++ new /\
    dated new ds /\ StronglySorted date_le ds.
Proof.
  assert (Hv : Forall (fun r => valid_date (Date r)) frame_x) by (repeat constructor).
  split; [exact Hv|].
  exact (proj1 (output_is_chronological frame_x 1000 [] false PosInf NegInf Hv)).
Defined.

(** X3. A strategy appends at most one pair per row of its frame: the
    returned list is at most two moves per row longer than the list it was
    given. *)
Theorem output_is_bounded_by_rows
    (df : list Bar) (cash : Q) (moves : list Move) (past : bool)
    (max_past_pairs : ext Z) (min_profit : ext Q) :
  (length (snd (greedy_trading_recursive df cash (Some moves)))
   <= length moves + 2 * length df)%nat /\
  (length (snd (extra_greedy_trading_recursive df cash (Some moves) past
                  max_past_pairs min_profit))
   <= length moves + 2 * length df)%nat.
Proof.
  assert (E : forall past mx mn,
             (length (snd (extra_greedy_trading_recursive df cash (Some moves) past mx mn))
              <= length moves + 2 * length df)%nat).
  { intros p mx mn.
    pose proof (extra_greedy_run df cash moves p mx mn) as Hrun.
    apply eg_run_trades in Hrun as (ts & E & _ & _ & L).
    rewrite E, length_app, flat_map_pairs_length. lia. }
  split; [|apply E].
  rewrite (greedy_as_extra df cash (Some moves) min_profit). apply E.
Qed.

(** X5. A forward call uses the move list it is given as a prefix only:
    its result is the result on the empty list with the given moves put in
    front, for the simple strategy and for the lookback strategy with
    [past = False]. *)
Theorem forward_search_prefixes_moves
    (df : list Bar) (cash : Q) (moves : list Move)
    (max_past_pairs : ext Z) (min_profit : ext Q) :
  greedy_trading_recursive df cash (Some moves) =
    (fst (greedy_trading_recursive df cash None),
     moves ++ snd (greedy_trading_recursive df cash None)) /\
  extra_greedy_trading_recursive df cash (Some moves) false max_past_pairs min_profit =
    (fst (extra_greedy_trading_recursive df cash None false max_past_pairs min_profit),
     moves ++ snd (extra_greedy_trading_recursive df cash None false
                     max_past_pairs min_profit)).
Proof.
  assert (E : forall mx mn,
    extra_greedy_trading_recursive df cash (Some moves) false mx mn =
    (fst (extra_greedy_trading_recursive df cash None false mx mn),
     moves ++ snd (extra_greedy_trading_recursive df cash None false mx mn))).
  { intros mx mn. rewrite extra_greedy_default_moves.
    pose proof (extra_greedy_result df cash moves false mx mn) as E1.
    pose proof (extra_greedy_result df cash [] false mx mn) as E2.
    rewrite extra_greedy_fuel_prefix, E2 in E1. cbn in E1. now injection E1. }
  split; [|apply E].
  rewrite (greedy_as_extra df cash (Some moves) min_profit),
          (greedy_as_extra df cash None min_profit).
  apply E.
Qed.

(** X6. With [max_past_pairs] at most 1 the lookback strategy called with
    [past = False] returns what the simple strategy returns: the budget
    handed to a corrective sub-search is one less, so a budget of 1 already
    buys no corrective pair. *)
Theorem budget_of_one_never_corrects
    (df : list Bar) (cash : Q) (moves : option (list Move))
    (max_past_pairs : ext Z) (min_profit : ext Q) :
  Z_ge_ext 1 max_past_pairs = true ->
  extra_greedy_trading_recursive df cash moves false max_past_pairs min_profit
  = greedy_trading_recursive df cash moves.
Proof.
  intros H. unfold extra_greedy_trading_recursive, greedy_trading_recursive.
  now rewrite (extra_greedy_fuel_small_budget max_past_pairs _ H).
Qed.

Lemma budget_of_one_never_corrects_witness :
  Z_ge_ext 1 (Fin 1%Z) = true /\
  extra_greedy_trading_recursive frame_x 1000 None false (Fin 1%Z) NegInf
  = greedy_trading_recursive frame_x 1000 None.
Proof.
  split; [reflexivity|].
  apply (budget_of_one_never_corrects frame_x 1000 None (Fin 1%Z) NegInf).
  reflexivity.
Defined.

(** X7. Every move list the validator processes to completion is in
    chronological order: all its dates parse and they never decrease along
    the list. *)
Theorem accepted_moves_are_chronological
    (initial_cash : Q) (stock_dict : gmap string (list Bar))
    (moves : list Move) (final : vstate) :
  validate_loop initial_cash stock_dict initial_vstate moves = Some final ->
  exists ds, dated moves ds /\ StronglySorted date_le ds.
Proof.
  intros H. apply validate_loop_dated in H as (ds & Hd & Hs & _). eauto.
Qed.

Lemma accepted_moves_are_chronological_witness :
  exists ds, dated moves_x ds /\ StronglySorted date_le ds.
Proof.
  apply (accepted_moves_are_chronological 1000 dict_x moves_x
           (mkVState (Some (mkDate 2020 1 1))
              (1000 - 9 * BUY_COST_FACTOR * inject_Z 100)
              (0 + 11 * SELL_REVENUE_FACTOR * inject_Z 100))).
  reflexivity.
Defined.

(** X8. With a non-negative initial cash, non-negative close and high
    prices in the market data and non-negative quantities in the moves, a
    validation that completes leaves cash and revenue non-negative; so the
    value returned is the sentinel -1 exactly when the validation failed. *)
Theorem sentinel_means_failure
    (initial_cash : Q) (stock_dict : gmap string (list Bar)) (moves : list Move) :
  0 <= initial_cash ->
  (forall sym d row, find_row stock_dict sym d = Some row ->
                     0 <= Close row /\ 0 <= High row) ->
  Forall (fun m => forall q, parse_int (quantity_str m) = Some q -> (0 <= q)%Z) moves ->
  (forall final,
     validate_loop initial_cash stock_dict initial_vstate moves = Some final ->
     0 <= daily_cash final /\ 0 <= daily_revenue final) /\
  (validate_moves initial_cash moves stock_dict == - (1) <->
   validate_loop initial_cash stock_dict initial_vstate moves = None).
Proof.
  intros Hi Hp Hq.
  assert (N : forall final,
             validate_loop initial_cash stock_dict initial_vstate moves = Some final ->
             0 <= daily_cash final /\ 0 <= daily_revenue final).
  { intros final H.
    apply (validate_loop_nonneg initial_cash stock_dict moves Hi Hp Hq
             initial_vstate final); [simpl; lra|simpl; lra|exact H]. }
  split; [exact N|]. unfold validate_moves.
  destruct (validate_loop initial_cash stock_dict initial_vstate moves) as [final|].
  - destruct (N final eq_refl). split; [intros E; lra|discriminate].
  - split; reflexivity.
Qed.

Lemma sentinel_means_failure_witness :
  validate_moves 1000 moves_x dict_x == - (1) <->
  validate_loop 1000 dict_x initial_vstate moves_x = None.
Proof.
  apply (sentinel_means_failure 1000 dict_x moves_x).
  - vm_compute. discriminate.
  - intros sym d row H. apply find_row_found in H as (frame & Hs & Hin & _).
    unfold dict_x in Hs. apply lookup_singleton_Some in Hs as (_ & <-).
    destruct Hin as [<-|[]]. split; vm_compute; discriminate.
  - repeat constructor; intros q H; vm_compute in H; injection H as <-; lia.
Defined.

(** X9. The validator does not look at the sign of a quantity: a buy of a
    negative quantity at a non-negative price is accepted when the bar
    exists, the date is in order and the available cash is not negative,
    and it leaves at least as much cash as was available. *)
Theorem negative_buy_is_accepted
    (initial_cash : Q) (stock_dict : gmap string (list Bar))
    (st : vstate) (m : Move) (d : date) (q : Z) (row : Bar) (price : Q) :
  parse_date (date_str m) = Some d ->
  parse_int (quantity_str m) = Some q ->
  find_row stock_dict (stock m) d = Some row ->
  buy_price_of (action m) row = Some price ->
  not_after st d ->
  revenue_nonneg st ->
  (q < 0)%Z -> (q <= Max_Quantity row)%Z ->
  0 <= price -> 0 <= available initial_cash st d ->
  exists st',
    validate_move initial_cash stock_dict st m = Some st' /\
    daily_cash st' ==
      available initial_cash st d - price * BUY_COST_FACTOR * inject_Z q /\
    available initial_cash st d <= daily_cash st'.
Proof.
  intros Hd Hq Hf Hb Hna Hrev Hneg Hmax Hp Hav.
  destruct (advance_date_ok initial_cash st d Hna Hrev)
    as (st1 & Hadv & _ & Hdc & _ & _).
  assert (Hcost : price * BUY_COST_FACTOR * inject_Z q <= 0).
  { assert (inject_Z q <= 0) by (apply (proj1 (inject_Z_le q 0)); lia).
    pose proof BUY_COST_FACTOR_pos.
    assert (0 <= price * BUY_COST_FACTOR) by (apply Qmult_le_0_compat; lra).
    assert (0 <= (price * BUY_COST_FACTOR) * (- inject_Z q))
      by (apply Qmult_le_0_compat; lra).
    lra. }
  unfold validate_move. rewrite Hd, Hq, Hadv, Hf.
  rewrite (quantity_within _ _ Hmax), apply_action_rules, Hb.
  assert (E : Qltb (daily_cash st1) (price * BUY_COST_FACTOR * inject_Z q) = false).
  { apply Qltb_ge. rewrite Hdc. lra. }
  rewrite E. eexists. split; [reflexivity|]. cbn [daily_cash]. rewrite Hdc.
  split; [reflexivity|lra].
Qed.

Lemma negative_buy_is_accepted_witness :
  exists st',
    validate_move 1000 dict_x initial_vstate
      (mkMove "2020-01-01" "buy-low" "X" "-5") = Some st' /\
    daily_cash st' == 1000 - 9 * BUY_COST_FACTOR * inject_Z (-5) /\
    1000 <= daily_cash st'.
Proof.
  apply (negative_buy_is_accepted 1000 dict_x initial_vstate
           (mkMove "2020-01-01" "buy-low" "X" "-5")
           (mkDate 2020 1 1) (-5)%Z bar_x 9);
    try reflexivity; try exact I; try lia; vm_compute; discriminate.
Defined.

(** X10. Moves whose action is none of the four known ones pass through
    the date, bar and volume checks but move no money: a non-empty list of
    such moves that is processed to completion returns the initial cash. *)
Theorem unsupported_actions_move_no_money
    (initial_cash : Q) (stock_dict : gmap string (list Bar))
    (moves : list Move) (final : vstate) :
  Forall (fun m => unsupported (action m)) moves ->
  moves <> [] ->
  validate_loop initial_cash stock_dict initial_vstate moves = Some final ->
  validate_moves initial_cash moves stock_dict == initial_cash.
Proof.
  intros Hu Hne H. unfold validate_moves. rewrite H.
  apply validate_loop_total in H as (Ht & Hc). specialize (Hc Hne).
  destruct (unsupported_totals stock_dict moves Hu) as (Ec & Er).
  rewrite Ec, Er in Ht. unfold settled_total in Ht. simpl in Ht.
  destruct (current_date final); [rewrite Ht; ring|congruence].
Qed.

Lemma unsupported_actions_move_no_money_witness :
  validate_moves 1000 [mkMove "2020-01-01" "hold" "X" "7"] dict_x == 1000.
Proof.
  apply (unsupported_actions_move_no_money 1000 dict_x
           [mkMove "2020-01-01" "hold" "X" "7"]
           (mkVState (Some (mkDate 2020 1 1)) 1000 0)).
  - repeat constructor. unfold unsupported. simpl.
    intros [H|[H|[H|[H|[]]]]]; discriminate.
  - discriminate.
  - reflexivity.
Defined.

(** X12. Looking a bar up: a frame stored under a symbol, with one row per
    date, gives back each of its rows; a row found is a row of the frame
    stored under that symbol, dated as asked; and nothing is found under a
    symbol that is not a key. *)
Theorem find_row_is_lookup
    (stock_dict : gmap string (list Bar)) (sym : string) :
  (forall frame r,
     stock_dict !! sym = Some frame ->
     List.NoDup (map Date frame) ->
     In r frame ->
     find_row stock_dict sym (Date r) = Some r) /\
  (forall d r,
     find_row stock_dict sym d = Some r ->
     exists frame, stock_dict !! sym = Some frame /\ In r frame /\ Date r = d) /\
  (stock_dict !! sym = None -> forall d, find_row stock_dict sym d = None).
Proof.
  split; [|split].
  - intros frame r. apply find_row_stored.
  - intros d r. apply find_row_found.
  - intros H d. unfold find_row. now rewrite H.
Qed.

Lemma find_row_is_lookup_witness :
  find_row dict_x "X" (Date bar_x) = Some bar_x.
Proof.
  apply (proj1 (find_row_is_lookup dict_x "X") [bar_x] bar_x).
  - reflexivity.
  - repeat constructor. intros [].
  - left. reflexivity.
Defined.

(** X13. The selection of a call is the first row of its affordable frame
    that reaches the best profit: every row before it offers strictly
    less, and no row offers more. *)
Theorem selection_is_first_maximum
    (cash : Q) (df : list Bar) (c : choice) :
  choose cash (affordable cash df) = Some c ->
  nth_error (affordable cash df) (best_profit_idx c) = Some (chosen_row c) /\
  best_profit c = max_profit_of cash (chosen_row c) /\
  (forall j r, (j < best_profit_idx c)%nat ->
               nth_error (affordable cash df) j = Some r ->
               max_profit_of cash r < best_profit c) /\
  Forall (fun r => max_profit_of cash r <= best_profit c) (affordable cash df).
Proof.
  intros H. pose proof H as (Hn & Hb & _ & Hmax)%choose_spec.
  split; [exact Hn|]. split; [exact Hb|]. split; [|exact Hmax].
  intros j r. now apply choose_first.
Qed.

Lemma selection_is_first_maximum_witness :
  let c := mkChoice 1 bar_x (max_profit_of 1000 bar_x) false in
  choose 1000 (affordable 1000 frame_yx) = Some c /\
  max_profit_of 1000 bar_y < best_profit c.
Proof.
  intros c.
  assert (Hc : choose 1000 (affordable 1000 frame_yx) = Some c) by reflexivity.
  split; [exact Hc|].
  apply (proj1 (proj2 (proj2 (selection_is_first_maximum 1000 frame_yx c Hc)))
           0%nat bar_y); [cbn; lia|reflexivity].
Defined.

(** X14. [dynamic_minimum_profit] asks for nothing below a cash of 1000;
    from there on the threshold is finite, at least 10, at most one percent
    of the cash and at most 100000; and it never decreases when the cash
    grows. *)
Theorem minimum_profit_is_bounded_and_monotone (cash : Q) :
  (cash < 1000 -> dynamic_minimum_profit cash = NegInf) /\
  (1000 <= cash ->
   exists t, dynamic_minimum_profit cash = Fin t /\
             10 <= t /\ t <= cash / 100 /\ t <= 100000) /\
  (forall cash', cash <= cash' ->
     ext_Qle (dynamic_minimum_profit cash) (dynamic_minimum_profit cash')).
Proof.
  assert (D : forall x : Q, x / 100 == x * (1 # 100)) by (intros x; field).
  assert (C : forall x,
    (x < 1000 /\ dynamic_minimum_profit x = NegInf) \/
    (1000 <= x /\ x <= 10000000 /\ dynamic_minimum_profit x = Fin (x / 100)) \/
    (10000000 < x /\ dynamic_minimum_profit x = Fin 100000)).
  { intros x. unfold dynamic_minimum_profit.
    destruct (Qltb x 1000) eqn:E1.
    - apply Qltb_lt in E1. left. auto.
    - apply Qltb_ge in E1. destruct (Qle_bool x 10000000) eqn:E2.
      + apply Qle_bool_iff in E2. right. left. auto.
      + apply Qle_bool_gt in E2. right. right. auto. }
  split; [|split].
  - intros H. destruct (C cash) as [(_ & E)|[(H1 & _)|(H1 & _)]]; [exact E|lra|lra].
  - intros H. destruct (C cash) as [(H1 & _)|[(_ & H2 & E)|(H1 & E)]]; [lra| |].
    + exists (cash / 100). split; [exact E|].
      pose proof (D cash) as Dc. set (t := cash / 100) in *.
      repeat split; lra.
    + exists 100000. split; [exact E|].
      pose proof (D cash) as Dc. set (t := cash / 100) in *.
      repeat split; lra.
  - intros cash' Hle.
    destruct (C cash) as [(H1 & ->)|[(H1 & H2 & ->)|(H1 & ->)]]; [exact I| |];
      destruct (C cash') as [(H1' & ->)|[(H1' & H2' & ->)|(H1' & ->)]];
      cbn [ext_Qle];
      pose proof (D cash) as Dc; pose proof (D cash') as Dc';
      set (t := cash / 100) in *; set (t' := cash' / 100) in *; lra.
Qed.

Lemma minimum_profit_is_bounded_and_monotone_witness :
  exists t, dynamic_minimum_profit 5000 = Fin t /\
            10 <= t /\ t <= 5000 / 100 /\ t <= 100000.
Proof.
  apply (proj1 (proj2 (minimum_profit_is_bounded_and_monotone 5000))).
  vm_compute. discriminate.
Defined.

(** X15. [_dynamic_max_pairs]: an unbounded base stays unbounded; for a
    non-negative finite base the budget is a whole number not below the
    truncated base, and it does not shrink as the current year moves
    towards the last year. *)
Theorem max_pairs_grows_towards_last_year
    (base : Q) (year1 year2 last_year : nat) :
  0 <= base ->
  (year1 <= year2 <= last_year)%nat ->
  dynamic_max_pairs None year1 last_year = PosInf /\
  (exists n1 n2,
     dynamic_max_pairs (Some base) year1 last_year = Fin n1 /\
     dynamic_max_pairs (Some base) year2 last_year = Fin n2 /\
     (Qtruncate base <= n1 <= n2)%Z).
Proof.
  intros Hb Hy. split; [reflexivity|].
  unfold dynamic_max_pairs.
  set (r1 := (Z.of_nat last_year - Z.of_nat year1)%Z).
  set (r2 := (Z.of_nat last_year - Z.of_nat year2)%Z).
  assert (Hr : (0 <= r2 <= r1)%Z) by (unfold r1, r2; lia).
  pose proof (budget_factor_mono r1 r2 Hr) as Hm.
  pose proof (budget_factor_ge_1 r1 ltac:(lia)) as H1.
  pose proof (budget_factor_ge_1 r2 ltac:(lia)) as H2.
  destruct (40 <=? r1)%Z; destruct (40 <=? r2)%Z;
    (eexists; eexists; split; [reflexivity|]; split; [reflexivity|];
     split; apply Qtruncate_mono; nra).
Qed.

Lemma max_pairs_grows_towards_last_year_witness :
  exists n1 n2,
    dynamic_max_pairs (Some 2) 1970 2017 = Fin n1 /\
    dynamic_max_pairs (Some 2) 2016 2017 = Fin n2 /\
    (Qtruncate 2 <= n1 <= n2)%Z.
Proof.
  apply (proj2 (max_pairs_grows_towards_last_year 2 1970 2016 2017
                  ltac:(vm_compute; discriminate) ltac:(lia))).
Defined.

(** X19. Both scenarios record a balance under exactly the years that occur
    in the data, and the balance recorded under the greatest year is the
    final cash. *)
Theorem ledger_covers_the_years
    (df : list Bar) (initial_cash : Q) (initial_max_past_pairs : option Q)
    (result : ledger) :
  result = run_small_scenario df initial_cash \/
  result = run_large_scenario df initial_cash initial_max_past_pairs ->
  (forall y, is_Some (cash_per_year result !! y) <-> In y (map year_of df)) /\
  (forall y, In y (map year_of df) ->
     (forall y', In y' (map year_of df) -> (y' <= y)%nat) ->
     cash_per_year result !! y = Some (ledger_cash result)).
Proof.
  intros [->| ->]; unfold run_small_scenario, run_large_scenario; cbv zeta; split.
  - intros y. rewrite (fold_keys _ (small_year_record df)).
    cbn [cash_per_year]. rewrite lookup_empty, sorted_unique_in.
    split; [intros [H|H]; [exact H|now destruct H]|now left].
  - intros y Hin Hmax. rewrite <- (greatest_year_last df y Hin Hmax).
    apply (fold_last _ (small_year_record df)).
    intros E. apply (proj2 (sorted_unique_in _ _)) in Hin. now rewrite E in Hin.
  - intros y. rewrite (fold_keys _ (large_year_record df _ _ _)).
    cbn [cash_per_year]. rewrite lookup_empty, sorted_unique_in.
    split; [intros [H|H]; [exact H|now destruct H]|now left].
  - intros y Hin Hmax. rewrite <- (greatest_year_last df y Hin Hmax) at 1.
    apply (fold_last _ (large_year_record df _ _ _)).
    intros E. apply (proj2 (sorted_unique_in _ _)) in Hin. now rewrite E in Hin.
Qed.

Lemma ledger_covers_the_years_witness :
  cash_per_year (run_small_scenario frame_yx 1000) !! 2020%nat
  = Some (ledger_cash (run_small_scenario frame_yx 1000)).
Proof.
  apply (proj2 (ledger_covers_the_years frame_yx 1000 None
                  (run_small_scenario frame_yx 1000) (or_introl eq_refl))).
  - vm_compute. tauto.
  - intros y' H. vm_compute in H. destruct H as [<-|[<-|[]]]; lia.
Defined.

(** X21. For files with ASCII names and whole volumes below [2 ^ 52], every
    frame [load_and_preprocess_data] stores in the dictionary is non-empty
    and carries its key as stock symbol, and every row of the dictionary
    and of the combined data has positive prices and volume, a low and a
    high that bracket the other prices, and [Max_Quantity] equal to the
    truncated tenth of its volume; the stock of every combined row is a key
    of the dictionary. *)
Theorem loaded_data_is_clean (files : list DataFile) :
  Forall (fun f => ascii_name (file_name f)) files ->
  whole_volumes files ->
  map_Forall
    (fun sym frame =>
       frame <> [] /\
       Forall (fun r => cleaned_rowb r = true /\
                        Max_Quantity r = max_quantity_of (Volume r) /\
                        Stock r = sym) frame)
    (snd (load_and_preprocess_data files)) /\
  Forall (fun r => cleaned_rowb r = true /\
                   Max_Quantity r = max_quantity_of (Volume r) /\
                   is_Some (snd (load_and_preprocess_data files) !! Stock r))
    (fst (load_and_preprocess_data files)).
Proof.
  intros _ _. split.
  - intros sym frame H. destruct (load_results files) as (E & _).
    rewrite E in H. apply inserts_lookup in H as [H|H].
    + now apply (stored_frame_rows files).
    + now rewrite lookup_empty in H.
  - apply List.Forall_forall. intros r Hr.
    destruct (loaded_row files r Hr) as (sym & df & Hst & Hin).
    pose proof (stored_frame_rows files sym df Hst) as (_ & Hf).
    rewrite List.Forall_forall in Hf. destruct (Hf r Hin) as (Hc & Hm & Hs).
    split; [exact Hc|]. split; [exact Hm|].
    destruct (load_results files) as (-> & _).
    apply inserts_dom. left. rewrite Hs.
    apply in_map_iff. now exists (sym, df).
Qed.

Lemma loaded_data_is_clean_witness :
  Forall (fun r => cleaned_rowb r = true /\
                   Max_Quantity r = max_quantity_of (Volume r) /\
                   is_Some (snd (load_and_preprocess_data files_x) !! Stock r))
    (fst (load_and_preprocess_data files_x)).
Proof.
  exact (proj2 (loaded_data_is_clean files_x files_x_ascii files_x_whole)).
Defined.

(** X22. When the files have ASCII names and whole volumes below [2 ^ 52],
    the [.txt] files have pairwise distinct symbols and every readable file
    has pairwise distinct, valid dates, the sorted combined data is cleaned
    and every row of it is the row the dictionary holds for its stock and
    date: the data meets what the strategies and the validator rely on. *)
Theorem loaded_data_is_listed (files : list DataFile) (combined_data : list Bar) :
  Forall (fun f => ascii_name (file_name f)) files ->
  whole_volumes files ->
  List.NoDup (map (fun f => stock_symbol_of (file_name f))
                (List.filter (fun f => ends_with (file_name f) ".txt") files)) ->
  (forall f rows, In f files -> file_rows f = Some rows ->
     List.NoDup (map raw_date rows) /\ Forall (fun r => valid_date (raw_date r)) rows) ->
  sort_values (fst (load_and_preprocess_data files)) combined_data ->
  cleaned combined_data /\
  listed (snd (load_and_preprocess_data files)) combined_data.
Proof.
  intros _ _ Hsym Hrows (Hp & _).
  destruct (loaded_well_formed files Hsym Hrows) as (Hc & Hl).
  split; [exact (cleaned_permutation _ _ Hp Hc)|exact (listed_permutation _ _ _ Hp Hl)].
Qed.

Lemma loaded_data_is_listed_witness :
  cleaned (fst (load_and_preprocess_data files_x)) /\
  listed (snd (load_and_preprocess_data files_x))
    (fst (load_and_preprocess_data files_x)).
Proof.
  apply (loaded_data_is_listed files_x _ files_x_ascii files_x_whole).
  - vm_compute. constructor; [intros []|constructor].
  - intros f rows [<-|[<-|[]]] H; [|discriminate].
    injection H as <-. split.
    + vm_compute. repeat (constructor; [cbn; intuition discriminate|]). constructor.
    + repeat constructor.
  - split; [apply Permutation_refl|]. vm_compute. repeat constructor.
Defined.

(** X24. When two files are stored under one symbol, the dictionary keeps
    the frame of the later one only, while the rows of both frames that
    pass the outlier filter go to the combined data; a row of the earlier
    frame whose date the later frame lacks is then not found under its own
    stock and date. *)
Theorem dictionary_keeps_last_file
    (pre mid post : list DataFile) (f1 f2 : DataFile) (sym : string)
    (df1 df2 : list Bar) :
  Forall (fun f => ascii_name (file_name f)) (pre ++ f1 :: mid ++ f2 :: post) ->
  whole_volumes (pre ++ f1 :: mid ++ f2 :: post) ->
  file_frame f1 = Some (sym, df1) ->
  file_frame f2 = Some (sym, df2) ->
  Forall (fun g => stock_symbol_of (file_name g) <> sym) post ->
  snd (load_and_preprocess_data (pre ++ f1 :: mid ++ f2 :: post)) !! sym = Some df2 /\
  (forall r, In r (drop_outliers df1) \/ In r (drop_outliers df2) ->
             In r (fst (load_and_preprocess_data (pre ++ f1 :: mid ++ f2 :: post)))) /\
  (forall r, In r df1 -> ~ In (Date r) (map Date df2) ->
             find_row (snd (load_and_preprocess_data (pre ++ f1 :: mid ++ f2 :: post)))
               sym (Date r) = None).
Proof.
  intros _ _ Hf1 Hf2 Hpost.
  assert (Hd : snd (load_and_preprocess_data (pre ++ f1 :: mid ++ f2 :: post)) !! sym
               = Some df2).
  { destruct (load_results (pre ++ f1 :: mid ++ f2 :: post)) as (-> & _).
    change (f1 :: mid ++ f2 :: post) with ([f1] ++ mid ++ f2 :: post).
    rewrite !stored_app. cbn [stored]. rewrite Hf2.
    rewrite !fold_left_app. cbn [fold_left fst snd].
    apply inserts_last; [apply lookup_insert_eq|].
    intros Hin. apply stored_symbols in Hin.
    apply in_map_iff in Hin as (g & Hg & Hin). apply filter_In in Hin as (Hin & _).
    rewrite List.Forall_forall in Hpost. exact (Hpost g Hin Hg). }
  split; [exact Hd|]. split.
  - intros r Hr.
    destruct (load_results (pre ++ f1 :: mid ++ f2 :: post)) as (_ & ->).
    change (f1 :: mid ++ f2 :: post) with ([f1] ++ mid ++ f2 :: post).
    rewrite !stored_app. cbn [stored]. rewrite Hf1, Hf2.
    apply in_concat. destruct Hr as [Hr|Hr].
    + exists (drop_outliers df1). split; [|exact Hr].
      apply in_map. apply in_map_iff. exists (sym, df1). split; [reflexivity|].
      apply in_or_app. right. apply in_or_app. left. now left.
    + exists (drop_outliers df2). split; [|exact Hr].
      apply in_map. apply in_map_iff. exists (sym, df2). split; [reflexivity|].
      apply in_or_app. right. apply in_or_app. right.
      apply in_or_app. right. now left.
  - intros r _ Hr. unfold find_row. rewrite Hd. now apply find_absent.
Qed.

Lemma dictionary_keeps_last_file_witness :
  snd (load_and_preprocess_data files_xx) !! "X"%string
  = Some (map (complete "X") [raw_x1; raw_x2; raw_x3]) /\
  In (complete "X" raw_x1) (fst (load_and_preprocess_data files_xx)).
Proof.
  destruct (dictionary_keeps_last_file [] [] []
              (mkDataFile "x.txt" (Some [raw_x1; raw_x2]))
              (mkDataFile "X.us.txt" (Some [raw_x1; raw_x2; raw_x3]))
              "X" (map (complete "X") [raw_x1; raw_x2])
              (map (complete "X") [raw_x1; raw_x2; raw_x3])
              files_xx_ascii files_xx_whole eq_refl eq_refl (List.Forall_nil _))
    as (Hd & Hin & _).
  split; [exact Hd|]. apply Hin. left. vm_compute. now left.
Defined.

(** X25. The three-sigma filter on the daily range empties a frame of one
    row (its deviation is undefined), and from a frame of [n >= 2] rows
    whose lows do not exceed their highs it drops at most [(n - 1) / 9]
    rows. *)
Theorem outlier_filter_keeps_most (df : list Bar) :
  Forall (fun r => Low r <= High r) df ->
  (length df = 1%nat -> drop_outliers df = []) /\
  ((2 <= length df)%nat ->
   (9 * (length df - length (drop_outliers df)) <= length df - 1)%nat).
Proof.
  intros Hr. split.
  - destruct df as [|r [|r' df]]; simpl; intros H; try lia.
    apply drop_outliers_single.
  - intros Hn. now apply drop_outliers_bound.
Qed.

Lemma outlier_filter_keeps_most_witness :
  (9 * (length (map (complete "X") [raw_x1; raw_x2; raw_x3])
        - length (drop_outliers (map (complete "X") [raw_x1; raw_x2; raw_x3])))
   <= length (map (complete "X") [raw_x1; raw_x2; raw_x3]) - 1)%nat.
Proof.
  apply (proj2 (outlier_filter_keeps_most
                  (map (complete "X") [raw_x1; raw_x2; raw_x3])
                  ltac:(repeat constructor; vm_compute; discriminate))).
  simpl. lia.
Defined.

(** X26. On cleaned data the simple strategy returns the move pairs of a
    sequence of trades, each made on a row of the frame, and the dates of
    these rows are strictly increasing: after a trade the strategy only
    looks at later days. *)
Theorem greedy_dates_strictly_increase (df : list Bar) (cash : Q) :
  cleaned df ->
  snd (greedy_trading_recursive df cash None)
  = flat_map trade_moves (greedy_trades (S (length df)) df cash) /\
  Forall (fun t => In (chosen_row (trade_choice t)) df)
    (greedy_trades (S (length df)) df cash) /\
  StronglySorted date_lt (map trade_date (greedy_trades (S (length df)) df cash)).
Proof.
  intros Hcl.
  destruct (greedy_trades_facts (S (length df)) df cash Hcl) as (_ & Hf & Hs).
  split; [|split; [|exact Hs]].
  - unfold greedy_trading_recursive.
    destruct (greedy_fuel_total (S (length df)) df cash [] ltac:(lia)) as [r Hr].
    rewrite Hr. apply greedy_fuel_trades in Hr. now rewrite Hr.
  - eapply List.Forall_impl; [|exact Hf]. now intros t (H & _).
Qed.

Lemma greedy_dates_strictly_increase_witness :
  StronglySorted date_lt (map trade_date (greedy_trades 3 frame_yx 1000)).
Proof.
  exact (proj2 (proj2 (greedy_dates_strictly_increase frame_yx 1000
                         ltac:(repeat constructor)))).
Defined.

End Coverage.
